(** * gemini-prompts: the collection script [collect.ts]

    A shallow embedding of [src/collect.ts] and the properties its
    specification states about it.

    Layout of the development:
    - [JsString], [JsNumber], [JsArray]: the JavaScript string, number and
      array primitives the script calls ([trim], [split], [startsWith],
      [parseInt], the printing of a number, [indexOf], [slice],
      [findIndex]);
    - [Collect]: the script itself, written over an abstract [Platform]
      (child processes, file system, console) in a small state / trace /
      exception monad;
    - [Utf8]: the UTF-8 decoder and encoder behind [fs.readFile(_, 'utf-8')]
      and [fs.writeFile(_, _, 'utf-8')];
    - [Shell]: how [/bin/sh] cuts a command line into words;
    - [Sim]: a platform in memory (a file system, the git repositories
      that live in it, and the shell that runs git);
    - [JsStringFacts], [JsArrayFacts], [MessageFacts]: the primitives and
      the commit message;
    - [CollectFacts]: the script on any platform, whatever git and the file
      system answer;
    - [Utf8Facts]: well-formed UTF-8 survives decoding and encoding;
    - [ShellFacts]: the command lines of the script, as the shell reads
      them;
    - [SimFacts]: the script on the platform in memory, where the ledger,
      the status of the working tree and the content of files can be told;
    - [OptionFacts], [TagFacts], [ScriptFacts]: on any platform, the
      options of the command line, the enumeration of the tags, and what a
      run does to the outside, event by event;
    - [LedgerFacts], [ExtractionFacts], [TurnFacts], [CopyFacts],
      [QuotingFacts]: on the platform in memory, the ledger and the
      commits, the extraction, one whole turn of the loop, the bytes of a
      copy, and the quoting of the commit message. *)

From Stdlib Require Import ZArith NArith Lia List Ascii String Bool.
From Stdlib Require Strings.Byte.
From stdpp Require Import base strings list gmap pretty.
Import ListNotations.

Local Open Scope string_scope.
Local Open Scope list_scope.

(** ** JavaScript strings *)

Module JsString.

(** The line feed, written ['\n'] in the source. *)
Definition LF : ascii := "010"%char.
Definition nl : string := String LF "".

(** The double quote and the backslash. *)
Definition DQUOTE : ascii := "034"%char.
Definition BACKSLASH : ascii := "092"%char.
Definition dquote : string := String DQUOTE "".

(** [chars s] is the list of the characters of [s]. *)
Abbreviation chars := list_ascii_of_string.

(** [s.startsWith(p)] *)
Definition startsWith (s p : string) : bool := String.prefix p s.

(** [s.split(sep)] for a separator of one character.  As in JavaScript
    the result is never empty: [''.split(sep)] is [['']]. *)
Fixpoint split (sep : ascii) (s : string) : list string :=
  match s with
  | "" => [""]
  | String c r =>
      if Ascii.eqb c sep then "" :: split sep r
      else match split sep r with
           | h :: t => String c h :: t
           | [] => [String c ""]
           end
  end.

(** White space, restricted to the ASCII range: tab, line feed, vertical
    tab, form feed, carriage return and space. *)
Definition isWhite (c : ascii) : bool := Ascii.is_space c.

(** A string of ASCII characters: for these the white space of [isWhite]
    is all the white space JavaScript knows, and a byte is a character. *)
Definition ascii7 (s : string) : Prop :=
  Forall (fun c => (nat_of_ascii c < 128)%nat) (chars s).

Fixpoint trimStart (s : string) : string :=
  match s with
  | "" => ""
  | String c r => if isWhite c then trimStart r else s
  end.

Definition trimEnd (s : string) : string :=
  String.rev (trimStart (String.rev s)).

(** [s.trim()] *)
Definition trim (s : string) : string := trimEnd (trimStart s).

(** Decimal digits. *)
Definition digit (c : ascii) : option Z :=
  match Ascii.is_nat c with
  | Some d => Some (Z.of_nat d)
  | None => None
  end.

(** The value of the longest prefix of digits of [s], read after the
    digits [acc] already seen; [seen] tells whether there was a digit. *)
Fixpoint digits (s : string) (seen : bool) (acc : Z) : option Z :=
  match s with
  | "" => if seen then Some acc else None
  | String c r =>
      match digit c with
      | Some d => digits r true (10 * acc + d)
      | None => if seen then Some acc else None
      end
  end.

(** [parseInt(s, 10)]: leading white space is skipped, one sign is
    accepted, then the longest run of digits is read and the rest of the
    string is ignored; [None] is [NaN].  The value is the integer the
    digits spell.  The Number that JavaScript makes of it is the double
    nearest to it, [JsNumber.nearest]: the two differ from 2^53 on, where
    the sign, being zero or not, and what [slice] keeps of an array are
    the same for both.  The double shows where the number is printed,
    [JsNumber.toString]. *)
Definition parseInt (s : string) : option Z :=
  match trimStart s with
  | String "-" r => option_map Z.opp (digits r false 0)
  | String "+" r => digits r false 0
  | r => digits r false 0
  end.

End JsString.

(** ** JavaScript numbers

    The script prints one number that is not the length of an array: the
    limit, an integer that [parseInt] read and made a double of. *)

Module JsNumber.

(** The double nearest to an integer [z >= 0], ties going to the even
    significand of 53 bits; [None] is [Infinity]. *)
Definition nearest (z : Z) : option Z :=
  let e := Z.max 0 (Z.log2 z - 52) in
  let q := Z.shiftr z e in
  let r := Z.land z (Z.ones e) in
  let half := Z.shiftl 1 (e - 1) in
  let up := (0 <? e)%Z && ((half <? r)%Z || ((r =? half)%Z && Z.odd q)) in
  let v := Z.shiftl (if up then q + 1 else q)%Z e in
  if (2 ^ 1024 <=? v)%Z then None else Some v.

(** The number of decimal digits of [x > 0]. *)
Definition width (x : Z) : Z := Z.of_nat (String.length (pretty x)).

(** [Number::toString] looks for the shortest decimal [s * 10^(n-k)], [s]
    of [k] digits, whose double is [x], and among those of that length for
    the nearest to [x].  A candidate is kept with its distance to [x]. *)
Record decimal : Type := {
  d_digits : Z;
  d_point : Z;
  d_off : Z
}.

Definition candidates (x k n : Z) : list decimal :=
  if (n <? k)%Z then []
  else
    let t := (10 ^ (n - k))%Z in
    List.filter
      (fun d => (10 ^ (k - 1) <=? d_digits d)%Z && (d_digits d <? 10 ^ k)%Z
                && bool_decide (nearest (d_digits d * t) = Some x))
      [ {| d_digits := x / t; d_point := n; d_off := x - (x / t) * t |};
        {| d_digits := x / t + 1; d_point := n; d_off := (x / t + 1) * t - x |} ]%Z.

Definition closest (ds : list decimal) : option decimal :=
  fold_left (fun best d =>
               match best with
               | Some b => if (d_off d <? d_off b)%Z then Some d else best
               | None => Some d
               end) ds None.

(** The shortest decimal of the double [x > 0]: seventeen digits always
    tell a double from its neighbours. *)
Definition shortest (x : Z) : option decimal :=
  fold_left (fun found k =>
               match found with
               | Some _ => found
               | None => closest (candidates x k (width x) ++ candidates x k (width x + 1))
               end) (map Z.of_nat (seq 1 17)) None.

(** The digits of [s] with a point after the first, as the notation with
    an exponent has them. *)
Definition pointed (s : string) : string :=
  match s with
  | String c "" => s
  | String c r => String c ("." +:+ r)
  | "" => ""
  end.

Definition positive (x : Z) : string :=
  match shortest x with
  | Some d =>
      let s := pretty (d_digits d) in
      let n := d_point d in
      if (n <=? 21)%Z then
        s +:+ String.concat "" (repeat "0" (Z.to_nat (n - width (d_digits d))))
      else pointed s +:+ "e+" +:+ pretty (n - 1)%Z
  | None => pretty x
  end.

(** [String(v)] for the Number that [parseInt] makes of the integer
    [z]. *)
Definition toString (z : Z) : string :=
  if (z =? 0)%Z then "0"
  else
    (if (z <? 0)%Z then "-" else "") +:+
    match nearest (Z.abs z) with
    | Some x => positive x
    | None => "Infinity"
    end.

End JsNumber.

(** ** JavaScript arrays *)

Module JsArray.

(** [a.findIndex(p)]: the first index whose element satisfies [p], or
    [-1]. *)
Fixpoint findIndex {A} (p : A -> bool) (a : list A) : Z :=
  match a with
  | [] => -1
  | x :: r =>
      if p x then 0
      else let i := findIndex p r in if (i =? -1)%Z then -1 else (i + 1)%Z
  end.

(** [a.indexOf(x)] on strings: strict equality. *)
Definition indexOf (a : list string) (x : string) : Z :=
  findIndex (String.eqb x) a.

(** [a[i]] for an index that [findIndex] returned. *)
Definition at_ {A} (a : list A) (i : Z) : option A :=
  if (i <? 0)%Z then None else nth_error a (Z.to_nat i).

(** The clamping of a relative index into [0 .. len], as
    [Array.prototype.slice] does for both of its arguments. *)
Definition clamp (len i : Z) : Z :=
  if (i <? 0)%Z then Z.max (len + i) 0 else Z.min i len.

(** [a.slice(start, end)] *)
Definition slice {A} (a : list A) (start end_ : Z) : list A :=
  let len := Z.of_nat (length a) in
  let k := clamp len start in
  let final := clamp len end_ in
  firstn (Z.to_nat (final - k)) (skipn (Z.to_nat k) a).

(** [a.slice(start)] *)
Definition sliceFrom {A} (a : list A) (start : Z) : list A :=
  slice a start (Z.of_nat (length a)).

End JsArray.

(** ** The script *)

Module Collect.
Import JsString JsArray.

(** *** Values *)

(** A path is a place in the file system: the list of the names that
    lead to it from the root, none of them [.] or [..].  The script holds
    its paths as strings; [locate] is the place a string names for a
    process whose working directory is [pwd], the kernel following the
    names one by one.  (There are no symbolic links.) *)
Abbreviation path := (list string).

(** The names of a path written as a string, the empty ones and [.] left
    out. *)
Definition names (s : string) : list string :=
  List.filter (fun x => negb (String.eqb x "") && negb (String.eqb x ".")) (split "/" s).

(** From a place along names: [..] leads to the directory above, and to
    the root from the root. *)
Definition walk (from : path) (ns : list string) : path :=
  fold_left (fun p n => if String.eqb n ".." then removelast p else p ++ [n]) ns from.

Definition locate (pwd : path) (s : string) : path :=
  walk (if startsWith s "/" then [] else pwd) (names s).

(** [path.join(a, b)] writes [a], a slash and [b] and normalises the
    result, which takes out the [.] and every [..] with the name before
    it: the string names the place reached from the place of [a] along the
    names of [b].  [path.dirname(p)], for a [p] that ends in a name, is
    the directory that holds it. *)
Definition join (a : path) (b : string) : path := walk a (names b).
Definition dirname (p : path) : path := removelast p.

(** The content of a file read as text: a JavaScript string, as the
    sequence of its Unicode scalar values.  The other strings of the
    script (tags, command output, messages) are sequences of bytes. *)
Definition text := list N.

(** What a rejected promise carries. *)
Definition error := string.

Inductive result (A : Type) : Type :=
| Ok (a : A)
| Err (e : error).
Arguments Ok {A} a.
Arguments Err {A} e.

(** The command lines the script gives to [execAsync]: [cmdline] is the
    text that the script builds and that [/bin/sh] reads.  A tag is put
    into the text as it is; in the message of a commit the script puts a
    backslash before every double quote, and [GitCommit] holds the message
    after that. *)
Inductive command : Type :=
| GitTagSorted
| GitLogGrep (pattern : string)
| GitCheckout (ref : string)
| GitStatusPorcelain
| GitAddAll
| GitCommit (quoted : string).

Definition cmdline (c : command) : string :=
  match c with
  | GitTagSorted => "git tag --sort=creatordate"
  | GitLogGrep pattern => "git log --oneline --grep=" +:+ dquote +:+ pattern +:+ dquote
  | GitCheckout ref => "git checkout " +:+ ref
  | GitStatusPorcelain => "git status --porcelain"
  | GitAddAll => "git add ."
  | GitCommit quoted => "git commit -m " +:+ dquote +:+ quoted +:+ dquote
  end.

(** What the script does to the outside, in the order it does it. *)
Inductive event : Type :=
| EvExec (cwd : path) (c : command)
| EvAccess (p : path)
| EvReadFile (p : path)
| EvMkdir (p : path)
| EvWriteFile (p : path) (content : text)
| EvLog (line : string)
| EvError (line : string) (e : option error).

(** *** The platform

    The environment and the working directory of the process, and the
    child processes and the file system, over a state [W] of the outside
    world.  Every operation may fail.  A child process is given the place
    that its [cwd] option names, a call to the file system the place that
    its path names. *)
Class Platform (W : Type) : Type := {
  env : string -> option string;
  pwd : path;
  exec : path -> command -> W -> W * result string;
  fs_access : path -> W -> W * result unit;
  fs_readFile : path -> W -> W * result text;
  fs_mkdir : path -> W -> W * result unit;
  fs_writeFile : path -> text -> W -> W * result unit
}.

(** *** The monad: world, trace, and how a computation ends *)

Inductive outcome (A : Type) : Type :=
| Ret (a : A)
| Throw (e : error)
| Exit (code : Z).
Arguments Ret {A} a.
Arguments Throw {A} e.
Arguments Exit {A} code.

Definition M (W A : Type) : Type := W -> W * list event * outcome A.

Definition ret {W A} (a : A) : M W A := fun w => (w, [], Ret a).

Definition bind {W A B} (m : M W A) (k : A -> M W B) : M W B :=
  fun w =>
    match m w with
    | (w1, t1, Ret a) => let '(w2, t2, o) := k a w1 in (w2, t1 ++ t2, o)
    | (w1, t1, Throw e) => (w1, t1, Throw e)
    | (w1, t1, Exit c) => (w1, t1, Exit c)
    end.

(** [try { m } catch (e) { h e }]: only a thrown error is caught; the
    world keeps what [m] did before it threw. *)
Definition try_ {W A} (m : M W A) (h : error -> M W A) : M W A :=
  fun w =>
    match m w with
    | (w1, t1, Throw e) => let '(w2, t2, o) := h e w1 in (w2, t1 ++ t2, o)
    | r => r
    end.

Notation "x <- m ;; k" := (bind m (fun x => k))
  (at level 100, m at next level, right associativity).
Notation "m ;;; k" := (bind m (fun _ => k))
  (at level 100, right associativity).

Definition world_of {W A} (r : W * list event * outcome A) : W := fst (fst r).
Definition trace_of {W A} (r : W * list event * outcome A) : list event := snd (fst r).
Definition outcome_of {W A} (r : W * list event * outcome A) : outcome A := snd r.

(** The messages the script commits with (lines 108-118 of
    [collect.ts]): [forEach] appends one bullet per label. *)
Definition bullets (names : list string) (message : string) : string :=
  fold_left (fun message name => message +:+ "- " +:+ name +:+ nl) names message.

Definition commitMessage (tag : string) (extracted missing : list string) : string :=
  let message := "Add metadata for " +:+ tag +:+ nl +:+ nl +:+ "Extracted:" +:+ nl in
  let message := bullets extracted message in
  if (0 <? length missing)%nat then
    let message := message +:+ nl +:+ "Missing:" +:+ nl in
    bullets missing message
  else message.

(** [message.replace(/"/g, '\\"')] *)
Fixpoint escapeQuotes (s : string) : string :=
  match s with
  | "" => ""
  | String c r =>
      if Ascii.eqb c DQUOTE then String BACKSLASH (String DQUOTE (escapeQuotes r))
      else String c (escapeQuotes r)
  end.

(** *** Configuration *)

Record SourceFile : Type := {
  sourcePath : string;
  targetPath : string;
  name : string
}.

Definition SOURCE_FILES : list SourceFile := [
  {| sourcePath := "packages/core/src/core/prompts.ts";
     targetPath := "prompts/prompts.ts";
     name := "Core prompts" |};
  {| sourcePath := "packages/core/src/tools/tool-registry.ts";
     targetPath := "tools/tool-registry.ts";
     name := "Tool registry" |}
].

(** [process.env.X || fallback] *)
Definition orDefault (v : option string) (fallback : string) : string :=
  match v with
  | Some s => if String.eqb s "" then fallback else s
  | None => fallback
  end.

(** [process.argv[i].split('=')[1]] for the first argument that starts
    with [flag], and [None] (the source's [null]) without one. *)
Definition argValue (argv : list string) (flag : string) : option string :=
  let i := findIndex (fun arg => startsWith arg flag) argv in
  if negb (i =? -1)%Z then
    match at_ argv i with
    | Some arg => nth_error (split "="%char arg) 1
    | None => None
    end
  else None.

Definition startFromVersion (argv : list string) : option string :=
  argValue argv "--start-from=".

(** [None] is both [null] and a [parseInt] that gave [NaN]: the script
    only tests the limit for truthiness. *)
Definition limit (argv : list string) : option Z :=
  match argValue argv "--limit=" with
  | Some s => parseInt s
  | None => None
  end.

(** Truthiness of a string and of a number. *)
Definition truthyString (v : option string) : bool :=
  match v with
  | Some s => negb (String.eqb s "")
  | None => false
  end.

Definition truthyNumber (v : option Z) : bool :=
  match v with
  | Some n => negb (n =? 0)%Z
  | None => false
  end.

Section Program.
Context {W : Type} `{Platform W}.

Definition GEMINI_REPO_PATH : path :=
  locate pwd (orDefault (env "GEMINI_REPO_PATH") "/Users/pavel/src/gemini-cli").
Definition COLLECTION_REPO_PATH : path :=
  locate pwd (orDefault (env "COLLECTION_REPO_PATH") "/Users/pavel/src/gemini-prompts").

(** The effects, each leaving its event in the trace. *)
Definition lift {A} (ev : event) (op : W -> W * result A) : M W A :=
  fun w =>
    match op w with
    | (w', Ok a) => (w', [ev], Ret a)
    | (w', Err e) => (w', [ev], Throw e)
    end.

Definition execAsync (c : command) (cwd : path) : M W string :=
  lift (EvExec cwd c) (exec cwd c).
Definition access (p : path) : M W unit := lift (EvAccess p) (fs_access p).
Definition readFile (p : path) : M W text := lift (EvReadFile p) (fs_readFile p).
Definition mkdir (p : path) : M W unit := lift (EvMkdir p) (fs_mkdir p).
Definition writeFile (p : path) (content : text) : M W unit :=
  lift (EvWriteFile p content) (fs_writeFile p content).

Definition console_log (line : string) : M W unit :=
  fun w => (w, [EvLog line], Ret tt).
Definition console_error (line : string) (e : option error) : M W unit :=
  fun w => (w, [EvError line e], Ret tt).
Definition process_exit {A} (code : Z) : M W A :=
  fun w => (w, [], Exit code).

(** [getAllTags], lines 30-39. *)
Definition getAllTags : M W (list string) :=
  stdout <- execAsync GitTagSorted GEMINI_REPO_PATH ;;
  ret (List.filter (fun tag => startsWith tag "v0.") (split LF (trim stdout))).

(** [isVersionProcessed], lines 41-51. *)
Definition isVersionProcessed (version : string) : M W bool :=
  try_
    (stdout <- execAsync (GitLogGrep ("Add metadata for " +:+ version +:+ "$"))
                 COLLECTION_REPO_PATH ;;
     ret (0 <? String.length (trim stdout))%nat)
    (fun _ => ret false).

(** [checkoutTag], lines 53-57, and [returnToMain], lines 59-63. *)
Definition checkoutTag (tag : string) : M W unit :=
  execAsync (GitCheckout tag) GEMINI_REPO_PATH ;;; ret tt.

Definition returnToMain : M W unit :=
  execAsync (GitCheckout "main") GEMINI_REPO_PATH ;;; ret tt.

(** One turn of the loop of [extractSources], lines 70-84; [acc] holds
    the two arrays [extracted] and [missing]. *)
Definition extractFile (file : SourceFile) (acc : list string * list string)
  : M W (list string * list string) :=
  let source := join GEMINI_REPO_PATH (sourcePath file) in
  let target := join COLLECTION_REPO_PATH (targetPath file) in
  try_
    (access source ;;;
     content <- readFile source ;;
     mkdir (dirname target) ;;;
     writeFile target content ;;;
     ret (fst acc ++ [name file], snd acc))
    (fun _ => ret (fst acc, snd acc ++ [name file])).

Fixpoint extractFiles (files : list SourceFile) (acc : list string * list string)
  : M W (list string * list string) :=
  match files with
  | [] => ret acc
  | file :: rest => acc' <- extractFile file acc ;; extractFiles rest acc'
  end.

(** [extractSources], lines 65-88. *)
Definition extractSources : M W (list string * list string) :=
  extractFiles SOURCE_FILES ([], []).

(** [commitChanges], lines 90-129. *)
Definition commitChanges (tag : string) (extracted missing : list string) : M W unit :=
  try_
    (statusOutput <- execAsync GitStatusPorcelain COLLECTION_REPO_PATH ;;
     if String.eqb (trim statusOutput) "" then
       console_log "  No changes to commit"
     else
       execAsync GitAddAll COLLECTION_REPO_PATH ;;;
       let message := commitMessage tag extracted missing in
       execAsync (GitCommit (escapeQuotes message)) COLLECTION_REPO_PATH ;;;
       console_log "  ✓ Committed changes")
    (fun e => console_error "  ✗ Failed to commit:" (Some e)).

Definition when (b : bool) (m : M W unit) : M W unit :=
  if b then m else ret tt.

(** The body of the loop over the tags, lines 169-200, for the tag at
    index [i] of [n]. *)
Definition processTag (n i : nat) (tag : string) : M W unit :=
  console_log ("[" +:+ pretty (i + 1)%nat +:+ "/" +:+ pretty n +:+ "] Processing "
               +:+ tag +:+ "...") ;;;
  alreadyProcessed <- isVersionProcessed tag ;;
  if alreadyProcessed then
    console_log ("  ⊘ Skipping (already processed)" +:+ nl)
  else
    try_
      (checkoutTag tag ;;;
       r <- extractSources ;;
       let extracted := fst r in
       let missing := snd r in
       when (0 <? length extracted)%nat
         (console_log ("  ✓ Extracted: " +:+ String.concat ", " extracted)) ;;;
       when (0 <? length missing)%nat
         (console_log ("  ⚠ Missing: " +:+ String.concat ", " missing)) ;;;
       commitChanges tag extracted missing ;;;
       console_log "")
      (fun e =>
         console_error ("  ✗ Error processing " +:+ tag +:+ ":") (Some e) ;;;
         console_log "").

(** [for (let i = 0; i < tags.length; i++)], lines 168-201, from index
    [i] on; [n] is [tags.length]. *)
Fixpoint forTags (n i : nat) (tags : list string) : M W unit :=
  match tags with
  | [] => ret tt
  | tag :: rest => processTag n i tag ;;; forTags n (S i) rest
  end.

(** The two options, lines 149-165: the tags the loop runs over, or
    the exit of the process. *)
Definition startFrom (v : option string) (allTags : list string) : M W (list string) :=
  if truthyString v then
    let v := default "" v in
    let startIndex := indexOf allTags v in
    (if (startIndex =? -1)%Z then
       console_error ("❌ Version " +:+ v +:+ " not found") None ;;;
       process_exit 1
     else ret tt) ;;;
    let tags := sliceFrom allTags startIndex in
    console_log ("Starting from " +:+ v +:+ " (" +:+ pretty (length tags)
                 +:+ " tags to process)" +:+ nl) ;;;
    ret tags
  else ret allTags.

Definition limitTo (l : option Z) (tags : list string) : M W (list string) :=
  if truthyNumber l then
    let l := default 0%Z l in
    let tags := slice tags 0 l in
    console_log ("Limiting to first " +:+ JsNumber.toString l +:+ " tags" +:+ nl) ;;;
    ret tags
  else ret tags.

(** [main], lines 131-207. *)
Definition main (argv : list string) : M W unit :=
  console_log ("🔍 Collecting Gemini CLI prompts..." +:+ nl) ;;;
  let startFromVersion := startFromVersion argv in
  let limit := limit argv in
  allTags <- getAllTags ;;
  console_log ("Found " +:+ pretty (length allTags) +:+ " v0.* tags" +:+ nl) ;;;
  tags <- startFrom startFromVersion allTags ;;
  tags <- limitTo limit tags ;;
  forTags (length tags) 0 tags ;;;
  returnToMain ;;;
  console_log "✅ Collection complete!".

(** The script: [main().catch(...)], lines 209-212. *)
Definition script (argv : list string) : M W unit :=
  try_ (main argv)
    (fun e => console_error "Fatal error:" (Some e) ;;; process_exit 1).


End Program.

End Collect.

(** ** UTF-8

    [fs.readFile(p, 'utf-8')] decodes the bytes of the file into a string
    and [fs.writeFile(p, s, 'utf-8')] encodes the string into bytes.  The
    decoder is the one of the Encoding Standard: a sequence of bytes that
    is not well formed decodes to U+FFFD, the replacement character. *)

Module Utf8.
Import Collect.

Abbreviation byte := Byte.byte.

Definition REPLACEMENT : N := 0xFFFD.

(** The byte with a given value. *)
Definition byteOf (n : N) : byte :=
  match Byte.of_N n with
  | Some b => b
  | None => Byte.x00
  end.

Definition inRange (lo hi n : N) : bool := (lo <=? n)%N && (n <=? hi)%N.

(** The state of the decoder: the code point read so far, the number of
    continuation bytes it still needs, and the bounds for the next one. *)
Record state : Type := {
  codePoint : N;
  needed : nat;
  lower : N;
  upper : N
}.

Definition start : state :=
  {| codePoint := 0; needed := 0; lower := 0x80; upper := 0xBF |}.

(** A byte read while no sequence is open. *)
Definition lead (b : N) : list N * state :=
  if inRange 0x00 0x7F b then ([b], start)
  else if inRange 0xC2 0xDF b then
    ([], {| codePoint := N.land b 0x1F; needed := 1; lower := 0x80; upper := 0xBF |})
  else if inRange 0xE0 0xEF b then
    ([], {| codePoint := N.land b 0xF; needed := 2;
            lower := if (b =? 0xE0)%N then 0xA0 else 0x80;
            upper := if (b =? 0xED)%N then 0x9F else 0xBF |})
  else if inRange 0xF0 0xF4 b then
    ([], {| codePoint := N.land b 0x7; needed := 3;
            lower := if (b =? 0xF0)%N then 0x90 else 0x80;
            upper := if (b =? 0xF4)%N then 0x8F else 0xBF |})
  else ([REPLACEMENT], start).

(** One byte: what it adds to the output and the next state.  A byte out
    of the bounds closes the open sequence with a replacement character and
    is read again as a first byte. *)
Definition step (s : state) (b : N) : list N * state :=
  match needed s with
  | O => lead b
  | S k =>
      if inRange (lower s) (upper s) b then
        let c := N.lor (N.shiftl (codePoint s) 6) (N.land b 0x3F) in
        match k with
        | O => ([c], start)
        | S _ => ([], {| codePoint := c; needed := k; lower := 0x80; upper := 0xBF |})
        end
      else
        let (out, s') := lead b in (REPLACEMENT :: out, s')
  end.

Fixpoint decodeFrom (s : state) (bs : list byte) : text :=
  match bs with
  | [] => match needed s with O => [] | S _ => [REPLACEMENT] end
  | b :: rest => let (out, s') := step s (Byte.to_N b) in out ++ decodeFrom s' rest
  end.

Definition decode (bs : list byte) : text := decodeFrom start bs.

(** The bytes of one scalar value; a lone surrogate, which no decoded text
    holds, is written as the replacement character. *)
Definition encodeChar (c : N) : list byte :=
  if (c <? 0x80)%N then [byteOf c]
  else if (c <? 0x800)%N then
    [byteOf (N.lor 0xC0 (N.shiftr c 6)); byteOf (N.lor 0x80 (N.land c 0x3F))]
  else if (c <? 0x10000)%N then
    if inRange 0xD800 0xDFFF c then [Byte.xef; Byte.xbf; Byte.xbd]
    else [byteOf (N.lor 0xE0 (N.shiftr c 12));
          byteOf (N.lor 0x80 (N.land (N.shiftr c 6) 0x3F));
          byteOf (N.lor 0x80 (N.land c 0x3F))]
  else
    [byteOf (N.lor 0xF0 (N.shiftr c 18));
     byteOf (N.lor 0x80 (N.land (N.shiftr c 12) 0x3F));
     byteOf (N.lor 0x80 (N.land (N.shiftr c 6) 0x3F));
     byteOf (N.lor 0x80 (N.land c 0x3F))].

Definition encode (t : text) : list byte := flat_map encodeChar t.

(** What a file holds after it was read as UTF-8 and written back. *)
Definition recode (bs : list byte) : list byte := encode (decode bs).

(** Well-formed UTF-8 (the Unicode Standard, table 3-7). *)
Definition continuation (n : N) : bool := inRange 0x80 0xBF n.

Fixpoint wellFormed (bs : list byte) : bool :=
  match bs with
  | [] => true
  | b0 :: r0 =>
      let n0 := Byte.to_N b0 in
      if inRange 0x00 0x7F n0 then wellFormed r0 else
      match r0 with
      | [] => false
      | b1 :: r1 =>
          let n1 := Byte.to_N b1 in
          if inRange 0xC2 0xDF n0 then continuation n1 && wellFormed r1 else
          match r1 with
          | [] => false
          | b2 :: r2 =>
              let n2 := Byte.to_N b2 in
              if inRange 0xE0 0xEF n0 then
                inRange (if (n0 =? 0xE0)%N then 0xA0 else 0x80)
                        (if (n0 =? 0xED)%N then 0x9F else 0xBF) n1
                && continuation n2 && wellFormed r2
              else
              match r2 with
              | [] => false
              | b3 :: r3 =>
                  let n3 := Byte.to_N b3 in
                  inRange 0xF0 0xF4 n0
                  && inRange (if (n0 =? 0xF0)%N then 0x90 else 0x80)
                             (if (n0 =? 0xF4)%N then 0x8F else 0xBF) n1
                  && continuation n2 && continuation n3 && wellFormed r3
              end
          end
      end
  end.

End Utf8.
(** ** The shell

    [execAsync] hands a command line to [/bin/sh -c].  The shell cuts the
    line into words at the blanks and takes the quoting off: between
    double quotes a backslash keeps its meaning before a dollar, a
    backquote, a double quote and a backslash only, and a dollar right
    before the closing quote stands for itself; between single quotes
    every character stands for itself; outside quotes a backslash makes
    the next character stand for itself.  This much is modelled.  A line
    that asks for more (a parameter or a command to be expanded, an
    operator, a pattern, a comment, a line feed outside quotes) is
    [Beyond] the model, and so is a line with a character outside quotes
    that is not plainly a part of a word. *)

Module Shell.
Import JsString.

Definition QUOTE : ascii := "039"%char.
Definition DOLLAR : ascii := "036"%char.
Definition BACKQUOTE : ascii := "096"%char.
Definition NUL : ascii := "000"%char.
Definition SPACE : ascii := "032"%char.
Definition TAB : ascii := "009"%char.

Inductive mode : Type :=
| Bare      (* outside quotes *)
| Double    (* between double quotes *)
| Single.   (* between single quotes *)

Inductive parsed : Type :=
| Words (ws : list string)   (* one command, by its words *)
| Unterminated               (* a quote is not closed: the shell reports a syntax error *)
| Beyond.                    (* the line asks for more than the model reads *)

Definition blank (c : ascii) : bool := Ascii.eqb c SPACE || Ascii.eqb c TAB.

Definition between (lo hi c : ascii) : bool :=
  (nat_of_ascii lo <=? nat_of_ascii c)%nat && (nat_of_ascii c <=? nat_of_ascii hi)%nat.

(** The characters that are part of a word wherever they stand outside
    quotes: letters, digits and [% + , - . / : = @ _]. *)
Definition bare (c : ascii) : bool :=
  between "a" "z" c || between "A" "Z" c || between "0" "9" c
  || existsb (Ascii.eqb c) (chars "%+,-./:=@_").

(** The characters that keep their meaning after a backslash between
    double quotes. *)
Definition escapable (c : ascii) : bool :=
  Ascii.eqb c DOLLAR || Ascii.eqb c BACKQUOTE || Ascii.eqb c DQUOTE || Ascii.eqb c BACKSLASH.

(** The word being read, if one is open, and the words read before it,
    the last one first. *)
Definition grow (cur : option string) (c : ascii) : option string :=
  Some (default "" cur +:+ String c "").

Definition opened (cur : option string) : option string := Some (default "" cur).

Definition close (cur : option string) (done : list string) : list string :=
  match cur with
  | Some w => w :: done
  | None => done
  end.

Fixpoint lex (m : mode) (done : list string) (cur : option string) (s : string) : parsed :=
  match s with
  | "" =>
      match m with
      | Bare => Words (rev (close cur done))
      | Double | Single => Unterminated
      end
  | String c r =>
      match m with
      | Bare =>
          if blank c then lex Bare (close cur done) None r
          else if Ascii.eqb c DQUOTE then lex Double done (opened cur) r
          else if Ascii.eqb c QUOTE then lex Single done (opened cur) r
          else if Ascii.eqb c BACKSLASH then
            match r with
            | String d r' =>
                if Ascii.eqb d LF || Ascii.eqb d NUL then Beyond
                else lex Bare done (grow cur d) r'
            | "" => Beyond
            end
          else if bare c then lex Bare done (grow cur c) r
          else Beyond
      | Double =>
          if Ascii.eqb c DQUOTE then lex Bare done cur r
          else if Ascii.eqb c BACKSLASH then
            match r with
            | String d r' =>
                if escapable d then lex Double done (grow cur d) r'
                else if Ascii.eqb d LF then lex Double done cur r'
                else lex Double done (grow cur c) r
            | "" => Unterminated
            end
          else if Ascii.eqb c DOLLAR then
            match r with
            | String d _ => if Ascii.eqb d DQUOTE then lex Double done (grow cur c) r else Beyond
            | "" => Unterminated
            end
          else if Ascii.eqb c BACKQUOTE || Ascii.eqb c NUL then Beyond
          else lex Double done (grow cur c) r
      | Single =>
          if Ascii.eqb c QUOTE then lex Bare done cur r
          else if Ascii.eqb c NUL then Beyond
          else lex Single done (grow cur c) r
      end
  end.

(** What [/bin/sh -c line] makes of the line. *)
Definition sh (line : string) : parsed := lex Bare [] None line.

(** A character that stands for itself between double quotes. *)
Definition quotable (c : ascii) : bool :=
  negb (escapable c || Ascii.eqb c NUL).

End Shell.

(** ** A platform in memory

    A file system and the git repositories that live in it.  A repository
    is its tags, its branches and the commits behind [HEAD]; its working
    tree is the part of the file system under its root.  The index is not
    kept apart: [git add .] stages the whole working tree and the
    [git commit] after it records what was staged. *)

Module Sim.
Import JsString JsArray Collect Utf8 Shell.

Global Instance byte_eq_dec : EqDecision byte := Byte.byte_eq_dec.

(** *** The file system *)

Inductive node : Type :=
| File (content : list byte)
| Dir.

Global Instance node_eq_dec : EqDecision node.
Proof. solve_decision. Defined.

Definition isFile (n : option node) : bool :=
  match n with Some (File _) => true | _ => false end.

Definition isDir (n : option node) : bool :=
  match n with Some Dir => true | _ => false end.

(** The path itself and the directories above it, the root apart. *)
Definition ancestors (p : path) : list path :=
  map (fun n => firstn n p) (seq 1 (length p)).

(** *** Repositories *)

(** The files of a commit, by their path from the root of the repository. *)
Abbreviation tree := (gmap path (list byte)).

Record commit : Type := {
  c_hash : N;
  c_message : string;
  c_tree : tree
}.

(** The commits reachable from a reference, the newest first. *)
Abbreviation history := (list commit).

Record repo : Type := {
  r_tags : list (string * history);      (* in the order of their creation *)
  r_branches : list (string * history);
  r_head : history;
  r_branch : option string;              (* [None]: the head is detached *)
  r_identity : bool                      (* [user.name] and [user.email] are set *)
}.

Record world : Type := {
  w_fs : gmap path node;
  w_repos : gmap path repo
}.

Definition headTree (h : history) : tree :=
  match h with
  | c :: _ => c_tree c
  | [] => ∅
  end.

Fixpoint stripPrefix (root p : path) : option path :=
  match root with
  | [] => Some p
  | r :: root' =>
      match p with
      | [] => None
      | s :: p' => if String.eqb r s then stripPrefix root' p' else None
      end
  end.

(** The files under [root], by their path from [root]. *)
Definition worktree (root : path) (fs : gmap path node) : tree :=
  list_to_map
    (omap (fun e : path * node =>
             match snd e with
             | File content =>
                 match stripPrefix root (fst e) with
                 | Some rel => Some (rel, content)
                 | None => None
                 end
             | Dir => None
             end)
          (map_to_list fs)).

(** The paths at which two trees differ. *)
Definition changedPaths (a b : tree) : list path :=
  List.filter (fun p => bool_decide (a !! p <> b !! p)) (elements (dom a ∪ dom b)).

(** [git status --porcelain]: one line per path that differs between the
    working tree and the head.  (Git names a directory that is new as a
    whole on one line; the script only asks whether there is a line.) *)
Definition statusLine (wt hd : tree) (p : path) : string :=
  match hd !! p, wt !! p with
  | None, _ => "??"
  | Some _, None => " D"
  | Some _, Some _ => " M"
  end +:+ " " +:+ String.concat "/" p +:+ nl.

Definition statusOutput (wt hd : tree) : string :=
  String.concat "" (map (statusLine wt hd) (changedPaths wt hd)).

(** The references. *)
Definition lookupRef (ref : string) (refs : list (string * history)) : option history :=
  match List.find (fun e => String.eqb (fst e) ref) refs with
  | Some e => Some (snd e)
  | None => None
  end.

Definition resolve (ref : string) (r : repo) : option (history * option string) :=
  match lookupRef ref (r_branches r) with
  | Some h => Some (h, Some ref)
  | None =>
      match lookupRef ref (r_tags r) with
      | Some h => Some (h, None)
      | None => None
      end
  end.

(** [git checkout ref]: refused when a path that differs between the head
    and the target was changed in the working tree; otherwise those paths
    get the content they have in the target. *)
Definition applyTree (root : path) (target : tree) (paths : list path)
           (fs : gmap path node) : gmap path node :=
  fold_left (fun fs p =>
               match target !! p with
               | Some content => <[root ++ p := File content]> fs
               | None => delete (root ++ p) fs
               end) paths fs.

Definition gitCheckout (root : path) (ref : string) (r : repo) (fs : gmap path node)
  : result (gmap path node * repo) :=
  match resolve ref r with
  | None => Err ("error: pathspec '" +:+ ref +:+ "' did not match any file(s) known to git")
  | Some (h, branch) =>
      let hd := headTree (r_head r) in
      let target := headTree h in
      let wt := worktree root fs in
      let diff := changedPaths hd target in
      if existsb (fun p => bool_decide (wt !! p <> hd !! p)) diff then
        Err "error: Your local changes would be overwritten by checkout"
      else
        Ok (applyTree root target diff fs,
            {| r_tags := r_tags r; r_branches := r_branches r;
               r_head := h; r_branch := branch; r_identity := r_identity r |})
  end.

(** [git commit -m message] *)
Definition setBranch (branch : option string) (h : history)
           (branches : list (string * history)) : list (string * history) :=
  match branch with
  | Some b => map (fun e => if String.eqb (fst e) b then (b, h) else e) branches
  | None => branches
  end.

Definition gitCommit (root : path) (message : string) (r : repo) (fs : gmap path node)
  : result repo :=
  if negb (r_identity r) then Err "fatal: unable to auto-detect email address"
  else
    let wt := worktree root fs in
    if bool_decide (wt = headTree (r_head r)) then
      Err "nothing to commit, working tree clean"
    else
      let c := {| c_hash := N.of_nat (length (r_head r));
                  c_message := message; c_tree := wt |} in
      Ok {| r_tags := r_tags r;
            r_branches := setBranch (r_branch r) (c :: r_head r) (r_branches r);
            r_head := c :: r_head r;
            r_branch := r_branch r; r_identity := r_identity r |}.

(** [git log --oneline --grep=pattern].  The pattern is a basic regular
    expression; of its operators the model has the dot, which stands for
    any character, and the dollar that ends the pattern, which stands for
    the end of the line.  Every other character stands for itself: a
    pattern with a star, an opening bracket, a backslash or a caret is
    not [readable] and is left to what lies beyond the model. *)
Fixpoint matchHere (pattern line : string) : bool :=
  match pattern with
  | "" => true
  | String c p =>
      if Ascii.eqb c "$"%char && String.eqb p "" then String.eqb line ""
      else
        match line with
        | "" => false
        | String d line' => (Ascii.eqb c "."%char || Ascii.eqb c d) && matchHere p line'
        end
  end.

Fixpoint grepLine (pattern line : string) : bool :=
  matchHere pattern line
  || match line with
     | "" => false
     | String _ line' => grepLine pattern line'
     end.

Definition grepCommit (pattern : string) (c : commit) : bool :=
  existsb (grepLine pattern) (split LF (c_message c)).

Definition hexDigit (n : N) : ascii :=
  match String.get (N.to_nat (n mod 16)) "0123456789abcdef" with
  | Some c => c
  | None => "0"%char
  end.

(** The abbreviated hash: seven hexadecimal digits. *)
Definition abbrev (h : N) : string :=
  fold_left (fun s i => String (hexDigit (h / 16 ^ i)) s) [0; 1; 2; 3; 4; 5; 6]%N "".

Definition subject (c : commit) : string :=
  match split LF (c_message c) with
  | l :: _ => l
  | [] => ""
  end.

Definition oneline (c : commit) : string :=
  abbrev (c_hash c) +:+ " " +:+ subject c +:+ nl.

Definition gitLog (pattern : string) (r : repo) : result string :=
  match r_head r with
  | [] => Err "fatal: your current branch does not have any commits yet"
  | _ :: _ =>
      Ok (String.concat "" (map oneline (List.filter (grepCommit pattern) (r_head r))))
  end.

(** *** The processes *)

(** What the script asks of git, once the shell has cut the line. *)
Inductive request : Type :=
| ListTags
| Log (pattern : string)
| Checkout (ref : string)
| Status
| StageAll
| Commit (message : string).

(** [suffixAfter p s]: what follows the prefix [p] in [s]. *)
Fixpoint suffixAfter (p s : string) : option string :=
  match p with
  | "" => Some s
  | String c p' =>
      match s with
      | String d s' => if Ascii.eqb c d then suffixAfter p' s' else None
      | "" => None
      end
  end.

(** A pattern in which every character but the dot and a dollar at the
    end stands for itself. *)
Definition readable (pattern : string) : bool :=
  forallb (fun c => negb (existsb (Ascii.eqb c) [ "*"; "["; BACKSLASH; "^"; LF; NUL ]%char))
          (chars pattern).

(** A word that [git checkout] takes for the name of a reference: it is
    not empty and is not an option. *)
Definition named (ref : string) : bool :=
  match ref with
  | "" => false
  | String c _ => negb (Ascii.eqb c "-")
  end.

(** A message that [git commit -m] records as it is given.  Git takes
    the white space off the end of every line and the empty lines off the
    two ends of the message, and makes one empty line of several; it
    leaves alone a message that ends with a line feed and has no white
    space at the end of a line, no empty first or last line, and no two
    empty lines in a row. *)
Definition endsSolid (l : string) : bool :=
  match rev (chars l) with
  | c :: _ => negb (isWhite c)
  | [] => true
  end.

Fixpoint tidyFrom (prev : string) (ls : list string) : bool :=
  match ls with
  | [] => false
  | l :: rest =>
      match rest with
      | [] => String.eqb l "" && negb (String.eqb prev "")
      | _ :: _ =>
          endsSolid l && negb (String.eqb prev "" && String.eqb l "") && tidyFrom l rest
      end
  end.

Definition tidy (message : string) : bool :=
  match split LF message with
  | first :: rest => negb (String.eqb first "") && endsSolid first && tidyFrom first rest
  | [] => false
  end.

(** A tag that the ledger query takes as it stands: it holds no
    character that the shell reads between double quotes (a double
    quote, a dollar, a backquote, a backslash) or that is an operator of
    the pattern, and no line feed. *)
Definition literal (tag : string) : bool :=
  forallb quotable (chars tag) && readable tag.

(** A tag that every command line of the script takes as it stands: a
    name made of characters that are part of a word outside quotes. *)
Definition plain (tag : string) : bool :=
  named tag && forallb bare (chars tag).

Definition request_of (ws : list string) : option request :=
  match ws with
  | [git; sub; a] =>
      if negb (String.eqb git "git") then None
      else if String.eqb sub "tag" && String.eqb a "--sort=creatordate" then Some ListTags
      else if String.eqb sub "checkout" && named a then Some (Checkout a)
      else if String.eqb sub "status" && String.eqb a "--porcelain" then Some Status
      else if String.eqb sub "add" && String.eqb a "." then Some StageAll
      else None
  | [git; sub; a; b] =>
      if negb (String.eqb git "git") then None
      else if String.eqb sub "log" && String.eqb a "--oneline" then
        match suffixAfter "--grep=" b with
        | Some pattern => if readable pattern then Some (Log pattern) else None
        | None => None
        end
      else if String.eqb sub "commit" && String.eqb a "-m" && tidy b then Some (Commit b)
      else None
  | _ => None
  end.

Definition setRepo (root : path) (r : repo) (fs : gmap path node) (w : world) : world :=
  {| w_fs := fs; w_repos := <[root := r]> (w_repos w) |}.

(** Git, run in [cwd]. *)
Definition run (cwd : path) (q : request) (w : world) : world * result string :=
  match w_repos w !! cwd with
  | None => (w, Err "fatal: not a git repository (or any of the parent directories): .git")
  | Some r =>
      match q with
      | ListTags =>
          (w, Ok (String.concat "" (map (fun t => fst t +:+ nl) (r_tags r))))
      | Log pattern => (w, gitLog pattern r)
      | Checkout ref =>
          match gitCheckout cwd ref r (w_fs w) with
          | Ok (fs', r') => (setRepo cwd r' fs' w, Ok "")
          | Err e => (w, Err e)
          end
      | Status =>
          (w, Ok (statusOutput (worktree cwd (w_fs w)) (headTree (r_head r))))
      | StageAll => (w, Ok "")
      | Commit message =>
          match gitCommit cwd message r (w_fs w) with
          | Ok r' => (setRepo cwd r' (w_fs w) w, Ok "")
          | Err e => (w, Err e)
          end
      end
  end.

(** The surroundings of the process: the variables of its environment,
    its working directory, and what a command line beyond the model does.
    That is not computed but given, and every theorem holds whatever is
    given.  Two things are taken for granted of such a line: when it starts
    as a query ([git log]) it changes nothing and its answer depends,
    besides the line, on the repository alone; otherwise it acts on the
    files and on the repository it is run in, and on no other repository.
    (A tag that makes the shell run a command of its own can do more; the
    model does not follow it there.) *)
Record setting : Type := {
  variables : string -> option string;
  directory : path;
  reads : string -> option repo -> result string;
  acts : string -> option repo -> gmap path node
         -> option repo * gmap path node * result string
}.

Definition isQuery (line : string) : bool := startsWith line "git log ".

Definition unread (e : setting) (cwd : path) (line : string) (w : world)
  : world * result string :=
  if isQuery line then (w, reads e line (w_repos w !! cwd))
  else
    let '(r', fs', out) := acts e line (w_repos w !! cwd) (w_fs w) in
    ({| w_fs := fs'; w_repos := partial_alter (fun _ => r') cwd (w_repos w) |}, out).

(** [/bin/sh -c line], run in [cwd]. *)
Definition shell (e : setting) (cwd : path) (line : string) (w : world)
  : world * result string :=
  match sh line with
  | Words ws =>
      match request_of ws with
      | Some q => run cwd q w
      | None => unread e cwd line w
      end
  | Unterminated => (w, Err "/bin/sh: 1: Syntax error: Unterminated quoted string")
  | Beyond => unread e cwd line w
  end.

Definition simExec (e : setting) (cwd : path) (c : command) (w : world)
  : world * result string :=
  shell e cwd (cmdline c) w.

(** *** The file system calls *)

Definition simAccess (p : path) (w : world) : world * result unit :=
  match p with
  | [] => (w, Ok tt)
  | _ :: _ =>
      match w_fs w !! p with
      | Some _ => (w, Ok tt)
      | None => (w, Err "ENOENT: no such file or directory, access")
      end
  end.

Definition simReadFile (p : path) (w : world) : world * result text :=
  match w_fs w !! p with
  | Some (File content) => (w, Ok (decode content))
  | Some Dir => (w, Err "EISDIR: illegal operation on a directory, read")
  | None =>
      match p with
      | [] => (w, Err "EISDIR: illegal operation on a directory, read")
      | _ :: _ => (w, Err "ENOENT: no such file or directory, open")
      end
  end.

(** [fs.mkdir(p, { recursive: true })] *)
Definition simMkdir (p : path) (w : world) : world * result unit :=
  if existsb (fun q => isFile (w_fs w !! q)) (ancestors p) then
    (w, Err "EEXIST: file already exists, mkdir")
  else
    ({| w_fs := fold_left (fun fs q => <[q := Dir]> fs) (ancestors p) (w_fs w);
        w_repos := w_repos w |}, Ok tt).

Definition parentIsDir (p : path) (fs : gmap path node) : bool :=
  match dirname p with
  | [] => true
  | d => isDir (fs !! d)
  end.

Definition simWriteFile (p : path) (content : text) (w : world) : world * result unit :=
  match p with
  | [] => (w, Err "EISDIR: illegal operation on a directory, open")
  | _ :: _ =>
      if isDir (w_fs w !! p) then
        (w, Err "EISDIR: illegal operation on a directory, open")
      else if parentIsDir p (w_fs w) then
        ({| w_fs := <[p := File (encode content)]> (w_fs w); w_repos := w_repos w |}, Ok tt)
      else (w, Err "ENOENT: no such file or directory, open")
  end.

(** The platform, for given surroundings of the process. *)
Definition platform (environment : setting) : Platform world := {|
  env := variables environment;
  pwd := directory environment;
  exec := simExec environment;
  fs_access := simAccess;
  fs_readFile := simReadFile;
  fs_mkdir := simMkdir;
  fs_writeFile := simWriteFile
|}.

End Sim.

(** ** Closed goals

    [absent] proves that a character is not among those of a literal
    string, or a string not among those of a literal list. *)
Ltac absent :=
  let Hin := fresh "Hin" in
  vm_compute; intros Hin;
  repeat (destruct Hin as [Hin|Hin]; [discriminate Hin|]); exact Hin.

(** [differ] proves that two closed terms of a type with a decidable
    equality are not equal. *)
Ltac differ :=
  match goal with
  | |- ?a <> ?b => apply (bool_decide_eq_false_1 (a = b)); vm_compute; reflexivity
  end.

(** [same] proves that two closed terms of such a type are equal, without
    writing out what they are. *)
Ltac same :=
  match goal with
  | |- ?a = ?b => apply (bool_decide_eq_true_1 (a = b)); vm_compute; reflexivity
  end.


(** ** Facts about the JavaScript primitives *)

Module JsStringFacts.
Import JsString.

Lemma app_cons (a : ascii) (s t : string) :
  String a s +:+ t = String a (s +:+ t).
Proof. reflexivity. Qed.

Lemma app_empty_l (s : string) : "" +:+ s = s.
Proof. reflexivity. Qed.

Lemma app_empty_r (s : string) : s +:+ "" = s.
Proof. induction s as [|a s IH]; [reflexivity|]. rewrite app_cons, IH. reflexivity. Qed.

Lemma app_assoc (s t u : string) : (s +:+ t) +:+ u = s +:+ (t +:+ u).
Proof.
  induction s as [|a s IH]; [reflexivity|].
  rewrite !app_cons, IH. reflexivity.
Qed.

Lemma chars_app (s t : string) : chars (s +:+ t) = chars s ++ chars t.
Proof.
  induction s as [|a s IH]; [reflexivity|].
  rewrite app_cons. simpl. rewrite IH. reflexivity.
Qed.

Lemma startsWith_app (p s : string) : startsWith (p +:+ s) p = true.
Proof.
  unfold startsWith. induction p as [|a p IH]; simpl.
  - destruct s; reflexivity.
  - destruct (ascii_dec a a); [exact IH|congruence].
Qed.

Lemma split_nonempty sep s : split sep s <> [].
Proof.
  destruct s as [|c r]; simpl; [discriminate|].
  destruct (Ascii.eqb c sep); [discriminate|].
  destruct (split sep r); discriminate.
Qed.

(** A string without the separator is a single field. *)
Lemma split_none sep s : ~ In sep (chars s) -> split sep s = [s].
Proof.
  induction s as [|c r IH]; intros Hn; [reflexivity|]. simpl in *.
  destruct (Ascii.eqb_spec c sep) as [->|_]; [tauto|].
  rewrite IH by tauto. reflexivity.
Qed.

(** The first field ends at the first separator. *)
Lemma split_app sep s rest :
  ~ In sep (chars s) ->
  split sep (s +:+ String sep rest) = s :: split sep rest.
Proof.
  induction s as [|c r IH]; intros Hn.
  - simpl. rewrite Ascii.eqb_refl. reflexivity.
  - rewrite app_cons. simpl in *.
    destruct (Ascii.eqb_spec c sep) as [->|_]; [tauto|].
    rewrite IH by tauto. reflexivity.
Qed.

(** [trim] keeps every character that is not white space. *)
Definition solid (s : string) : Prop :=
  exists c, In c (chars s) /\ isWhite c = false.

Lemma chars_rev_app (s t : string) :
  chars (String.rev_app s t) = List.rev (chars s) ++ chars t.
Proof.
  revert t. induction s as [|a s IH]; intros t; [reflexivity|].
  simpl. rewrite IH. simpl. rewrite <- List.app_assoc. reflexivity.
Qed.

Lemma chars_rev (s : string) : chars (String.rev s) = List.rev (chars s).
Proof. unfold String.rev. rewrite chars_rev_app. simpl. apply app_nil_r. Qed.

Lemma solid_rev (s : string) : solid s -> solid (String.rev s).
Proof.
  intros (c & Hin & Hc). exists c. split; [|exact Hc].
  rewrite chars_rev. apply in_rev. rewrite rev_involutive. exact Hin.
Qed.

Lemma solid_trimStart (s : string) : solid s -> solid (trimStart s).
Proof.
  intros (c & Hin & Hc). induction s as [|a s IH]; [destruct Hin|].
  simpl. destruct (isWhite a) eqn:Ha.
  - destruct Hin as [->|Hin]; [congruence|]. apply IH, Hin.
  - exists c. split; [exact Hin|exact Hc].
Qed.

Lemma solid_trim (s : string) : solid s -> solid (trim s).
Proof.
  intros Hs. unfold trim, trimEnd.
  apply solid_rev, solid_trimStart, solid_rev, solid_trimStart, Hs.
Qed.

Lemma solid_nonempty (s : string) : solid s -> s <> "".
Proof. intros (c & Hin & _) ->. destruct Hin. Qed.

Lemma trim_solid (s : string) :
  solid s -> trim s <> "" /\ (0 <? String.length (trim s))%nat = true.
Proof.
  intros Hs. apply solid_trim, solid_nonempty in Hs.
  split; [exact Hs|]. destruct (trim s); [congruence|reflexivity].
Qed.

Lemma solid_app_l (s t : string) : solid s -> solid (s +:+ t).
Proof.
  intros (c & Hin & Hc). exists c. split; [|exact Hc].
  rewrite chars_app. apply in_or_app. left. exact Hin.
Qed.

Lemma solid_concat (sep s : string) (rest : list string) :
  solid s -> solid (String.concat sep (s :: rest)).
Proof.
  intros Hs. destruct rest as [|s' rest]; [exact Hs|].
  change (String.concat sep (s :: s' :: rest))
    with (s +:+ sep +:+ String.concat sep (s' :: rest)).
  apply solid_app_l, Hs.
Qed.

End JsStringFacts.

Module JsArrayFacts.
Import JsArray.

Lemma findIndex_ge {A} (p : A -> bool) a : (-1 <= findIndex p a)%Z.
Proof.
  induction a as [|x r IH]; simpl; [lia|].
  destruct (p x); [lia|]. destruct (Z.eqb_spec (findIndex p r) (-1)); lia.
Qed.

(** [findIndex] is [-1] exactly when no element satisfies the test. *)
Lemma findIndex_none {A} (p : A -> bool) a :
  findIndex p a = (-1)%Z <-> Forall (fun x => p x = false) a.
Proof.
  induction a as [|x r IH]; simpl.
  - split; [constructor|reflexivity].
  - destruct (p x) eqn:Hp.
    + split; [discriminate|]. intros H. inversion H; congruence.
    + pose proof (findIndex_ge p r) as Hge.
      destruct (Z.eqb_spec (findIndex p r) (-1)) as [E|E].
      * split; [|reflexivity]. intros _. constructor; [exact Hp|apply IH, E].
      * split; [lia|]. intros Hall. inversion Hall as [|? ? _ Hr]; subst.
        apply IH in Hr. lia.
Qed.

(** Otherwise it splits the array at the first such element. *)
Lemma findIndex_split {A} (p : A -> bool) a :
  findIndex p a <> (-1)%Z ->
  exists pre x post,
    a = pre ++ x :: post /\ Forall (fun y => p y = false) pre /\
    p x = true /\ findIndex p a = Z.of_nat (length pre).
Proof.
  induction a as [|y r IH]; simpl; [congruence|].
  destruct (p y) eqn:Hp.
  - intros _. exists [], y, r. repeat split; [constructor|exact Hp].
  - destruct (Z.eqb_spec (findIndex p r) (-1)) as [E|E]; [congruence|].
    intros _. destruct (IH E) as (pre & x & post & -> & Hpre & Hx & Hi).
    exists (y :: pre), x, post. repeat split; [constructor; auto|exact Hx|].
    rewrite Hi. simpl length. lia.
Qed.

Lemma findIndex_first {A} (p : A -> bool) pre x post :
  Forall (fun y => p y = false) pre -> p x = true ->
  findIndex p (pre ++ x :: post) = Z.of_nat (length pre).
Proof.
  intros Hpre Hx. induction Hpre as [|y pre Hy _ IH]; simpl.
  - rewrite Hx. reflexivity.
  - rewrite Hy, IH. destruct (Z.eqb_spec (Z.of_nat (length pre)) (-1)); lia.
Qed.

Lemma at_middle {A} (pre : list A) x post :
  at_ (pre ++ x :: post) (Z.of_nat (length pre)) = Some x.
Proof.
  unfold at_. destruct (Z.ltb_spec (Z.of_nat (length pre)) 0); [lia|].
  rewrite Nat2Z.id. clear. induction pre as [|y pre IH]; [reflexivity|exact IH].
Qed.


(** A positive [end] keeps the first [end] elements. *)
Lemma slice0_pos {A} (a : list A) (n : Z) :
  (0 <= n)%Z -> slice a 0 n = firstn (Z.to_nat n) a.
Proof.
  intros Hn. unfold slice, clamp. cbv zeta. simpl (0 <? 0)%Z. cbv iota.
  destruct (Z.ltb_spec n 0); [lia|].
  rewrite (Z.min_l 0) by lia. change (Z.to_nat 0) with 0%nat.
  rewrite skipn_O, Z.sub_0_r.
  destruct (Z.le_gt_cases n (Z.of_nat (length a))).
  - rewrite Z.min_l by lia. reflexivity.
  - rewrite Z.min_r by lia. rewrite Nat2Z.id, firstn_all.
    symmetry. apply firstn_all2. lia.
Qed.

End JsArrayFacts.

(** ** The commit message *)

Module MessageFacts.
Import JsString JsStringFacts Collect.

(** A string that holds no line feed is one line. *)
Definition oneLine (s : string) : Prop := ~ In LF (chars s).

(** The lines of the message, without their line feeds. *)
Definition messageLines (tag : string) (extracted missing : list string) : list string :=
  ["Add metadata for " +:+ tag; ""; "Extracted:"]
  ++ map (String.append "- ") extracted
  ++ match missing with
     | [] => []
     | _ :: _ => ["" ; "Missing:"] ++ map (String.append "- ") missing
     end.

(** [unlines ls] ends every line of [ls] with a line feed. *)
Definition unlines (ls : list string) : string :=
  fold_right (fun l rest => l +:+ nl +:+ rest) "" ls.

Lemma unlines_app (a b : list string) : unlines (a ++ b) = unlines a +:+ unlines b.
Proof.
  induction a as [|l a IH]; [reflexivity|].
  simpl. rewrite IH, !app_assoc. reflexivity.
Qed.

Lemma bullets_unlines (names : list string) (message : string) :
  bullets names message = message +:+ unlines (map (String.append "- ") names).
Proof.
  unfold bullets. revert message.
  induction names as [|n names IH]; intros message; simpl.
  - symmetry. apply app_empty_r.
  - rewrite IH, !app_assoc. reflexivity.
Qed.

(** The message is its lines, each ended by a line feed. *)
Lemma commitMessage_unlines (tag : string) (extracted missing : list string) :
  commitMessage tag extracted missing = unlines (messageLines tag extracted missing).
Proof.
  unfold commitMessage, messageLines. cbv zeta.
  destruct missing as [|m missing].
  - change (0 <? length (@nil string))%nat with false. cbv iota.
    rewrite bullets_unlines, app_nil_r, unlines_app. simpl unlines.
    rewrite !app_assoc. reflexivity.
  - change (0 <? length (m :: missing))%nat with true. cbv iota.
    rewrite !bullets_unlines, !unlines_app.
    remember (m :: missing) as ms. simpl unlines.
    rewrite !app_assoc. reflexivity.
Qed.

Lemma oneLine_app (s t : string) : oneLine s -> oneLine t -> oneLine (s +:+ t).
Proof.
  unfold oneLine. rewrite chars_app, in_app_iff. tauto.
Qed.

Lemma split_unlines (ls : list string) :
  Forall oneLine ls -> split LF (unlines ls) = ls ++ [""].
Proof.
  induction 1 as [|l ls Hl _ IH]; [reflexivity|].
  simpl unlines. unfold nl. rewrite app_cons, app_empty_l.
  rewrite split_app by exact Hl. rewrite IH. reflexivity.
Qed.

Lemma oneLine_literal (s : string) :
  forallb (fun c => negb (Ascii.eqb c LF)) (chars s) = true -> oneLine s.
Proof.
  unfold oneLine. intros Hall Hin.
  rewrite forallb_forall in Hall. specialize (Hall _ Hin).
  rewrite Ascii.eqb_refl in Hall. discriminate.
Qed.

Lemma messageLines_oneLine (tag : string) (extracted missing : list string) :
  oneLine tag -> Forall oneLine extracted -> Forall oneLine missing ->
  Forall oneLine (messageLines tag extracted missing).
Proof.
  intros Ht He Hm. unfold messageLines.
  assert (Hb : forall l, Forall oneLine l -> Forall oneLine (map (String.append "- ") l)).
  { intros l Hl. induction Hl as [|a l Ha _ IH]; simpl; constructor; [|exact IH].
    apply oneLine_app; [apply oneLine_literal; reflexivity|exact Ha]. }
  repeat (apply Forall_app; split).
  - repeat constructor.
    + apply oneLine_app; [apply oneLine_literal; reflexivity|exact Ht].
    + apply oneLine_literal; reflexivity.
    + apply oneLine_literal; reflexivity.
  - apply Hb, He.
  - destruct missing as [|m missing]; [constructor|].
    apply Forall_app; split; [|apply Hb, Hm].
    repeat constructor; apply oneLine_literal; reflexivity.
Qed.

(** Read line by line, the message is [messageLines] and an empty last
    field after the final line feed. *)
Lemma commitMessage_lines (tag : string) (extracted missing : list string) :
  oneLine tag -> Forall oneLine extracted -> Forall oneLine missing ->
  split LF (commitMessage tag extracted missing)
  = messageLines tag extracted missing ++ [""].
Proof.
  intros Ht He Hm. rewrite commitMessage_unlines.
  apply split_unlines, messageLines_oneLine; assumption.
Qed.

(** Putting a character in front of a string leaves every field but the
    first as it was. *)
Lemma split_tail_prepend (sep c : ascii) (s : string) :
  incl (tl (split sep s)) (tl (split sep (String c s))).
Proof.
  simpl split. destruct (Ascii.eqb c sep).
  - simpl tl. intros x Hx. destruct (split sep s); [destruct Hx|right; exact Hx].
  - destruct (split sep s) as [|h t]; [intros x []|]. simpl. apply incl_refl.
Qed.

(** A line between two line feeds is a field of [split]. *)
Lemma split_In_middle (a l b : string) :
  oneLine l -> In l (split LF (a +:+ nl +:+ l +:+ nl +:+ b)).
Proof.
  intros Hl.
  assert (Htl : In l (tl (split LF (a +:+ nl +:+ l +:+ nl +:+ b)))).
  { induction a as [|c a IH].
    - unfold nl. rewrite app_empty_l, !app_cons, !app_empty_l.
      change (split LF (String LF (l +:+ String LF b)))
        with (if Ascii.eqb LF LF then "" :: split LF (l +:+ String LF b)
              else match split LF (l +:+ String LF b) with
                   | h :: t => String LF h :: t
                   | [] => [String LF ""]
                   end).
      rewrite Ascii.eqb_refl. simpl tl.
      rewrite split_app by exact Hl. left. reflexivity.
    - rewrite app_cons. apply split_tail_prepend, IH. }
  destruct (split LF (a +:+ nl +:+ l +:+ nl +:+ b)); [destruct Htl|right; exact Htl].
Qed.

Lemma unlines_ends (ls : list string) :
  ls <> [] -> exists x, unlines ls = x +:+ nl.
Proof.
  induction ls as [|l ls IH]; [congruence|]. intros _.
  destruct ls as [|l' ls].
  - exists l. simpl. rewrite app_empty_r. reflexivity.
  - destruct IH as [x Hx]; [discriminate|].
    exists (l +:+ nl +:+ x). simpl unlines in *. rewrite Hx, !app_assoc. reflexivity.
Qed.

(** Every line but the first is found again by [split], whatever the
    other lines hold. *)
Lemma split_unlines_In (pre : list string) (l : string) (post : list string) :
  pre <> [] -> oneLine l -> In l (split LF (unlines (pre ++ l :: post))).
Proof.
  intros Hpre Hl. rewrite unlines_app.
  destruct (unlines_ends pre Hpre) as [x ->]. simpl unlines.
  rewrite !app_assoc. apply split_In_middle, Hl.
Qed.

(** The first line of the message is the marker of the tag. *)
Lemma commitMessage_first_line (tag : string) (extracted missing : list string) :
  oneLine tag ->
  exists rest,
    split LF (commitMessage tag extracted missing) = ("Add metadata for " +:+ tag) :: rest.
Proof.
  intros Ht. rewrite commitMessage_unlines.
  set (rest := tl (messageLines tag extracted missing)).
  change (unlines (messageLines tag extracted missing))
    with (("Add metadata for " +:+ tag) +:+ String LF (unlines rest)).
  rewrite split_app; [eauto|].
  apply oneLine_app; [apply oneLine_literal; reflexivity|exact Ht].
Qed.

(** The characters of the message are those of the tag, of the labels
    and of the fixed text. *)
Lemma chars_unlines (c : ascii) (ls : list string) :
  In c (chars (unlines ls)) -> c = LF \/ exists l, In l ls /\ In c (chars l).
Proof.
  induction ls as [|l ls IH]; [intros []|].
  simpl unlines. rewrite !chars_app, !in_app_iff. intros [H|[H|H]].
  - right. exists l. split; [left; reflexivity|exact H].
  - left. destruct H as [H|[]]. symmetry. exact H.
  - destruct (IH H) as [E|(l' & Hl & Hc)]; [left; exact E|].
    right. exists l'. split; [right; exact Hl|exact Hc].
Qed.

Lemma commitMessage_chars (c : ascii) (tag : string) (extracted missing : list string) :
  In c (chars (commitMessage tag extracted missing)) ->
  In c (chars "Add metadata for Extracted: Missing: -") \/ c = LF \/
  In c (chars tag) \/ exists l, In l (extracted ++ missing) /\ In c (chars l).
Proof.
  rewrite commitMessage_unlines. intros H.
  apply chars_unlines in H. destruct H as [E|(l & Hl & Hc)]; [tauto|].
  unfold messageLines in Hl.
  assert (Hb : forall names, In l (map (String.append "- ") names) ->
            In c (chars "- ") \/ exists n, In n names /\ In c (chars n)).
  { intros names Hn. apply in_map_iff in Hn. destruct Hn as (n & <- & Hn).
    rewrite chars_app, in_app_iff in Hc. destruct Hc as [Hc|Hc]; [left; exact Hc|].
    right. exists n. split; assumption. }
  rewrite !in_app_iff in Hl. destruct Hl as [Hl|[Hl|Hl]].
  - simpl in Hl. destruct Hl as [<-|[<-|[<-|[]]]].
    + rewrite chars_app, in_app_iff in Hc. destruct Hc as [Hc|Hc]; [|tauto].
      left. simpl in Hc. simpl. tauto.
    + destruct Hc.
    + left. simpl in Hc. simpl. tauto.
  - destruct (Hb _ Hl) as [Hd|(n & Hn & Hcn)].
    + left. simpl in Hd. simpl. tauto.
    + right. right. right. exists n. split; [apply in_or_app; left; exact Hn|exact Hcn].
  - destruct missing as [|m missing]; [destruct Hl|].
    rewrite in_app_iff in Hl. destruct Hl as [Hl|Hl].
    + simpl in Hl. destruct Hl as [<-|[<-|[]]]; [destruct Hc|].
      left. simpl in Hc. simpl. tauto.
    + destruct (Hb _ Hl) as [Hd|(n & Hn & Hcn)].
      * left. simpl in Hd. simpl. tauto.
      * right. right. right. exists n. split; [apply in_or_app; right; exact Hn|exact Hcn].
Qed.

(** C3.  The commit message is its lines, each ended by a line feed: the
    first line is [Add metadata for <tag>], then come a blank line, the
    line [Extracted:] and one line [- <label>] per extracted label, in
    order; a blank line, the line [Missing:] and one line [- <label>] per
    missing label follow when, and only when, the list of missing labels
    is not empty.  When the tag and the labels hold no line feed these are
    the lines [split] finds.  For the tag [v0.5.0], the extracted label
    [Core prompts] and the missing label [Tool registry] the lines are the
    seven written below (and the empty field after the last line feed). *)
Theorem commitMessage_format (tag : string) (extracted missing : list string) :
  commitMessage tag extracted missing
  = unlines (["Add metadata for " +:+ tag; ""; "Extracted:"]
             ++ map (String.append "- ") extracted
             ++ match missing with
                | [] => []
                | _ :: _ => [""; "Missing:"] ++ map (String.append "- ") missing
                end)
  /\ (oneLine tag -> Forall oneLine extracted -> Forall oneLine missing ->
      split LF (commitMessage tag extracted missing)
      = ["Add metadata for " +:+ tag; ""; "Extracted:"]
        ++ map (String.append "- ") extracted
        ++ match missing with
           | [] => []
           | _ :: _ => [""; "Missing:"] ++ map (String.append "- ") missing
           end
        ++ [""])
  /\ split LF (commitMessage "v0.5.0" ["Core prompts"] ["Tool registry"])
     = ["Add metadata for v0.5.0"; ""; "Extracted:"; "- Core prompts";
        ""; "Missing:"; "- Tool registry"; ""].
Proof.
  split; [apply commitMessage_unlines|]. split; [|reflexivity].
  intros Ht He Hm. rewrite (commitMessage_lines tag extracted missing Ht He Hm).
  unfold messageLines. rewrite <- !List.app_assoc. reflexivity.
Qed.

Lemma commitMessage_format_witness :
  oneLine "v0.9.1" /\ Forall oneLine ["Tool registry"] /\ Forall oneLine ["Core prompts"]
  /\ split LF (commitMessage "v0.9.1" ["Tool registry"] ["Core prompts"])
     = ["Add metadata for v0.9.1"; ""; "Extracted:"; "- Tool registry";
        ""; "Missing:"; "- Core prompts"; ""].
Proof.
  assert (H1 : oneLine "v0.9.1") by (apply oneLine_literal; reflexivity).
  assert (H2 : Forall oneLine ["Tool registry"])
    by (repeat constructor; apply oneLine_literal; reflexivity).
  assert (H3 : Forall oneLine ["Core prompts"])
    by (repeat constructor; apply oneLine_literal; reflexivity).
  split; [exact H1|]. split; [exact H2|]. split; [exact H3|].
  exact (proj1 (proj2 (commitMessage_format "v0.9.1" ["Tool registry"] ["Core prompts"]))
           H1 H2 H3).
Defined.

(** C10.  The two sections are not treated alike.  The line [Extracted:]
    is in every message, also when no label was extracted: the message for
    no label at all is the first line, a blank line and [Extracted:] with
    no bullet under it.  The line [Missing:] is in the message when some
    label is missing, and it is not when none is (the tag and the extracted
    labels holding no line feed, so that they cannot bring such a line in
    themselves). *)
Theorem commitMessage_headers (tag : string) (extracted missing : list string) :
  In "Extracted:" (split LF (commitMessage tag extracted missing))
  /\ commitMessage tag [] [] = "Add metadata for " +:+ tag +:+ nl +:+ nl +:+ "Extracted:" +:+ nl
  /\ (missing <> [] -> In "Missing:" (split LF (commitMessage tag extracted missing)))
  /\ (oneLine tag -> Forall oneLine extracted -> missing = [] ->
      ~ In "Missing:" (split LF (commitMessage tag extracted missing))).
Proof.
  repeat split.
  - rewrite commitMessage_unlines. unfold messageLines.
    change (["Add metadata for " +:+ tag; ""; "Extracted:"] ++ ?r)
      with (["Add metadata for " +:+ tag; ""] ++ "Extracted:" :: r).
    apply split_unlines_In; [discriminate|apply oneLine_literal; reflexivity].
  - intros Hm. rewrite commitMessage_unlines. unfold messageLines.
    destruct missing as [|m missing]; [congruence|].
    change ([""; "Missing:"] ++ ?r) with ([""] ++ "Missing:" :: r).
    rewrite !List.app_assoc.
    apply split_unlines_In; [|apply oneLine_literal; reflexivity].
    intros E. apply app_eq_nil in E. destruct E as [_ E]. discriminate.
  - intros Ht He -> Hin.
    rewrite (commitMessage_lines tag extracted [] Ht He (List.Forall_nil _)) in Hin.
    unfold messageLines in Hin. rewrite app_nil_r in Hin.
    rewrite !in_app_iff in Hin. destruct Hin as [[Hin|Hin]|Hin].
    + simpl in Hin. destruct Hin as [E|[E|[E|[]]]]; discriminate.
    + apply in_map_iff in Hin. destruct Hin as (x & E & _). discriminate.
    + simpl in Hin. destruct Hin as [E|[]]. discriminate.
Qed.

Lemma commitMessage_headers_witness :
  ((["Tool registry"] : list string) <> []
   /\ In "Missing:" (split LF (commitMessage "v0.5.0" [] ["Tool registry"])))
  /\ (oneLine "v0.5.0" /\ Forall oneLine ["Core prompts"]
      /\ ~ In "Missing:" (split LF (commitMessage "v0.5.0" ["Core prompts"] []))).
Proof.
  split.
  - split; [discriminate|].
    apply (proj1 (proj2 (proj2 (commitMessage_headers "v0.5.0" [] ["Tool registry"])))).
    discriminate.
  - assert (H1 : oneLine "v0.5.0") by (apply oneLine_literal; reflexivity).
    assert (H2 : Forall oneLine ["Core prompts"])
      by (repeat constructor; apply oneLine_literal; reflexivity).
    split; [exact H1|]. split; [exact H2|].
    exact (proj2 (proj2 (proj2 (commitMessage_headers "v0.5.0" ["Core prompts"] [])))
             H1 H2 eq_refl).
Defined.

End MessageFacts.

(** ** The script on any platform *)

Module CollectFacts.
Import JsString JsArray JsStringFacts JsArrayFacts Collect.

(** The pattern of the ledger query for a tag. *)
Definition ledgerPattern (tag : string) : string := "Add metadata for " +:+ tag +:+ "$".

(** The patterns of the ledger queries of a trace, in order: one per tag
    the loop reached. *)
Definition queried (tr : list event) : list string :=
  flat_map (fun ev => match ev with EvExec _ (GitLogGrep p) => [p] | _ => [] end) tr.

(** The events of the file system. *)
Definition isFsEvent (ev : event) : bool :=
  match ev with
  | EvAccess _ | EvReadFile _ | EvMkdir _ | EvWriteFile _ _ => true
  | _ => false
  end.

(** The events of a loop turn that only asked the ledger: no checkout, no
    call to the file system, no staging, no commit. *)
Definition isQuiet (ev : event) : bool :=
  match ev with
  | EvLog _ | EvExec _ (GitLogGrep _) => true
  | _ => false
  end.

(** Along names that do not lead up, a place is reached by adding the
    names. *)
Lemma walk_down (from : path) (ns : list string) :
  ~ In ".." ns -> walk from ns = from ++ ns.
Proof.
  unfold walk. revert from. induction ns as [|n ns IH]; intros from Hn.
  - symmetry. apply app_nil_r.
  - simpl in Hn. cbn [fold_left].
    destruct (String.eqb_spec n "..") as [->|_]; [tauto|].
    rewrite IH by tauto. rewrite <- List.app_assoc. reflexivity.
Qed.

Section Generic.
Context {W : Type} `{Platform W}.

Lemma queried_app (t1 t2 : list event) : queried (t1 ++ t2) = queried t1 ++ queried t2.
Proof. apply flat_map_app. Qed.

Lemma queried_fs (tr : list event) : forallb isFsEvent tr = true -> queried tr = [].
Proof.
  induction tr as [|ev tr IH]; [reflexivity|]. simpl.
  destruct ev; simpl; try discriminate; exact IH.
Qed.

(** What the ledger answered, as [isVersionProcessed] reads it. *)
Definition processed (r : result string) : bool :=
  match r with
  | Ok stdout => (0 <? String.length (trim stdout))%nat
  | Err _ => false
  end.

(** [isVersionProcessed] asks once and never throws. *)
Lemma isVersionProcessed_eq (version : string) (w w1 : W) (r : result string) :
  exec COLLECTION_REPO_PATH (GitLogGrep (ledgerPattern version)) w = (w1, r) ->
  isVersionProcessed version w
  = (w1, [EvExec COLLECTION_REPO_PATH (GitLogGrep (ledgerPattern version))],
     Ret (processed r)).
Proof.
  unfold isVersionProcessed, try_, bind, execAsync, lift, ret, ledgerPattern.
  intros ->. destruct r as [out|e]; reflexivity.
Qed.

(** One file: the label goes to one of the two arrays, and nothing is
    thrown. *)
Lemma extractFile_cases (file : SourceFile) (acc : list string * list string) (w : W) :
  exists w' tr,
    forallb isFsEvent tr = true /\
    (extractFile file acc w = (w', tr, Ret (fst acc ++ [name file], snd acc)) \/
     extractFile file acc w = (w', tr, Ret (fst acc, snd acc ++ [name file]))).
Proof.
  unfold extractFile, try_, bind, access, readFile, mkdir, writeFile, lift, ret.
  assert (Hdone : forall (P Q : Prop) (tr : list event),
             forallb isFsEvent tr = true -> P \/ Q -> forallb isFsEvent tr = true /\ (P \/ Q))
    by (intros; split; assumption).
  destruct (fs_access _ w) as [w1 [[]|e1]];
    [|do 2 eexists; apply Hdone; [|right; reflexivity]; reflexivity].
  destruct (fs_readFile _ w1) as [w2 [content|e2]];
    [|do 2 eexists; apply Hdone; [|right; reflexivity]; reflexivity].
  destruct (fs_mkdir _ w2) as [w3 [[]|e3]];
    [|do 2 eexists; apply Hdone; [|right; reflexivity]; reflexivity].
  destruct (fs_writeFile _ content w3) as [w4 [[]|e4]];
    do 2 eexists; apply Hdone;
    try (right; reflexivity); try (left; reflexivity); reflexivity.
Qed.

(** X18.  A file whose label is extracted was written with the text that was
    read: the four calls succeeded, in their order, and [writeFile] got what
    [readFile] gave. *)
Lemma extractFile_copies (file : SourceFile) (acc acc' : list string * list string)
      (w w' : W) (tr : list event) :
  extractFile file acc w = (w', tr, Ret acc') ->
  fst acc' <> fst acc ->
  exists w1 w2 w3 content,
    fs_access (join GEMINI_REPO_PATH (sourcePath file)) w = (w1, Ok tt) /\
    fs_readFile (join GEMINI_REPO_PATH (sourcePath file)) w1 = (w2, Ok content) /\
    fs_mkdir (dirname (join COLLECTION_REPO_PATH (targetPath file))) w2 = (w3, Ok tt) /\
    fs_writeFile (join COLLECTION_REPO_PATH (targetPath file)) content w3 = (w', Ok tt) /\
    tr = [EvAccess (join GEMINI_REPO_PATH (sourcePath file));
          EvReadFile (join GEMINI_REPO_PATH (sourcePath file));
          EvMkdir (dirname (join COLLECTION_REPO_PATH (targetPath file)));
          EvWriteFile (join COLLECTION_REPO_PATH (targetPath file)) content].
Proof.
  unfold extractFile, try_, bind, access, readFile, mkdir, writeFile, lift, ret.
  destruct (fs_access _ w) as [w1 [[]|e1]] eqn:E1;
    [|intros E Hne; inversion E; subst; exfalso; apply Hne; reflexivity].
  destruct (fs_readFile _ w1) as [w2 [content|e2]] eqn:E2;
    [|intros E Hne; inversion E; subst; exfalso; apply Hne; reflexivity].
  destruct (fs_mkdir _ w2) as [w3 [[]|e3]] eqn:E3;
    [|intros E Hne; inversion E; subst; exfalso; apply Hne; reflexivity].
  destruct (fs_writeFile _ content w3) as [w4 [[]|e4]] eqn:E4;
    [|intros E Hne; inversion E; subst; exfalso; apply Hne; reflexivity].
  intros E _. inversion E; subst. exists w1, w2, w3, content.
  split; [reflexivity|]. split; [exact E2|]. split; [exact E3|].
  split; [exact E4|reflexivity].
Qed.

(** [Merge l a b]: [a] and [b] split [l] between them, each keeping the
    order of [l]. *)
Inductive Merge {A : Type} : list A -> list A -> list A -> Prop :=
| Merge_nil : Merge [] [] []
| Merge_left (x : A) (l a b : list A) : Merge l a b -> Merge (x :: l) (x :: a) b
| Merge_right (x : A) (l a b : list A) : Merge l a b -> Merge (x :: l) a (x :: b).

Lemma Merge_length {A} (l a b : list A) : Merge l a b -> length a + length b = length l.
Proof. induction 1; simpl; lia. Qed.

Lemma Merge_sublist {A} (l a b : list A) : Merge l a b -> sublist a l /\ sublist b l.
Proof.
  induction 1 as [|x l a b _ [IHa IHb]|x l a b _ [IHa IHb]]; split;
    try constructor; assumption.
Qed.

Lemma Merge_Permutation {A} (l a b : list A) : Merge l a b -> Permutation (a ++ b) l.
Proof.
  induction 1 as [|x l a b _ IH|x l a b _ IH]; simpl.
  - constructor.
  - constructor. exact IH.
  - rewrite <- Permutation_middle. constructor. exact IH.
Qed.

Lemma Merge_In {A} (l a b : list A) (x : A) : Merge l a b -> In x l <-> In x a \/ In x b.
Proof. induction 1; simpl; tauto. Qed.

(** With no label twice, no label is on both sides. *)
Lemma Merge_exclusive {A} (l a b : list A) (x : A) :
  Merge l a b -> List.NoDup l -> In x a -> In x b -> False.
Proof.
  induction 1 as [|y l a b Hm IH|y l a b Hm IH]; intros Hnd Ha Hb.
  - destruct Ha.
  - inversion Hnd as [|? ? Hy Hnd']; subst. destruct Ha as [->|Ha]; [|eauto].
    apply Hy. apply (Merge_In _ _ _ x Hm). right. exact Hb.
  - inversion Hnd as [|? ? Hy Hnd']; subst. destruct Hb as [->|Hb]; [|eauto].
    apply Hy. apply (Merge_In _ _ _ x Hm). left. exact Ha.
Qed.

(** The loop of [extractSources] deals the labels of the files to the two
    arrays, in the order of the files, and throws nothing. *)
Lemma extractFiles_merge (files : list SourceFile) (acc : list string * list string) (w : W) :
  exists w' tr extracted missing,
    extractFiles files acc w = (w', tr, Ret (fst acc ++ extracted, snd acc ++ missing)) /\
    forallb isFsEvent tr = true /\
    Merge (map name files) extracted missing.
Proof.
  revert acc w. induction files as [|file rest IH]; intros acc w.
  - exists w, [], [], []. simpl. unfold ret. rewrite !app_nil_r.
    destruct acc. repeat split. constructor.
  - destruct (extractFile_cases file acc w) as (w1 & t1 & Ht1 & [E|E]).
    + destruct (IH (fst acc ++ [name file], snd acc) w1)
        as (w2 & t2 & ex & mi & E2 & Ht2 & Hm).
      exists w2, (t1 ++ t2), (name file :: ex), mi.
      split; [|split].
      * simpl extractFiles. unfold bind. rewrite E, E2. simpl.
        rewrite <- List.app_assoc. reflexivity.
      * rewrite forallb_app, Ht1, Ht2. reflexivity.
      * simpl. constructor. exact Hm.
    + destruct (IH (fst acc, snd acc ++ [name file]) w1)
        as (w2 & t2 & ex & mi & E2 & Ht2 & Hm).
      exists w2, (t1 ++ t2), ex, (name file :: mi).
      split; [|split].
      * simpl extractFiles. unfold bind. rewrite E, E2. simpl.
        rewrite <- List.app_assoc. reflexivity.
      * rewrite forallb_app, Ht1, Ht2. reflexivity.
      * simpl. constructor. exact Hm.
Qed.

(** C9.  [extractSources] returns: it throws nothing and leaves the
    process running.  The two lists it returns split the labels of
    [SOURCE_FILES] between them: each keeps the order of the declaration,
    together they hold every label once, their lengths add up to the
    number of configured files, which is two, and the label of a configured
    file is in exactly one of them. *)
Theorem extractSources_partition (w : W) :
  exists w' tr extracted missing,
    extractSources w = (w', tr, Ret (extracted, missing)) /\
    sublist extracted (map name SOURCE_FILES) /\
    sublist missing (map name SOURCE_FILES) /\
    Permutation (extracted ++ missing) (map name SOURCE_FILES) /\
    length extracted + length missing = length SOURCE_FILES /\
    length SOURCE_FILES = 2 /\
    forall file, In file SOURCE_FILES ->
      (In (name file) extracted /\ ~ In (name file) missing) \/
      (~ In (name file) extracted /\ In (name file) missing).
Proof.
  destruct (extractFiles_merge SOURCE_FILES ([], []) w)
    as (w' & tr & extracted & missing & E & _ & Hm).
  exists w', tr, extracted, missing.
  split; [exact E|].
  destruct (Merge_sublist _ _ _ Hm) as [Hs1 Hs2].
  split; [exact Hs1|]. split; [exact Hs2|].
  split; [apply Merge_Permutation, Hm|].
  split; [rewrite (Merge_length _ _ _ Hm), length_map; reflexivity|].
  split; [reflexivity|].
  intros file Hin.
  assert (Hnd : List.NoDup (map name SOURCE_FILES)).
  { simpl. repeat constructor; simpl; intuition discriminate. }
  assert (Hl : In (name file) (map name SOURCE_FILES)) by (apply in_map, Hin).
  apply (Merge_In _ _ _ _ Hm) in Hl.
  destruct Hl as [Hl|Hl]; [left|right]; (split; [|]); try exact Hl;
    intros Hc; eapply Merge_exclusive; eauto.
Qed.

(** *** The commit recorder *)

(** [commitChanges] never throws: what it catches, it logs. *)
Lemma commitChanges_ret (tag : string) (extracted missing : list string) (w : W) :
  exists w' tr,
    commitChanges tag extracted missing w = (w', tr, Ret tt) /\ queried tr = [].
Proof.
  unfold commitChanges, try_, bind, execAsync, lift, console_log, console_error.
  destruct (exec _ GitStatusPorcelain w) as [w1 [out|e]]; [|eauto].
  destruct (String.eqb (trim out) ""); [eauto|].
  destruct (exec _ GitAddAll w1) as [w2 [out2|e2]]; [|eauto].
  destruct (exec _ (GitCommit _) w2) as [w3 [out3|e3]]; eauto.
Qed.

(** With nothing to commit it stops after the status query. *)
Lemma commitChanges_clean (tag : string) (extracted missing : list string)
      (w w1 : W) (statusOutput : string) :
  exec COLLECTION_REPO_PATH GitStatusPorcelain w = (w1, Ok statusOutput) ->
  trim statusOutput = "" ->
  commitChanges tag extracted missing w
  = (w1, [EvExec COLLECTION_REPO_PATH GitStatusPorcelain; EvLog "  No changes to commit"],
     Ret tt).
Proof.
  intros Hs Ht.
  unfold commitChanges, try_, bind, execAsync, lift, console_log.
  rewrite Hs, Ht. reflexivity.
Qed.

(** With something to commit it stages and commits. *)
Lemma commitChanges_dirty (tag : string) (extracted missing : list string)
      (w w1 : W) (statusOutput : string) :
  exec COLLECTION_REPO_PATH GitStatusPorcelain w = (w1, Ok statusOutput) ->
  trim statusOutput <> "" ->
  exists w' tr,
    commitChanges tag extracted missing w
    = (w', EvExec COLLECTION_REPO_PATH GitStatusPorcelain
           :: EvExec COLLECTION_REPO_PATH GitAddAll :: tr, Ret tt).
Proof.
  intros Hs Ht.
  unfold commitChanges, try_, bind, execAsync, lift, console_log, console_error.
  rewrite Hs. apply String.eqb_neq in Ht. rewrite Ht.
  destruct (exec _ GitAddAll w1) as [w2 [out2|e2]]; [|eauto].
  destruct (exec _ (GitCommit _) w2) as [w3 [out3|e3]]; eauto.
Qed.

(** *** One turn of the loop *)

Definition processingLine (n i : nat) (tag : string) : string :=
  "[" +:+ pretty (i + 1)%nat +:+ "/" +:+ pretty n +:+ "] Processing " +:+ tag +:+ "...".

(** A tag the ledger knows: the turn asks the ledger and does nothing
    else. *)
Lemma processTag_skip (n i : nat) (tag : string) (w w1 : W) (stdout : string) :
  exec COLLECTION_REPO_PATH (GitLogGrep (ledgerPattern tag)) w = (w1, Ok stdout) ->
  (0 <? String.length (trim stdout))%nat = true ->
  processTag n i tag w
  = (w1, [EvLog (processingLine n i tag);
          EvExec COLLECTION_REPO_PATH (GitLogGrep (ledgerPattern tag));
          EvLog ("  ⊘ Skipping (already processed)" +:+ nl)], Ret tt).
Proof.
  intros Hq Hlen. unfold processTag.
  unfold bind at 1. unfold console_log at 1. unfold bind at 1.
  rewrite (isVersionProcessed_eq tag w w1 (Ok stdout) Hq).
  unfold processed. rewrite Hlen. reflexivity.
Qed.

(** A tag whose checkout fails: the error is caught and logged, and the
    turn ends as any other. *)
Lemma processTag_checkout_fails (n i : nat) (tag : string) (w w1 w2 : W)
      (r : result string) (e : error) :
  exec COLLECTION_REPO_PATH (GitLogGrep (ledgerPattern tag)) w = (w1, r) ->
  processed r = false ->
  exec GEMINI_REPO_PATH (GitCheckout tag) w1 = (w2, Err e) ->
  processTag n i tag w
  = (w2, [EvLog (processingLine n i tag);
          EvExec COLLECTION_REPO_PATH (GitLogGrep (ledgerPattern tag));
          EvExec GEMINI_REPO_PATH (GitCheckout tag);
          EvError ("  ✗ Error processing " +:+ tag +:+ ":") (Some e);
          EvLog ""], Ret tt).
Proof.
  intros Hq Hr Hc. unfold processTag.
  unfold bind at 1. unfold console_log at 1. unfold bind at 1.
  rewrite (isVersionProcessed_eq tag w w1 r Hq), Hr.
  unfold try_, bind, checkoutTag, bind, execAsync, lift, console_error, console_log.
  rewrite Hc. reflexivity.
Qed.

(** A tag whose checkout succeeds: extraction and the commit recorder run. *)
Lemma processTag_checkout_ok (n i : nat) (tag : string) (w w1 w2 : W)
      (r : result string) (out : string) :
  exec COLLECTION_REPO_PATH (GitLogGrep (ledgerPattern tag)) w = (w1, r) ->
  processed r = false ->
  exec GEMINI_REPO_PATH (GitCheckout tag) w1 = (w2, Ok out) ->
  exists w3 t3 extracted missing w4 t4 logs,
    extractSources w2 = (w3, t3, Ret (extracted, missing)) /\
    commitChanges tag extracted missing w3 = (w4, t4, Ret tt) /\
    forallb isQuiet logs = true /\ queried logs = [] /\
    processTag n i tag w
    = (w4, [EvLog (processingLine n i tag);
            EvExec COLLECTION_REPO_PATH (GitLogGrep (ledgerPattern tag));
            EvExec GEMINI_REPO_PATH (GitCheckout tag)]
           ++ t3 ++ logs ++ t4 ++ [EvLog ""], Ret tt).
Proof.
  intros Hq Hr Hc.
  destruct (extractFiles_merge SOURCE_FILES ([], []) w2)
    as (w3 & t3 & extracted & missing & E & _ & _).
  simpl fst in E. simpl snd in E. rewrite !app_nil_l in E.
  destruct (commitChanges_ret tag extracted missing w3) as (w4 & t4 & E4 & _).
  exists w3, t3, extracted, missing, w4, t4.
  exists ((if (0 <? length extracted)%nat
           then [EvLog ("  ✓ Extracted: " +:+ String.concat ", " extracted)] else [])
          ++ (if (0 <? length missing)%nat
              then [EvLog ("  ⚠ Missing: " +:+ String.concat ", " missing)] else [])).
  split; [exact E|]. split; [exact E4|].
  split; [destruct (0 <? length extracted)%nat, (0 <? length missing)%nat; reflexivity|].
  split; [destruct (0 <? length extracted)%nat, (0 <? length missing)%nat; reflexivity|].
  unfold processTag.
  unfold bind at 1. unfold console_log at 1. unfold bind at 1.
  rewrite (isVersionProcessed_eq tag w w1 r Hq), Hr.
  unfold try_, bind, checkoutTag, bind, execAsync, lift, console_log, when, ret.
  rewrite Hc.
  change (extractFiles SOURCE_FILES ([], []) w2) with (extractSources w2) in E.
  rewrite E. cbn [fst snd].
  destruct (0 <? length extracted)%nat, (0 <? length missing)%nat;
    cbv beta iota; rewrite E4; simpl; rewrite <- ?List.app_assoc; reflexivity.
Qed.

(** Every turn ends normally, and asks the ledger about its tag and about
    no other. *)
Lemma processTag_ret (n i : nat) (tag : string) (w : W) :
  exists w' tr,
    processTag n i tag w = (w', tr, Ret tt) /\ queried tr = [ledgerPattern tag].
Proof.
  destruct (exec COLLECTION_REPO_PATH (GitLogGrep (ledgerPattern tag)) w) as [w1 r] eqn:Hq.
  destruct (processed r) eqn:Hr.
  - destruct r as [stdout|e]; [|discriminate].
    rewrite (processTag_skip n i tag w w1 stdout Hq Hr). eauto.
  - destruct (exec GEMINI_REPO_PATH (GitCheckout tag) w1) as [w2 [out|e]] eqn:Hc.
    + destruct (processTag_checkout_ok n i tag w w1 w2 r out Hq Hr Hc)
        as (w3 & t3 & extracted & missing & w4 & t4 & logs & E3 & E4 & _ & Hlogs & ->).
      do 2 eexists. split; [reflexivity|].
      destruct (extractFiles_merge SOURCE_FILES ([], []) w2)
        as (w3' & t3' & ex' & mi' & E3' & Hfs & _).
      unfold extractSources in E3. rewrite E3' in E3. inversion E3; subst.
      destruct (commitChanges_ret tag extracted missing w3) as (w4' & t4' & E4' & Hq4).
      rewrite E4' in E4. inversion E4; subst.
      rewrite !queried_app, (queried_fs _ Hfs), Hlogs, Hq4. reflexivity.
    + rewrite (processTag_checkout_fails n i tag w w1 w2 r e Hq Hr Hc). eauto.
Qed.

(** *** The loop *)

(** The loop reaches every tag, in order, whatever happens in a turn. *)
Lemma forTags_ret (n i : nat) (tags : list string) (w : W) :
  exists w' tr,
    forTags n i tags w = (w', tr, Ret tt) /\ queried tr = map ledgerPattern tags.
Proof.
  revert i w. induction tags as [|tag rest IH]; intros i w.
  - exists w, []. split; reflexivity.
  - destruct (processTag_ret n i tag w) as (w1 & t1 & E1 & Hq1).
    destruct (IH (S i) w1) as (w2 & t2 & E2 & Hq2).
    exists w2, (t1 ++ t2). split.
    + simpl forTags. unfold bind. rewrite E1, E2. reflexivity.
    + rewrite queried_app, Hq1, Hq2. reflexivity.
Qed.

(** *** The options and the whole run *)

(** The tags in the output of [git tag], as [getAllTags] reads them. *)
Definition tagsOf (stdout : string) : list string :=
  List.filter (fun tag => startsWith tag "v0.") (split LF (trim stdout)).

(** What [--start-from] keeps of the enumerated tags; [None] when the
    script exits. *)
Definition fromStart (v : option string) (allTags : list string) : option (list string) :=
  if truthyString v then
    let startIndex := indexOf allTags (default "" v) in
    if (startIndex =? -1)%Z then None else Some (sliceFrom allTags startIndex)
  else Some allTags.

(** What [--limit] keeps of them. *)
Definition limited (l : option Z) (tags : list string) : list string :=
  if truthyNumber l then slice tags 0 (default 0%Z l) else tags.

Definition isLog (ev : event) : bool :=
  match ev with EvLog _ => true | _ => false end.

Definition banner : string := "🔍 Collecting Gemini CLI prompts..." +:+ nl.
Definition notFound (v : option string) : string :=
  "❌ Version " +:+ default "" v +:+ " not found".

Lemma getAllTags_eq (w w1 : W) (r : result string) :
  exec GEMINI_REPO_PATH GitTagSorted w = (w1, r) ->
  getAllTags w
  = (w1, [EvExec GEMINI_REPO_PATH GitTagSorted],
     match r with Ok stdout => Ret (tagsOf stdout) | Err e => Throw e end).
Proof.
  intros Hr. unfold getAllTags, bind, execAsync, lift, ret. rewrite Hr.
  destruct r; reflexivity.
Qed.

Lemma startFrom_eq (v : option string) (allTags : list string) (w : W) :
  exists logs, forallb isLog logs = true /\
    startFrom v allTags w
    = match fromStart v allTags with
      | Some tags => (w, logs, Ret tags)
      | None => (w, [EvError (notFound v) None], Exit 1)
      end.
Proof.
  unfold startFrom, fromStart, notFound.
  destruct (truthyString v); [|exists []; split; reflexivity].
  cbv zeta. unfold bind, console_error, console_log, process_exit, ret.
  destruct (indexOf allTags (default "" v) =? -1)%Z.
  - exists []. split; reflexivity.
  - eexists. split; [|reflexivity]. reflexivity.
Qed.

Lemma limitTo_eq (l : option Z) (tags : list string) (w : W) :
  exists logs, forallb isLog logs = true /\
    limitTo l tags w = (w, logs, Ret (limited l tags)).
Proof.
  unfold limitTo, limited.
  destruct (truthyNumber l); [|exists []; split; reflexivity].
  cbv zeta. unfold bind, console_log, ret.
  eexists. split; [|reflexivity]. reflexivity.
Qed.

Lemma queried_logs (logs : list event) : forallb isLog logs = true -> queried logs = [].
Proof.
  induction logs as [|ev logs IH]; [reflexivity|]. simpl.
  destruct ev; simpl; try discriminate; exact IH.
Qed.

(** How the run ends after the loop, by what [git checkout main] gave. *)
Definition finale (r : result string) : list event :=
  match r with
  | Ok _ => [EvLog "✅ Collection complete!"]
  | Err e => [EvError "Fatal error:" (Some e)]
  end.

Definition finalOutcome (r : result string) : outcome unit :=
  match r with
  | Ok _ => Ret tt
  | Err _ => Exit 1
  end.

(** The enumeration of the tags failed: the script exits at once. *)
Lemma script_enumeration_fails (argv : list string) (w w1 : W) (e : error) :
  exec GEMINI_REPO_PATH GitTagSorted w = (w1, Err e) ->
  script argv w
  = (w1, [EvLog banner; EvExec GEMINI_REPO_PATH GitTagSorted;
          EvError "Fatal error:" (Some e)], Exit 1).
Proof.
  intros Ht. unfold script, try_, main.
  unfold bind at 1. unfold console_log at 1. unfold bind at 1.
  rewrite (getAllTags_eq w w1 _ Ht). reflexivity.
Qed.

(** The starting version is not among the tags: the script exits at
    once. *)
Lemma script_start_not_found (argv : list string) (w w1 : W) (stdout : string) :
  exec GEMINI_REPO_PATH GitTagSorted w = (w1, Ok stdout) ->
  fromStart (startFromVersion argv) (tagsOf stdout) = None ->
  script argv w
  = (w1, [EvLog banner; EvExec GEMINI_REPO_PATH GitTagSorted;
          EvLog ("Found " +:+ pretty (length (tagsOf stdout)) +:+ " v0.* tags" +:+ nl);
          EvError (notFound (startFromVersion argv)) None], Exit 1).
Proof.
  intros Ht Hs. unfold script, try_, main.
  unfold bind at 1. unfold console_log at 1. unfold bind at 1.
  rewrite (getAllTags_eq w w1 _ Ht).
  unfold bind at 1. unfold console_log at 1. unfold bind at 1.
  destruct (startFrom_eq (startFromVersion argv) (tagsOf stdout) w1) as (logs & _ & ->).
  rewrite Hs. reflexivity.
Qed.

(** Otherwise the loop runs over the selected tags and the script then
    tries to go back to [main]. *)
Lemma script_runs (argv : list string) (w w1 : W) (stdout : string) (tags0 : list string) :
  exec GEMINI_REPO_PATH GitTagSorted w = (w1, Ok stdout) ->
  fromStart (startFromVersion argv) (tagsOf stdout) = Some tags0 ->
  let tags := limited (limit argv) tags0 in
  exists logs w2 loop w3 r,
    forallb isLog logs = true /\
    forTags (length tags) 0 tags w1 = (w2, loop, Ret tt) /\
    queried loop = map ledgerPattern tags /\
    exec GEMINI_REPO_PATH (GitCheckout "main") w2 = (w3, r) /\
    script argv w
    = (w3, [EvLog banner; EvExec GEMINI_REPO_PATH GitTagSorted] ++ logs ++ loop
           ++ EvExec GEMINI_REPO_PATH (GitCheckout "main") :: finale r,
       finalOutcome r).
Proof.
  intros Ht Hs tags.
  destruct (startFrom_eq (startFromVersion argv) (tagsOf stdout) w1) as (l1 & Hl1 & E1).
  rewrite Hs in E1.
  destruct (limitTo_eq (limit argv) tags0 w1) as (l2 & Hl2 & E2).
  fold tags in E2.
  destruct (forTags_ret (length tags) 0 tags w1) as (w2 & loop & E3 & Hq3).
  destruct (exec GEMINI_REPO_PATH (GitCheckout "main") w2) as [w3 r] eqn:E4.
  exists (EvLog ("Found " +:+ pretty (length (tagsOf stdout)) +:+ " v0.* tags" +:+ nl)
          :: l1 ++ l2), w2, loop, w3, r.
  split; [simpl; rewrite forallb_app, Hl1, Hl2; reflexivity|].
  split; [exact E3|]. split; [exact Hq3|]. split; [exact E4|].
  unfold script, try_, main.
  unfold bind at 1. unfold console_log at 1. unfold bind at 1.
  rewrite (getAllTags_eq w w1 _ Ht).
  unfold bind at 1. unfold console_log at 1. unfold bind at 1.
  rewrite E1. unfold bind at 1. rewrite E2. unfold bind at 1. rewrite E3.
  unfold bind, returnToMain, bind, execAsync, lift, console_log, console_error,
    process_exit, ret.
  rewrite E4. destruct r; simpl; rewrite <- ?List.app_assoc; reflexivity.
Qed.

(** The tags a run reaches are the selected ones. *)
Lemma script_queried (argv : list string) (w w1 : W) (stdout : string) (tags0 : list string) :
  exec GEMINI_REPO_PATH GitTagSorted w = (w1, Ok stdout) ->
  fromStart (startFromVersion argv) (tagsOf stdout) = Some tags0 ->
  queried (trace_of (script argv w)) = map ledgerPattern (limited (limit argv) tags0).
Proof.
  intros Ht Hs.
  destruct (script_runs argv w w1 stdout tags0 Ht Hs)
    as (logs & w2 & loop & w3 & r & Hlogs & _ & Hq & _ & ->).
  unfold trace_of. cbn [fst snd].
  rewrite !queried_app, (queried_logs _ Hlogs), Hq.
  destruct r; simpl; rewrite app_nil_r; reflexivity.
Qed.

(** *** Reading the options *)

Lemma argValue_first (flag v : string) (pre post : list string) :
  Forall (fun arg => startsWith arg (flag +:+ "=") = false) pre ->
  ~ In "="%char (chars flag) -> ~ In "="%char (chars v) ->
  argValue (pre ++ (flag +:+ "=" +:+ v) :: post) (flag +:+ "=") = Some v.
Proof.
  intros Hpre Hflag Hv. unfold argValue.
  assert (Hx : startsWith (flag +:+ "=" +:+ v) (flag +:+ "=") = true).
  { rewrite <- app_assoc. apply startsWith_app. }
  rewrite (findIndex_first _ pre _ post Hpre Hx).
  destruct (Z.eqb_spec (Z.of_nat (length pre)) (-1)) as [E|_]; [lia|].
  cbn [negb]. rewrite at_middle.
  change (flag +:+ "=" +:+ v) with (flag +:+ String "="%char v).
  rewrite (split_app _ _ _ Hflag), (split_none _ _ Hv). reflexivity.
Qed.






(** X17.  A limit above zero keeps that many of the selected tags, from the
    first on. *)
Lemma limit_keeps_prefix (argv : list string) (n : Z) (w w1 : W)
      (stdout : string) (tags0 : list string) :
  limit argv = Some n -> (0 < n)%Z ->
  exec GEMINI_REPO_PATH GitTagSorted w = (w1, Ok stdout) ->
  fromStart (startFromVersion argv) (tagsOf stdout) = Some tags0 ->
  queried (trace_of (script argv w)) = map ledgerPattern (firstn (Z.to_nat n) tags0)
  /\ (length (firstn (Z.to_nat n) tags0) <= Nat.min (Z.to_nat n) (length tags0))%nat.
Proof.
  intros Hl Hn Ht Hs. split.
  - rewrite (script_queried argv w w1 stdout tags0 Ht Hs), Hl.
    unfold limited, truthyNumber. change (default 0%Z (Some n)) with n.
    destruct (Z.eqb_spec n 0) as [E|_]; [lia|]. cbn [negb].
    rewrite slice0_pos by lia. reflexivity.
  - rewrite length_firstn. lia.
Qed.

(** A limit of zero keeps them all: the script takes a zero for no limit. *)
Lemma limit_zero_keeps_all (argv : list string) (w w1 : W)
      (stdout : string) (tags0 : list string) :
  limit argv = Some 0%Z ->
  exec GEMINI_REPO_PATH GitTagSorted w = (w1, Ok stdout) ->
  fromStart (startFromVersion argv) (tagsOf stdout) = Some tags0 ->
  queried (trace_of (script argv w)) = map ledgerPattern tags0.
Proof.
  intros Hl Ht Hs.
  rewrite (script_queried argv w w1 stdout tags0 Ht Hs), Hl. reflexivity.
Qed.

(** C6.  What fails in one turn stays in that turn.  Extraction and the
    commit recorder throw nothing: what fails in them is turned into a
    missing label or logged there.  An error thrown by the checkout of a
    tag is caught in the turn of that tag and logged with the tag, and the
    turn ends.  So every turn of the loop ends normally and the loop reaches
    every tag, in order.  And once the tags are selected, the script runs
    the loop over all of them and then tries to check out [main], whatever
    happened in the loop; the run ends with the line of completion, or with
    a fatal error when that last checkout fails. *)
Theorem failures_are_contained (argv : list string) (w : W) :
  (forall w0, exists w' tr extracted missing,
     extractSources w0 = (w', tr, Ret (extracted, missing)))
  /\ (forall tag extracted missing w0, exists w' tr,
        commitChanges tag extracted missing w0 = (w', tr, Ret tt))
  /\ (forall n i tag w0 w1 w2 r e,
        exec COLLECTION_REPO_PATH (GitLogGrep (ledgerPattern tag)) w0 = (w1, r) ->
        processed r = false ->
        exec GEMINI_REPO_PATH (GitCheckout tag) w1 = (w2, Err e) ->
        processTag n i tag w0
        = (w2, [EvLog (processingLine n i tag);
                EvExec COLLECTION_REPO_PATH (GitLogGrep (ledgerPattern tag));
                EvExec GEMINI_REPO_PATH (GitCheckout tag);
                EvError ("  ✗ Error processing " +:+ tag +:+ ":") (Some e);
                EvLog ""], Ret tt))
  /\ (forall n i tags w0, exists w' tr,
        forTags n i tags w0 = (w', tr, Ret tt) /\ queried tr = map ledgerPattern tags)
  /\ (forall w1 stdout tags0,
        exec GEMINI_REPO_PATH GitTagSorted w = (w1, Ok stdout) ->
        fromStart (startFromVersion argv) (tagsOf stdout) = Some tags0 ->
        exists logs w2 loop w3 r,
          forallb isLog logs = true /\
          forTags (length (limited (limit argv) tags0)) 0 (limited (limit argv) tags0) w1
          = (w2, loop, Ret tt) /\
          queried loop = map ledgerPattern (limited (limit argv) tags0) /\
          exec GEMINI_REPO_PATH (GitCheckout "main") w2 = (w3, r) /\
          script argv w
          = (w3, [EvLog banner; EvExec GEMINI_REPO_PATH GitTagSorted] ++ logs ++ loop
                 ++ EvExec GEMINI_REPO_PATH (GitCheckout "main") :: finale r,
             finalOutcome r)).
Proof.
  split; [|split; [|split; [|split]]].
  - intros w0. destruct (extractFiles_merge SOURCE_FILES ([], []) w0)
      as (w' & tr & extracted & missing & E & _ & _).
    exists w', tr, extracted, missing. exact E.
  - intros tag extracted missing w0.
    destruct (commitChanges_ret tag extracted missing w0) as (w' & tr & E & _).
    exists w', tr. exact E.
  - intros n i tag w0 w1 w2 r e. apply processTag_checkout_fails.
  - intros n i tags w0. apply forTags_ret.
  - intros w1 stdout tags0 Ht Hs. exact (script_runs argv w w1 stdout tags0 Ht Hs).
Qed.

(** C7.  The ledger check fails open.  When the query of the commit
    history fails, [isVersionProcessed] throws nothing and answers [false];
    the turn of the loop then goes on as for a tag that was never
    processed: its next step is the checkout of the tag. *)
Theorem ledger_fails_open (version : string) (n i : nat) (w w1 : W) (e : error) :
  exec COLLECTION_REPO_PATH (GitLogGrep (ledgerPattern version)) w = (w1, Err e) ->
  isVersionProcessed version w
  = (w1, [EvExec COLLECTION_REPO_PATH (GitLogGrep (ledgerPattern version))], Ret false)
  /\ exists w2 rest,
       processTag n i version w
       = (w2, [EvLog (processingLine n i version);
               EvExec COLLECTION_REPO_PATH (GitLogGrep (ledgerPattern version));
               EvExec GEMINI_REPO_PATH (GitCheckout version)] ++ rest, Ret tt).
Proof.
  intros Hq. split.
  - exact (isVersionProcessed_eq version w w1 (Err e) Hq).
  - destruct (exec GEMINI_REPO_PATH (GitCheckout version) w1) as [w2 [out|e2]] eqn:Hc.
    + destruct (processTag_checkout_ok n i version w w1 w2 (Err e) out Hq eq_refl Hc)
        as (w3 & t3 & extracted & missing & w4 & t4 & logs & _ & _ & _ & _ & E).
      exists w4. eexists. exact E.
    + exists w2. eexists.
      exact (processTag_checkout_fails n i version w w1 w2 (Err e) e2 Hq eq_refl Hc).
Qed.

End Generic.

End CollectFacts.

(** ** Facts about UTF-8 *)

Module Utf8Facts.
Import Collect Utf8.
Local Open Scope N_scope.

(** *** Bits as arithmetic *)

Lemma land_shiftl_low (x y k : N) : y < 2 ^ k -> N.land (N.shiftl x k) y = 0.
Proof.
  intros Hy.
  rewrite <- (N.mod_small y (2 ^ k)) by exact Hy.
  rewrite <- (N.land_ones y k).
  rewrite (N.land_comm y), N.land_assoc, N.land_ones, N.shiftl_mul_pow2.
  rewrite N.Div0.mod_mul. apply N.land_0_l.
Qed.

Lemma lor_shiftl (x y k : N) : y < 2 ^ k -> N.lor (N.shiftl x k) y = x * 2 ^ k + y.
Proof.
  intros Hy. pose proof (land_shiftl_low x y k Hy) as H0.
  rewrite <- (N.lxor_lor _ _ H0), <- (N.add_nocarry_lxor _ _ H0), N.shiftl_mul_pow2.
  reflexivity.
Qed.

Lemma land_mask (n k base : N) :
  base mod 2 ^ k = 0 -> base <= n < base + 2 ^ k -> N.land n (N.ones k) = n - base.
Proof.
  intros Hb Hn. rewrite N.land_ones.
  symmetry. apply (N.mod_unique n (2 ^ k) (base / 2 ^ k)); [lia|].
  pose proof (N.div_mod base (2 ^ k)) as Hd.
  assert (H : 2 ^ k <> 0) by (apply N.pow_nonzero; discriminate).
  specialize (Hd H). rewrite Hb in Hd. lia.
Qed.

Lemma shiftr_low (x y k : N) : y < 2 ^ k -> N.shiftr (x * 2 ^ k + y) k = x.
Proof.
  intros Hy. rewrite N.shiftr_div_pow2.
  symmetry. apply (N.div_unique _ _ x y); [exact Hy|lia].
Qed.

Lemma land_low (x y k : N) : y < 2 ^ k -> N.land (x * 2 ^ k + y) (N.ones k) = y.
Proof.
  intros Hy. rewrite N.land_ones.
  symmetry. apply (N.mod_unique _ _ x y); [exact Hy|lia].
Qed.

(** *** Ranges and bytes *)

Lemma inRange_spec (lo hi n : N) : inRange lo hi n = true <-> lo <= n <= hi.
Proof. unfold inRange. rewrite andb_true_iff, !N.leb_le. tauto. Qed.

Lemma byteOf_to_N (b : byte) : byteOf (Byte.to_N b) = b.
Proof. unfold byteOf. rewrite Byte.of_to_N. reflexivity. Qed.

(** Adding a continuation byte to the code point, and taking it off again. *)
Lemma push (x n : N) :
  128 <= n <= 191 -> N.lor (N.shiftl x 6) (N.land n 0x3F) = x * 64 + (n - 128).
Proof.
  intros Hn.
  rewrite (land_mask n 6 128 eq_refl : 128 <= n < 128 + 64 -> N.land n 0x3F = n - 128) by lia.
  apply (lor_shiftl x (n - 128) 6 : n - 128 < 64 -> _). lia.
Qed.

Lemma pop_high (x y : N) : y < 64 -> N.shiftr (x * 64 + y) 6 = x.
Proof. intros Hy. apply (shiftr_low x y 6). exact Hy. Qed.

Lemma pop_low (x y : N) : y < 64 -> N.lor 0x80 (N.land (x * 64 + y) 0x3F) = 128 + y.
Proof.
  intros Hy.
  rewrite (land_low x y 6 Hy : N.land (x * 64 + y) 0x3F = y).
  exact (lor_shiftl 2 y 6 Hy).
Qed.

Lemma encode_cons (c : N) (t : text) : encode (c :: t) = (encodeChar c ++ encode t)%list.
Proof. reflexivity. Qed.

(** *** The decoder, step by step *)

Lemma decodeFrom_step (s s' : state) (b : byte) (r : list byte) (out : list N) :
  step s (Byte.to_N b) = (out, s') ->
  decodeFrom s (b :: r) = (out ++ decodeFrom s' r)%list.
Proof. intros E. simpl decodeFrom. rewrite E. reflexivity. Qed.

Definition open (cp : N) (k : nat) (lo hi : N) : state :=
  {| codePoint := cp; needed := k; lower := lo; upper := hi |}.

Lemma step_start (n : N) : step start n = lead n.
Proof. reflexivity. Qed.

Lemma step_last (cp lo hi n : N) :
  inRange lo hi n = true ->
  step (open cp 1 lo hi) n = ([N.lor (N.shiftl cp 6) (N.land n 0x3F)], start).
Proof. intros E. unfold step, open. cbn [needed lower upper codePoint]. rewrite E. reflexivity. Qed.

Lemma step_more (cp lo hi n : N) (k : nat) :
  inRange lo hi n = true ->
  step (open cp (S (S k)) lo hi) n
  = ([], open (N.lor (N.shiftl cp 6) (N.land n 0x3F)) (S k) 0x80 0xBF).
Proof. intros E. unfold step, open. cbn [needed lower upper codePoint]. rewrite E. reflexivity. Qed.

Lemma lead_ascii (n : N) : inRange 0x00 0x7F n = true -> lead n = ([n], start).
Proof. intros E. unfold lead. rewrite E. reflexivity. Qed.

Lemma lead_two (n : N) :
  inRange 0x00 0x7F n = false -> inRange 0xC2 0xDF n = true ->
  lead n = ([], open (N.land n 0x1F) 1 0x80 0xBF).
Proof. intros E0 E1. unfold lead. rewrite E0, E1. reflexivity. Qed.

Lemma lead_three (n : N) :
  inRange 0x00 0x7F n = false -> inRange 0xC2 0xDF n = false ->
  inRange 0xE0 0xEF n = true ->
  lead n = ([], open (N.land n 0xF) 2 (if n =? 0xE0 then 0xA0 else 0x80)
                  (if n =? 0xED then 0x9F else 0xBF)).
Proof. intros E0 E1 E2. unfold lead. rewrite E0, E1, E2. reflexivity. Qed.

Lemma lead_four (n : N) :
  inRange 0x00 0x7F n = false -> inRange 0xC2 0xDF n = false ->
  inRange 0xE0 0xEF n = false -> inRange 0xF0 0xF4 n = true ->
  lead n = ([], open (N.land n 0x7) 3 (if n =? 0xF0 then 0x90 else 0x80)
                  (if n =? 0xF4 then 0x8F else 0xBF)).
Proof. intros E0 E1 E2 E3. unfold lead. rewrite E0, E1, E2, E3. reflexivity. Qed.

(** *** The encoder gives back the bytes of a well-formed sequence *)

Lemma encode_two (n0 n1 : N) :
  194 <= n0 <= 223 -> 128 <= n1 <= 191 ->
  encodeChar (N.lor (N.shiftl (N.land n0 0x1F) 6) (N.land n1 0x3F))
  = [byteOf n0; byteOf n1].
Proof.
  intros H0 H1.
  rewrite (push _ n1 H1).
  rewrite (land_mask n0 5 192 eq_refl : 192 <= n0 < 192 + 32 -> N.land n0 0x1F = n0 - 192)
    by lia.
  unfold encodeChar.
  destruct (N.ltb_spec ((n0 - 192) * 64 + (n1 - 128)) 0x80); [lia|].
  destruct (N.ltb_spec ((n0 - 192) * 64 + (n1 - 128)) 0x800); [|lia].
  rewrite pop_high, pop_low by lia.
  rewrite (lor_shiftl 6 (n0 - 192) 5 : n0 - 192 < 32 -> N.lor 0xC0 (n0 - 192) = 6 * 32 + (n0 - 192))
    by lia.
  f_equal; [f_equal; lia|f_equal; f_equal; lia].
Qed.

Lemma shiftr_12 (c : N) : N.shiftr c 12 = N.shiftr (N.shiftr c 6) 6.
Proof. rewrite N.shiftr_shiftr. reflexivity. Qed.

Lemma shiftr_18 (c : N) : N.shiftr c 18 = N.shiftr (N.shiftr (N.shiftr c 6) 6) 6.
Proof. rewrite !N.shiftr_shiftr. reflexivity. Qed.

Lemma encode_three (n0 n1 n2 : N) :
  224 <= n0 <= 239 ->
  (if n0 =? 0xE0 then 0xA0 else 0x80) <= n1 <= (if n0 =? 0xED then 0x9F else 0xBF) ->
  128 <= n2 <= 191 ->
  encodeChar (N.lor (N.shiftl (N.lor (N.shiftl (N.land n0 0xF) 6) (N.land n1 0x3F)) 6)
                (N.land n2 0x3F))
  = [byteOf n0; byteOf n1; byteOf n2].
Proof.
  intros H0 H1 H2.
  assert (H1' : 128 <= n1 <= 191).
  { destruct (N.eqb_spec n0 0xE0), (N.eqb_spec n0 0xED); lia. }
  rewrite (push _ n2 H2), (push _ n1 H1').
  rewrite (land_mask n0 4 224 eq_refl : 224 <= n0 < 224 + 16 -> N.land n0 0xF = n0 - 224)
    by lia.
  set (x1 := (n0 - 224) * 64 + (n1 - 128)).
  unfold encodeChar.
  destruct (N.ltb_spec (x1 * 64 + (n2 - 128)) 0x80) as [L|_];
    [destruct (N.eqb_spec n0 0xE0), (N.eqb_spec n0 0xED); lia|].
  destruct (N.ltb_spec (x1 * 64 + (n2 - 128)) 0x800) as [L|_];
    [destruct (N.eqb_spec n0 0xE0), (N.eqb_spec n0 0xED); lia|].
  destruct (N.ltb_spec (x1 * 64 + (n2 - 128)) 0x10000) as [_|L]; [|lia].
  destruct (inRange 0xD800 0xDFFF (x1 * 64 + (n2 - 128))) eqn:Es.
  { apply inRange_spec in Es.
    destruct (N.eqb_spec n0 0xE0), (N.eqb_spec n0 0xED); lia. }
  rewrite shiftr_12, !pop_high, !pop_low by lia.
  unfold x1. rewrite ?pop_high, ?pop_low by lia.
  rewrite (lor_shiftl 14 (n0 - 224) 4 : n0 - 224 < 16 -> N.lor 0xE0 (n0 - 224) = 14 * 16 + (n0 - 224))
    by lia.
  repeat (f_equal; try lia).
Qed.

Lemma encode_four (n0 n1 n2 n3 : N) :
  240 <= n0 <= 244 ->
  (if n0 =? 0xF0 then 0x90 else 0x80) <= n1 <= (if n0 =? 0xF4 then 0x8F else 0xBF) ->
  128 <= n2 <= 191 -> 128 <= n3 <= 191 ->
  encodeChar (N.lor (N.shiftl (N.lor (N.shiftl (N.lor (N.shiftl (N.land n0 0x7) 6)
                (N.land n1 0x3F)) 6) (N.land n2 0x3F)) 6) (N.land n3 0x3F))
  = [byteOf n0; byteOf n1; byteOf n2; byteOf n3].
Proof.
  intros H0 H1 H2 H3.
  assert (H1' : 128 <= n1 <= 191).
  { destruct (N.eqb_spec n0 0xF0), (N.eqb_spec n0 0xF4); lia. }
  rewrite (push _ n3 H3), (push _ n2 H2), (push _ n1 H1').
  rewrite (land_mask n0 3 240 eq_refl : 240 <= n0 < 240 + 8 -> N.land n0 0x7 = n0 - 240)
    by lia.
  set (x1 := (n0 - 240) * 64 + (n1 - 128)).
  set (x2 := x1 * 64 + (n2 - 128)).
  unfold encodeChar.
  assert (Hc : 0x10000 <= x2 * 64 + (n3 - 128)).
  { unfold x2, x1. destruct (N.eqb_spec n0 0xF0), (N.eqb_spec n0 0xF4); lia. }
  destruct (N.ltb_spec (x2 * 64 + (n3 - 128)) 0x80) as [L|_]; [lia|].
  destruct (N.ltb_spec (x2 * 64 + (n3 - 128)) 0x800) as [L|_]; [lia|].
  destruct (N.ltb_spec (x2 * 64 + (n3 - 128)) 0x10000) as [L|_]; [lia|].
  rewrite shiftr_18, shiftr_12, !pop_high, !pop_low by lia.
  unfold x2. rewrite ?pop_high, ?pop_low by lia.
  unfold x1. rewrite ?pop_high, ?pop_low by lia.
  rewrite (lor_shiftl 30 (n0 - 240) 3 : n0 - 240 < 8 -> N.lor 0xF0 (n0 - 240) = 30 * 8 + (n0 - 240))
    by lia.
  repeat (f_equal; try lia).
Qed.

Lemma encode_ascii (n : N) : inRange 0x00 0x7F n = true -> encodeChar n = [byteOf n].
Proof.
  intros E. apply inRange_spec in E. unfold encodeChar.
  destruct (N.ltb_spec n 0x80); [reflexivity|lia].
Qed.

(** *** Reading and writing back *)

Lemma recode_aux (k : nat) (bs : list byte) :
  (length bs <= k)%nat -> wellFormed bs = true -> encode (decodeFrom start bs) = bs.
Proof.
  revert bs. induction k as [|k IH]; intros bs Hlen Hwf.
  { destruct bs; [reflexivity|simpl in Hlen; lia]. }
  destruct bs as [|b0 r0]; [reflexivity|].
  cbn [wellFormed] in Hwf. simpl length in Hlen.
  destruct (inRange 0x00 0x7F (Byte.to_N b0)) eqn:E0.
  { rewrite (decodeFrom_step start _ _ _ _ (lead_ascii _ E0)).
    cbn [app]. rewrite encode_cons, (encode_ascii _ E0), byteOf_to_N.
    cbn [app]. f_equal. apply IH; [lia|exact Hwf]. }
  destruct r0 as [|b1 r1]; [discriminate|]. simpl length in Hlen.
  destruct (inRange 0xC2 0xDF (Byte.to_N b0)) eqn:E1.
  { apply andb_true_iff in Hwf. destruct Hwf as [H1 Hwf].
    rewrite (decodeFrom_step start _ _ _ _ (lead_two _ E0 E1)).
    rewrite (decodeFrom_step _ _ _ _ _ (step_last _ _ _ _ H1)).
    cbn [app]. rewrite encode_cons.
    apply inRange_spec in E1. apply inRange_spec in H1.
    rewrite (encode_two _ _ E1 H1), !byteOf_to_N.
    cbn [app]. do 2 f_equal. apply IH; [lia|exact Hwf]. }
  destruct r1 as [|b2 r2]; [discriminate|]. simpl length in Hlen.
  destruct (inRange 0xE0 0xEF (Byte.to_N b0)) eqn:E2.
  { apply andb_true_iff in Hwf. destruct Hwf as [Hwf Hr].
    apply andb_true_iff in Hwf. destruct Hwf as [H1 H2].
    rewrite (decodeFrom_step start _ _ _ _ (lead_three _ E0 E1 E2)).
    rewrite (decodeFrom_step _ _ _ _ _ (step_more _ _ _ _ _ H1)).
    rewrite (decodeFrom_step _ _ _ _ _ (step_last _ _ _ _ H2)).
    cbn [app]. rewrite encode_cons.
    apply inRange_spec in E2. apply inRange_spec in H1. apply inRange_spec in H2.
    rewrite (encode_three _ _ _ E2 H1 H2), !byteOf_to_N.
    cbn [app]. do 3 f_equal. apply IH; [lia|exact Hr]. }
  destruct r2 as [|b3 r3]; [discriminate|]. simpl length in Hlen.
  apply andb_true_iff in Hwf. destruct Hwf as [Hwf Hr].
  apply andb_true_iff in Hwf. destruct Hwf as [Hwf H3].
  apply andb_true_iff in Hwf. destruct Hwf as [Hwf H2].
  apply andb_true_iff in Hwf. destruct Hwf as [E3 H1].
  rewrite (decodeFrom_step start _ _ _ _ (lead_four _ E0 E1 E2 E3)).
  rewrite (decodeFrom_step _ _ _ _ _ (step_more _ _ _ _ _ H1)).
  rewrite (decodeFrom_step _ _ _ _ _ (step_more _ _ _ _ _ H2)).
  rewrite (decodeFrom_step _ _ _ _ _ (step_last _ _ _ _ H3)).
  cbn [app]. rewrite encode_cons.
  apply inRange_spec in E3. apply inRange_spec in H1.
  apply inRange_spec in H2. apply inRange_spec in H3.
  rewrite (encode_four _ _ _ _ E3 H1 H2 H3), !byteOf_to_N.
  cbn [app]. do 4 f_equal. apply IH; [lia|exact Hr].
Qed.

(** A file of well-formed UTF-8 is written back as it was read. *)
Lemma recode_wellFormed (bs : list byte) : wellFormed bs = true -> recode bs = bs.
Proof. apply (recode_aux (length bs)). lia. Qed.

End Utf8Facts.

(** ** The shell and the command lines of the script *)

Module ShellFacts.
Import JsString JsStringFacts Collect CollectFacts Shell Sim.

(** *** Characters *)

Lemma bare_spec (c : ascii) :
  bare c = true ->
  blank c = false /\ Ascii.eqb c DQUOTE = false /\ Ascii.eqb c QUOTE = false
  /\ Ascii.eqb c BACKSLASH = false /\ quotable c = true
  /\ existsb (Ascii.eqb c) [ "*"; "["; BACKSLASH; "^"; LF; NUL ]%char = false
  /\ isWhite c = false.
Proof.
  destruct c as [[] [] [] [] [] [] [] []]; intros H; try discriminate H;
    repeat split; reflexivity.
Qed.

Lemma quotable_spec (c : ascii) :
  quotable c = true ->
  Ascii.eqb c DQUOTE = false /\ Ascii.eqb c BACKSLASH = false
  /\ Ascii.eqb c DOLLAR = false /\ Ascii.eqb c BACKQUOTE = false
  /\ Ascii.eqb c NUL = false.
Proof.
  destruct c as [[] [] [] [] [] [] [] []]; intros H; try discriminate H;
    repeat split; reflexivity.
Qed.

Lemma forallb_chars_app (p : ascii -> bool) (s t : string) :
  forallb p (chars (s +:+ t)) = forallb p (chars s) && forallb p (chars t).
Proof. rewrite chars_app. apply forallb_app. Qed.

Lemma readable_app (s t : string) : readable (s +:+ t) = readable s && readable t.
Proof. apply forallb_chars_app. Qed.

Lemma plain_literal (tag : string) : plain tag = true -> literal tag = true.
Proof.
  unfold plain, literal, readable. intros H. apply andb_true_iff in H. destruct H as [_ H].
  apply andb_true_iff. split; apply forallb_forall; intros c Hc;
    rewrite forallb_forall in H; destruct (bare_spec c (H c Hc)) as (_ & _ & _ & _ & Hq & Hr & _).
  - exact Hq.
  - rewrite Hr. reflexivity.
Qed.

(** *** Words *)

(** Outside quotes, the characters of a word are added to the word that
    is open. *)
Lemma lex_bare (t rest : string) (done : list string) (acc : string) :
  forallb bare (chars t) = true ->
  lex Bare done (Some acc) (t +:+ rest) = lex Bare done (Some (acc +:+ t)) rest.
Proof.
  revert acc. induction t as [|c t IH]; intros acc Ht.
  - rewrite app_empty_l, app_empty_r. reflexivity.
  - simpl in Ht. apply andb_true_iff in Ht. destruct Ht as [Hc Ht].
    destruct (bare_spec c Hc) as (Hb & Hd & Hq & Hs & _).
    rewrite app_cons. cbn [lex]. rewrite Hb, Hd, Hq, Hs, Hc.
    unfold grow. cbn [default]. rewrite (IH _ Ht), app_assoc. reflexivity.
Qed.

(** A word of such characters that stands after a blank. *)
Lemma lex_bare_word (t rest : string) (done : list string) :
  t <> "" -> forallb bare (chars t) = true ->
  lex Bare done None (t +:+ rest) = lex Bare done (Some t) rest.
Proof.
  destruct t as [|c t]; [congruence|]. intros _ Ht.
  simpl in Ht. apply andb_true_iff in Ht. destruct Ht as [Hc Ht].
  destruct (bare_spec c Hc) as (Hb & Hd & Hq & Hs & _).
  rewrite app_cons. cbn [lex]. rewrite Hb, Hd, Hq, Hs, Hc.
  unfold grow. cbn [default]. rewrite app_empty_l.
  exact (lex_bare t rest done (String c "") Ht).
Qed.

(** Between double quotes, the characters that stand for themselves. *)
Lemma lex_double (t rest : string) (done : list string) (acc : string) :
  forallb quotable (chars t) = true ->
  lex Double done (Some acc) (t +:+ rest) = lex Double done (Some (acc +:+ t)) rest.
Proof.
  revert acc. induction t as [|c t IH]; intros acc Ht.
  - rewrite app_empty_l, app_empty_r. reflexivity.
  - simpl in Ht. apply andb_true_iff in Ht. destruct Ht as [Hc Ht].
    destruct (quotable_spec c Hc) as (Hd & Hs & Hdo & Hb & Hn).
    rewrite app_cons. cbn [lex]. rewrite Hd, Hs, Hdo, Hb, Hn. cbn [orb].
    unfold grow. cbn [default]. rewrite (IH _ Ht), app_assoc. reflexivity.
Qed.

(** Between double quotes, a text in which the script has put a backslash
    before every double quote is read back as it was, when it holds no
    backslash, dollar or backquote of its own. *)
Definition quiet (c : ascii) : bool := quotable c || Ascii.eqb c DQUOTE.

Lemma lex_escaped (t rest : string) (done : list string) (acc : string) :
  forallb quiet (chars t) = true ->
  lex Double done (Some acc) (escapeQuotes t +:+ rest)
  = lex Double done (Some (acc +:+ t)) rest.
Proof.
  revert acc. induction t as [|c t IH]; intros acc Ht.
  - rewrite app_empty_r. reflexivity.
  - simpl in Ht. apply andb_true_iff in Ht. destruct Ht as [Hc Ht].
    cbn [escapeQuotes]. destruct (Ascii.eqb_spec c DQUOTE) as [->|Hne].
    + rewrite !app_cons. cbn [lex]. cbn. unfold grow. cbn [default].
      rewrite (IH _ Ht), app_assoc. reflexivity.
    + unfold quiet in Hc. apply orb_true_iff in Hc. destruct Hc as [Hc|Hc];
        [|apply Ascii.eqb_eq in Hc; congruence].
      destruct (quotable_spec c Hc) as (Hd & Hs & Hdo & Hb & Hn).
      rewrite app_cons. cbn [lex]. rewrite Hd, Hs, Hdo, Hb, Hn. cbn [orb].
      unfold grow. cbn [default]. rewrite (IH _ Ht), app_assoc. reflexivity.
Qed.

(** *** The lines of the script *)

Lemma sh_tags : sh (cmdline GitTagSorted) = Words ["git"; "tag"; "--sort=creatordate"].
Proof. reflexivity. Qed.

Lemma sh_status : sh (cmdline GitStatusPorcelain) = Words ["git"; "status"; "--porcelain"].
Proof. reflexivity. Qed.

Lemma sh_add : sh (cmdline GitAddAll) = Words ["git"; "add"; "."].
Proof. reflexivity. Qed.

(** The checkout of a plain tag: the tag is the third word. *)
Lemma sh_checkout (tag : string) :
  plain tag = true -> sh (cmdline (GitCheckout tag)) = Words ["git"; "checkout"; tag].
Proof.
  unfold plain. intros H. apply andb_true_iff in H. destruct H as [Hn Hb].
  assert (Hne : tag <> "") by (destruct tag; [discriminate Hn|discriminate]).
  change (sh (cmdline (GitCheckout tag)))
    with (lex Bare ["checkout"; "git"] None tag).
  rewrite <- (app_empty_r tag) at 1.
  rewrite (lex_bare_word tag "" _ Hne Hb). reflexivity.
Qed.

(** The ledger query: the pattern is the text between the quotes, the
    dollar before the closing quote with it. *)
Lemma sh_log (text : string) :
  forallb quotable (chars text) = true ->
  sh (cmdline (GitLogGrep (text +:+ "$")))
  = Words ["git"; "log"; "--oneline"; "--grep=" +:+ text +:+ "$"].
Proof.
  intros Ht.
  change (sh (cmdline (GitLogGrep (text +:+ "$"))))
    with (lex Double ["--oneline"; "log"; "git"] (Some "--grep=")
            ((text +:+ "$") +:+ dquote)).
  rewrite app_assoc, (lex_double text _ _ _ Ht). reflexivity.
Qed.

(** The commit: the message is the fourth word. *)
Lemma sh_commit (message : string) :
  forallb quiet (chars message) = true ->
  sh (cmdline (GitCommit (escapeQuotes message))) = Words ["git"; "commit"; "-m"; message].
Proof.
  intros Hm.
  change (sh (cmdline (GitCommit (escapeQuotes message))))
    with (lex Double ["-m"; "commit"; "git"] (Some "") (escapeQuotes message +:+ dquote)).
  rewrite (lex_escaped message _ _ _ Hm). reflexivity.
Qed.

(** *** The commands, run

    A line of the script whose tag or message the shell takes as it
    stands is git, run on the words of the line. *)

Section Run.
Variable e : setting.
Variable cwd : path.

Lemma exec_tags (w : world) : simExec e cwd GitTagSorted w = run cwd ListTags w.
Proof. reflexivity. Qed.

Lemma exec_status (w : world) : simExec e cwd GitStatusPorcelain w = run cwd Status w.
Proof. reflexivity. Qed.

Lemma exec_add (w : world) : simExec e cwd GitAddAll w = run cwd StageAll w.
Proof. reflexivity. Qed.

Lemma request_checkout (tag : string) :
  request_of ["git"; "checkout"; tag] = if named tag then Some (Checkout tag) else None.
Proof. reflexivity. Qed.

Lemma request_log (pattern : string) :
  request_of ["git"; "log"; "--oneline"; "--grep=" +:+ pattern]
  = if readable pattern then Some (Log pattern) else None.
Proof. reflexivity. Qed.

Lemma exec_checkout (tag : string) (w : world) :
  plain tag = true -> simExec e cwd (GitCheckout tag) w = run cwd (Checkout tag) w.
Proof.
  intros Hp. unfold simExec, shell. rewrite (sh_checkout tag Hp), request_checkout.
  unfold plain in Hp. apply andb_true_iff in Hp. destruct Hp as [Hn _].
  rewrite Hn. reflexivity.
Qed.

Lemma exec_log (tag : string) (w : world) :
  literal tag = true ->
  simExec e cwd (GitLogGrep (ledgerPattern tag)) w = run cwd (Log (ledgerPattern tag)) w.
Proof.
  unfold literal. intros Hl. apply andb_true_iff in Hl. destruct Hl as [Hq Hr].
  assert (Ep : ledgerPattern tag = ("Add metadata for " +:+ tag) +:+ "$").
  { unfold ledgerPattern. symmetry. apply app_assoc. }
  unfold simExec, shell. rewrite Ep, sh_log, request_log.
  - rewrite !readable_app, Hr. reflexivity.
  - rewrite forallb_chars_app, Hq. reflexivity.
Qed.

Lemma exec_commit (message : string) (w : world) :
  forallb quiet (chars message) = true -> tidy message = true ->
  simExec e cwd (GitCommit (escapeQuotes message)) w = run cwd (Commit message) w.
Proof.
  intros Hm Ht. unfold simExec, shell. rewrite (sh_commit message Hm).
  change (request_of ["git"; "commit"; "-m"; message])
    with (if tidy message then Some (Commit message) else None).
  rewrite Ht. reflexivity.
Qed.



(** A command acts on the repository it is run in, and on no other. *)
Lemma exec_keeps_others (c : command) (w w' : world) (out : result string) (other : path) :
  simExec e cwd c w = (w', out) -> other <> cwd ->
  w_repos w' !! other = w_repos w !! other.
Proof.
  intros E Hne.
  assert (Hout : forall line, unread e cwd line w = (w', out) ->
                              w_repos w' !! other = w_repos w !! other).
  { intros line. unfold unread. destruct (isQuery line).
    - intros E'. inversion E'; subst. reflexivity.
    - destruct (acts e line (w_repos w !! cwd) (w_fs w)) as [[r' fs'] o].
      intros E'. inversion E'; subst. cbn [w_repos].
      apply lookup_partial_alter_ne. congruence. }
  unfold simExec, shell in E.
  destruct (sh (cmdline c)) as [ws| |]; [|inversion E; subst; reflexivity|exact (Hout _ E)].
  destruct (request_of ws) as [q|]; [|exact (Hout _ E)].
  unfold run in E. destruct (w_repos w !! cwd) as [r|]; [|inversion E; subst; reflexivity].
  destruct q.
  - inversion E; subst; reflexivity.
  - inversion E; subst; reflexivity.
  - destruct (gitCheckout cwd ref r (w_fs w)) as [[fs' r']|err];
      inversion E; subst; [|reflexivity].
    unfold setRepo. cbn [w_repos]. apply lookup_insert_ne. congruence.
  - inversion E; subst; reflexivity.
  - inversion E; subst; reflexivity.
  - destruct (gitCommit cwd message r (w_fs w)) as [r'|err];
      inversion E; subst; [|reflexivity].
    unfold setRepo. cbn [w_repos]. apply lookup_insert_ne. congruence.
Qed.

End Run.

End ShellFacts.

(** ** The script on the platform in memory *)

Module SimFacts.
Import JsString JsArray JsStringFacts JsArrayFacts Collect CollectFacts Utf8 Utf8Facts.
Import Shell Sim ShellFacts.

(** *** The ledger *)

(** A pattern made of a text and the closing dollar matches the text. *)
Lemma matchHere_self (text : string) : matchHere (text +:+ "$") text = true.
Proof.
  induction text as [|c text IH].
  - reflexivity.
  - rewrite app_cons. simpl matchHere.
    assert (E : String.eqb (text +:+ "$") "" = false).
    { destruct text; reflexivity. }
    rewrite E, andb_false_r, Ascii.eqb_refl, orb_true_r, IH. reflexivity.
Qed.

Lemma grepLine_here (pattern line : string) :
  matchHere pattern line = true -> grepLine pattern line = true.
Proof. intros Hm. destruct line; cbn [grepLine]; rewrite Hm; reflexivity. Qed.

Lemma grepLine_self (text : string) : grepLine (text +:+ "$") text = true.
Proof. apply grepLine_here, matchHere_self. Qed.

(** The first line of a message is one of its lines. *)
Lemma subject_In (c : commit) : In (subject c) (split LF (c_message c)).
Proof.
  unfold subject. destruct (split LF (c_message c)) as [|l ls] eqn:E.
  - exfalso. exact (split_nonempty _ _ E).
  - left. reflexivity.
Qed.

Lemma grepCommit_subject (tag : string) (c : commit) :
  subject c = "Add metadata for " +:+ tag ->
  grepCommit (ledgerPattern tag) c = true.
Proof.
  intros Hs. unfold grepCommit. apply existsb_exists.
  exists (subject c). split; [apply subject_In|].
  rewrite Hs. unfold ledgerPattern. rewrite <- app_assoc. apply grepLine_self.
Qed.

Lemma hexDigit_solid (n : N) : isWhite (hexDigit n) = false.
Proof.
  unfold hexDigit.
  assert (Hlt : (N.to_nat (n mod 16) < 16)%nat).
  { pose proof (N.mod_upper_bound n 16). lia. }
  remember (N.to_nat (n mod 16)) as k eqn:Hk. clear Hk.
  do 16 (destruct k as [|k]; [reflexivity|]). lia.
Qed.

Lemma oneline_solid (c : commit) : solid (oneline c).
Proof.
  unfold oneline. apply solid_app_l.
  exists (hexDigit (c_hash c / 16 ^ 6)). split; [left; reflexivity|apply hexDigit_solid].
Qed.

(** The tag has a commit whose first line is its marker. *)
Definition marked (root : path) (w : world) (tag : string) : Prop :=
  exists r c,
    w_repos w !! root = Some r /\ In c (r_head r) /\
    subject c = "Add metadata for " +:+ tag.

(** The ledger query finds the commit of a marked tag, and changes
    nothing. *)
Lemma gitLog_marked (e : setting) (root : path) (w : world) (tag : string) :
  literal tag = true ->
  marked root w tag ->
  exists stdout,
    simExec e root (GitLogGrep (ledgerPattern tag)) w = (w, Ok stdout) /\
    (0 <? String.length (trim stdout))%nat = true.
Proof.
  intros Hl (r & c & Hr & Hin & Hs).
  rewrite (exec_log e root tag w Hl). unfold run. rewrite Hr. unfold gitLog.
  destruct (r_head r) as [|c0 h] eqn:Hh; [destruct Hin|].
  eexists. split; [reflexivity|].
  assert (Hf : In c (List.filter (grepCommit (ledgerPattern tag)) (c0 :: h))).
  { apply filter_In. split; [exact Hin|apply grepCommit_subject, Hs]. }
  destruct (List.filter (grepCommit (ledgerPattern tag)) (c0 :: h)) as [|c1 cs];
    [destruct Hf|].
  simpl map. apply trim_solid, solid_concat, oneline_solid.
Qed.

(** *** The status of the working tree *)

Lemma filter_none {A} (p : A -> bool) (l : list A) :
  (forall x, In x l -> p x = false) -> List.filter p l = [].
Proof.
  induction l as [|x l IH]; intros Hp; [reflexivity|]. simpl.
  rewrite (Hp x) by (left; reflexivity). apply IH. intros y Hy. apply Hp. right. exact Hy.
Qed.

(** Two trees differ nowhere exactly when they are the same tree. *)
Lemma changedPaths_nil (a b : tree) : changedPaths a b = [] <-> a = b.
Proof.
  unfold changedPaths. split.
  - intros Hnil. apply map_eq. intros p.
    destruct (decide (a !! p = b !! p)) as [E|Hne]; [exact E|]. exfalso.
    assert (Hin : In p (List.filter (fun p => bool_decide (a !! p <> b !! p))
                          (elements (dom a ∪ dom b)))).
    { apply filter_In. split.
      - apply list_elem_of_In, elem_of_elements, elem_of_union.
        rewrite !elem_of_dom.
        destruct (a !! p) eqn:Ea; [left; eauto|].
        destruct (b !! p) eqn:Eb; [right; eauto|]. congruence.
      - apply bool_decide_eq_true. exact Hne. }
    rewrite Hnil in Hin. destruct Hin.
  - intros ->. apply filter_none. intros p _.
    apply bool_decide_eq_false. intros Hne. apply Hne. reflexivity.
Qed.

Lemma statusLine_solid (wt hd : tree) (p : path) : solid (statusLine wt hd p).
Proof.
  unfold statusLine. apply solid_app_l.
  destruct (hd !! p), (wt !! p);
    first [ exists "?"%char; split; [left; reflexivity|reflexivity]
          | exists "M"%char; split; [right; left; reflexivity|reflexivity]
          | exists "D"%char; split; [right; left; reflexivity|reflexivity] ].
Qed.

(** The status is empty, once trimmed, exactly when the working tree is
    the tree of the head. *)
Lemma statusOutput_clean (wt hd : tree) : trim (statusOutput wt hd) = "" <-> wt = hd.
Proof.
  rewrite <- changedPaths_nil. unfold statusOutput. split.
  - intros Ht. destruct (changedPaths wt hd) as [|p ps]; [reflexivity|]. exfalso.
    simpl map in Ht.
    apply (proj1 (trim_solid _ (solid_concat "" _ (map (statusLine wt hd) ps)
                                     (statusLine_solid wt hd p)))).
    exact Ht.
  - intros ->. reflexivity.
Qed.

(** *** Paths *)

Lemma ancestors_In (p q : path) :
  In q (ancestors p) <-> exists n, (1 <= n <= length p)%nat /\ q = firstn n p.
Proof.
  unfold ancestors. rewrite in_map_iff. split.
  - intros (n & <- & Hn). apply in_seq in Hn. exists n. split; [lia|reflexivity].
  - intros (n & Hn & ->). exists n. split; [reflexivity|]. apply in_seq. lia.
Qed.

Lemma ancestors_length (p q : path) :
  In q (ancestors p) -> (1 <= length q <= length p)%nat.
Proof.
  rewrite ancestors_In. intros (n & Hn & ->). rewrite length_firstn. lia.
Qed.

Lemma ancestors_self (p : path) : p <> [] -> In p (ancestors p).
Proof.
  intros Hp. apply ancestors_In. exists (length p). split.
  - destruct p; [congruence|simpl; lia].
  - symmetry. apply firstn_all.
Qed.

(** The directories [mkdir] makes. *)
Definition madeDirs (d : path) (fs : gmap path node) : gmap path node :=
  fold_left (fun fs q => <[q := Dir]> fs) (ancestors d) fs.

Lemma insertDirs_lookup (l : list path) (fs : gmap path node) (p : path) :
  fold_left (fun fs q => <[q := Dir]> fs) l fs !! p
  = if decide (p ∈ l) then Some Dir else fs !! p.
Proof.
  revert fs. induction l as [|q l IH]; intros fs.
  - simpl. destruct (decide (p ∈ [])) as [Hin|_]; [|reflexivity].
    apply elem_of_nil in Hin. destruct Hin.
  - simpl fold_left. rewrite IH.
    destruct (decide (p ∈ l)) as [Hin|Hn].
    + destruct (decide (p ∈ q :: l)) as [_|Hc]; [reflexivity|].
      exfalso. apply Hc. right. exact Hin.
    + destruct (decide (q = p)) as [->|Hne].
      * rewrite lookup_insert_eq.
        destruct (decide (p ∈ p :: l)) as [_|Hc]; [reflexivity|].
        exfalso. apply Hc. left.
      * rewrite lookup_insert_ne by exact Hne.
        destruct (decide (p ∈ q :: l)) as [Hin|_]; [|reflexivity].
        apply elem_of_cons in Hin. destruct Hin as [E|Hin]; [congruence|tauto].
Qed.

Lemma madeDirs_made (d : path) (fs : gmap path node) (p : path) :
  In p (ancestors d) -> madeDirs d fs !! p = Some Dir.
Proof.
  intros Hin. unfold madeDirs. rewrite insertDirs_lookup.
  destruct (decide (p ∈ ancestors d)) as [_|Hn]; [reflexivity|].
  exfalso. apply Hn, list_elem_of_In, Hin.
Qed.

Lemma madeDirs_other (d : path) (fs : gmap path node) (p : path) :
  ~ In p (ancestors d) -> madeDirs d fs !! p = fs !! p.
Proof.
  intros Hn. unfold madeDirs. rewrite insertDirs_lookup.
  destruct (decide (p ∈ ancestors d)) as [Hin|_]; [|reflexivity].
  exfalso. apply Hn, list_elem_of_In, Hin.
Qed.

(** No file is in the way of the directory [d], and the destination [t]
    is not a directory. *)
Definition canMake (d : path) (fs : gmap path node) : bool :=
  negb (existsb (fun q => isFile (fs !! q)) (ancestors d)).

Definition canWrite (t : path) (fs : gmap path node) : bool :=
  canMake (dirname t) fs && negb (isDir (fs !! t)).

Lemma canMake_spec (d : path) (fs : gmap path node) :
  canMake d fs = true <-> forall q, In q (ancestors d) -> isFile (fs !! q) = false.
Proof.
  unfold canMake. rewrite negb_true_iff. split.
  - intros He q Hq. destruct (isFile (fs !! q)) eqn:E; [|reflexivity].
    assert (Hx : existsb (fun q => isFile (fs !! q)) (ancestors d) = true)
      by (apply existsb_exists; exists q; split; assumption).
    congruence.
  - intros Hall. destruct (existsb _ _) eqn:E; [|reflexivity].
    apply existsb_exists in E. destruct E as (q & Hq & Hf).
    rewrite (Hall q Hq) in Hf. discriminate.
Qed.

(** *** Worlds to run the script in *)

(** No variable of the environment is set: the two repositories are at
    their default places.  The process works in the root directory, and
    every command line beyond the model fails. *)
Definition noEnvironment : setting :=
  {| variables := fun _ => None;
     directory := [];
     reads := fun _ _ => Err "not run";
     acts := fun _ r fs => (r, fs, Err "not run") |}.

Definition bytesOf (s : string) : list byte := list_byte_of_string s.

Definition geminiRoot : path := ["Users"; "pavel"; "src"; "gemini-cli"].
Definition trackingRoot : path := ["Users"; "pavel"; "src"; "gemini-prompts"].
Definition promptsSource : path := ["packages"; "core"; "src"; "core"; "prompts.ts"].
Definition registrySource : path := ["packages"; "core"; "src"; "tools"; "tool-registry.ts"].

(** The external repository: two releases and the branch [main]. *)
Definition release1 : commit :=
  {| c_hash := 0x1a2b3c4; c_message := "release 0.1.0";
     c_tree := {[ promptsSource := bytesOf "prompt, first version" ]} |}.
Definition release2 : commit :=
  {| c_hash := 0x2b3c4d5; c_message := "release 0.2.0";
     c_tree := {[ promptsSource := bytesOf "prompt, second version";
                  registrySource := bytesOf "tools" ]} |}.
Definition tip : commit :=
  {| c_hash := 0x3c4d5e6; c_message := "work in progress";
     c_tree := {[ promptsSource := bytesOf "prompt, third version";
                  registrySource := bytesOf "tools" ]} |}.

Definition gemini : repo :=
  {| r_tags := [("v0.1.0", [release1]); ("nightly", [release2; release1]);
                ("v0.2.0", [release2; release1])];
     r_branches := [("main", [tip; release2; release1])];
     r_head := [tip; release2; release1];
     r_branch := Some "main";
     r_identity := true |}.

(** The tracking repository after its first commit. *)
Definition initial : commit :=
  {| c_hash := 0x0f0f0f0; c_message := "Initial commit";
     c_tree := {[ ["README.md"] := bytesOf "# Gemini CLI Prompt Collection" ]} |}.

Definition tracking (h : history) : repo :=
  {| r_tags := []; r_branches := [("main", h)]; r_head := h;
     r_branch := Some "main"; r_identity := true |}.

Definition files : gmap path node :=
  {[ (geminiRoot ++ promptsSource)%list := File (bytesOf "prompt, third version");
     (geminiRoot ++ registrySource)%list := File (bytesOf "tools");
     (trackingRoot ++ ["README.md"])%list := File (bytesOf "# Gemini CLI Prompt Collection") ]}.

(** Nothing was collected yet. *)
Definition world0 : world :=
  {| w_fs := files;
     w_repos := {[ geminiRoot := gemini; trackingRoot := tracking [initial] ]} |}.

(** The tracking repository has no commit at all. *)
Definition worldFresh : world :=
  {| w_fs := delete (trackingRoot ++ ["README.md"])%list files;
     w_repos := {[ geminiRoot := gemini; trackingRoot := tracking [] ]} |}.

(** Both releases were collected: the world after a run of the script
    where nothing was collected yet, and the two commits it made. *)
Definition collected1 : commit :=
  {| c_hash := 1;
     c_message := commitMessage "v0.1.0" ["Core prompts"] ["Tool registry"];
     c_tree := {[ ["README.md"] := bytesOf "# Gemini CLI Prompt Collection";
                  ["prompts"; "prompts.ts"] := bytesOf "prompt, first version" ]} |}.
Definition collected2 : commit :=
  {| c_hash := 2;
     c_message := commitMessage "v0.2.0" ["Core prompts"; "Tool registry"] [];
     c_tree := {[ ["README.md"] := bytesOf "# Gemini CLI Prompt Collection";
                  ["prompts"; "prompts.ts"] := bytesOf "prompt, second version";
                  ["tools"; "tool-registry.ts"] := bytesOf "tools" ]} |}.

Definition worldDone : world :=
  world_of (@script world (platform noEnvironment) ["node"; "collect.ts"] world0).

(** Someone edited the prompts in the working tree of the external
    repository: git refuses to check out a release. *)
Definition worldEdited : world :=
  {| w_fs := <[ (geminiRoot ++ promptsSource)%list := File (bytesOf "local edit") ]> files;
     w_repos := w_repos world0 |}.

Section OnPlatform.
Variable environment : setting.
#[local] Instance sim : Platform world := platform environment.


(** The shell reads the message of a commit back as the script built
    it, when neither the tag nor a label holds a backslash, a dollar or a
    backquote. *)
Lemma quiet_message (tag : string) (extracted missing : list string) :
  forallb quiet (chars tag) = true ->
  Forall (fun l => forallb quiet (chars l) = true) (extracted ++ missing) ->
  forallb quiet (chars (commitMessage tag extracted missing)) = true.
Proof.
  intros Htag Hlabels. apply forallb_forall. intros c Hin.
  apply MessageFacts.commitMessage_chars in Hin.
  destruct Hin as [Hin|[->|[Hin|(l & Hl & Hin)]]].
  - simpl in Hin. repeat (destruct Hin as [<-|Hin]; [reflexivity|]). destruct Hin.
  - reflexivity.
  - rewrite forallb_forall in Htag. exact (Htag c Hin).
  - rewrite List.Forall_forall in Hlabels. pose proof (Hlabels l Hl) as Hq.
    rewrite forallb_forall in Hq. exact (Hq c Hin).
Qed.

Lemma plain_quiet (tag : string) : plain tag = true -> forallb quiet (chars tag) = true.
Proof.
  unfold plain. intros H. apply andb_true_iff in H. destruct H as [_ H].
  apply forallb_forall. intros c Hc. rewrite forallb_forall in H.
  destruct (bare_spec c (H c Hc)) as (_ & _ & _ & _ & Hq & _).
  unfold quiet. rewrite Hq. reflexivity.
Qed.

Lemma literal_oneLine (tag : string) : literal tag = true -> MessageFacts.oneLine tag.
Proof.
  unfold literal, readable. intros H. apply andb_true_iff in H. destruct H as [_ H].
  intros Hin. rewrite forallb_forall in H. specialize (H LF Hin). discriminate H.
Qed.

(** The labels of the configured files. *)
Definition configured (labels : list string) : Prop :=
  Forall (fun l => In l (map name SOURCE_FILES)) labels.

Lemma configured_quiet (labels : list string) :
  configured labels -> Forall (fun l => forallb quiet (chars l) = true) labels.
Proof.
  apply List.Forall_impl. intros l [<-|[<-|[]]]; reflexivity.
Qed.

(** *** The message as git records it *)

Lemma endsSolid_app (s t : string) : t <> "" -> endsSolid (s +:+ t) = endsSolid t.
Proof.
  intros Ht. unfold endsSolid. rewrite chars_app, rev_app_distr.
  destruct t as [|c t]; [congruence|].
  simpl chars. simpl rev. destruct (rev (chars t)); reflexivity.
Qed.

Lemma plain_endsSolid (tag : string) : plain tag = true -> endsSolid tag = true.
Proof.
  unfold plain, endsSolid. intros H. apply andb_true_iff in H. destruct H as [_ H].
  rewrite forallb_forall in H.
  destruct (rev (chars tag)) as [|c l] eqn:E; [reflexivity|].
  assert (Hc : In c (chars tag)).
  { apply in_rev. rewrite E. left. reflexivity. }
  destruct (bare_spec c (H c Hc)) as (_ & _ & _ & _ & _ & _ & Hw).
  rewrite Hw. reflexivity.
Qed.

Lemma plain_nonempty (tag : string) : plain tag = true -> tag <> "".
Proof. destruct tag; [discriminate|discriminate]. Qed.

Lemma tidyFrom_cons (prev l : string) (rest : list string) :
  rest <> [] ->
  tidyFrom prev (l :: rest)
  = endsSolid l && negb (String.eqb prev "" && String.eqb l "") && tidyFrom l rest.
Proof. destruct rest; [congruence|reflexivity]. Qed.

Lemma last_cons {A} (a : A) (l : list A) (d : A) : List.last (a :: l) d = List.last l a.
Proof.
  revert a d. induction l as [|b l IH]; intros a d; [reflexivity|].
  change (List.last (a :: b :: l) d) with (List.last (b :: l) d).
  rewrite !IH. reflexivity.
Qed.

(** Lines that end without white space, none of them empty, pass. *)
Lemma tidyFrom_solid (bs rest : list string) (prev : string) :
  rest <> [] ->
  Forall (fun b => endsSolid b = true /\ String.eqb b "" = false) bs ->
  tidyFrom prev (bs ++ rest) = tidyFrom (List.last bs prev) rest.
Proof.
  intros Hrest Hall. revert prev.
  induction Hall as [|b bs [Hs Hne] _ IH]; intros prev; [reflexivity|].
  change ((b :: bs) ++ rest) with (b :: (bs ++ rest)).
  rewrite tidyFrom_cons.
  - rewrite Hs, Hne, andb_false_r, IH, last_cons. reflexivity.
  - intros E. apply app_eq_nil in E. destruct E as [_ E]. congruence.
Qed.

Lemma bullets_solid (labels : list string) :
  configured labels ->
  Forall (fun b => endsSolid b = true /\ String.eqb b "" = false)
         (map (String.append "- ") labels).
Proof.
  intros H. apply List.Forall_map. revert H. apply List.Forall_impl.
  intros l [<-|[<-|[]]]; split; reflexivity.
Qed.

Lemma last_solid (bs : list string) (prev : string) :
  Forall (fun b => endsSolid b = true /\ String.eqb b "" = false) bs ->
  String.eqb prev "" = false -> String.eqb (List.last bs prev) "" = false.
Proof.
  intros Hall. revert prev.
  induction Hall as [|b bs [_ Hne] Hall IH]; intros prev Hp; [exact Hp|].
  rewrite last_cons. apply IH, Hne.
Qed.

Lemma configured_oneLine (labels : list string) :
  configured labels -> Forall MessageFacts.oneLine labels.
Proof.
  apply List.Forall_impl. intros l [<-|[<-|[]]]; absent.
Qed.

(** The message of a plain tag and of configured labels is recorded as it
    is given. *)
Lemma tidy_message (tag : string) (extracted missing : list string) :
  plain tag = true -> configured (extracted ++ missing) ->
  tidy (commitMessage tag extracted missing) = true.
Proof.
  intros Hplain Hlabels. apply Forall_app in Hlabels. destruct Hlabels as [He Hm].
  unfold tidy.
  rewrite (MessageFacts.commitMessage_lines tag extracted missing
             (literal_oneLine tag (plain_literal tag Hplain))
             (configured_oneLine _ He) (configured_oneLine _ Hm)).
  unfold MessageFacts.messageLines.
  set (first := "Add metadata for " +:+ tag).
  assert (Hf : String.eqb first "" = false) by reflexivity.
  assert (Hs : endsSolid first = true).
  { unfold first. rewrite (endsSolid_app _ _ (plain_nonempty tag Hplain)).
    apply plain_endsSolid, Hplain. }
  rewrite <- !List.app_assoc. cbn [app]. rewrite Hf, Hs. cbn [negb andb].
  pose proof (bullets_solid _ He) as Hbe. pose proof (bullets_solid _ Hm) as Hbm.
  rewrite tidyFrom_cons by discriminate.
  rewrite tidyFrom_cons.
  2:{ intros E. apply app_eq_nil in E. destruct E as [_ E].
      apply app_eq_nil in E. destruct E as [_ E]. discriminate E. }
  rewrite Hf. change (endsSolid "") with true. change (endsSolid "Extracted:") with true.
  cbn [andb negb String.eqb].
  assert (Hend : forall bs prev,
            Forall (fun b => endsSolid b = true /\ String.eqb b "" = false) bs ->
            String.eqb prev "" = false -> tidyFrom prev (bs ++ [""]) = true).
  { intros bs prev Hbs Hprev. rewrite (tidyFrom_solid bs [""] prev); [|discriminate|exact Hbs].
    cbn [tidyFrom]. rewrite (last_solid bs prev Hbs Hprev). reflexivity. }
  destruct missing as [|m missing].
  - cbn [app]. apply Hend; [exact Hbe|reflexivity].
  - rewrite (tidyFrom_solid (map (String.append "- ") extracted) _ "Extracted:");
      [|discriminate|exact Hbe].
    set (p := List.last (map (String.append "- ") extracted) "Extracted:").
    assert (Hp : String.eqb p "" = false) by (apply last_solid; [exact Hbe|reflexivity]).
    change (("" :: "Missing:" :: map (String.append "- ") (m :: missing)) ++ [""])
      with ("" :: "Missing:" :: (map (String.append "- ") (m :: missing) ++ [""])).
    rewrite tidyFrom_cons by discriminate.
    rewrite tidyFrom_cons by discriminate.
    rewrite Hp. change (endsSolid "") with true. change (endsSolid "Missing:") with true.
    cbn [andb negb String.eqb].
    apply Hend; [exact Hbm|reflexivity].
Qed.



(** A commit made by [commitChanges]. *)
Definition commitOn (r : repo) (message : string) (wt : tree) : commit :=
  {| c_hash := N.of_nat (length (r_head r)); c_message := message; c_tree := wt |}.

Definition committedTo (r : repo) (c : commit) : repo :=
  {| r_tags := r_tags r;
     r_branches := setBranch (r_branch r) (c :: r_head r) (r_branches r);
     r_head := c :: r_head r;
     r_branch := r_branch r; r_identity := r_identity r |}.

(** When the working tree of the tracking repository differs from its
    last commit and the committer is known, [commitChanges] stages, commits
    and logs it. *)
Lemma commitChanges_commits (tag : string) (extracted missing : list string)
      (w : world) (r : repo) :
  w_repos w !! COLLECTION_REPO_PATH = Some r ->
  r_identity r = true ->
  worktree COLLECTION_REPO_PATH (w_fs w) <> headTree (r_head r) ->
  plain tag = true ->
  configured (extracted ++ missing) ->
  commitChanges tag extracted missing w
  = (setRepo COLLECTION_REPO_PATH
       (committedTo r (commitOn r (commitMessage tag extracted missing)
                         (worktree COLLECTION_REPO_PATH (w_fs w))))
       (w_fs w) w,
     [EvExec COLLECTION_REPO_PATH GitStatusPorcelain;
      EvExec COLLECTION_REPO_PATH GitAddAll;
      EvExec COLLECTION_REPO_PATH
        (GitCommit (escapeQuotes (commitMessage tag extracted missing)));
      EvLog "  ✓ Committed changes"], Ret tt).
Proof.
  intros Hr Hid Hdiff Hplain Hlabels.
  pose proof (quiet_message tag extracted missing (plain_quiet tag Hplain)
                (configured_quiet _ Hlabels)) as Hquiet.
  pose proof (tidy_message tag extracted missing Hplain Hlabels) as Htidy.
  unfold commitChanges, try_, bind, execAsync, lift, console_log, committedTo, commitOn.
  assert (Hs : String.eqb (trim (statusOutput (worktree COLLECTION_REPO_PATH (w_fs w))
                                   (headTree (r_head r)))) "" = false).
  { apply String.eqb_neq. intros E. apply statusOutput_clean in E. exact (Hdiff E). }
  change (exec COLLECTION_REPO_PATH GitStatusPorcelain w)
    with (run COLLECTION_REPO_PATH Status w).
  unfold run at 1. rewrite Hr, Hs. cbv beta iota.
  change (exec COLLECTION_REPO_PATH GitAddAll w)
    with (run COLLECTION_REPO_PATH StageAll w).
  unfold run at 1. rewrite Hr. cbv beta iota.
  change (exec COLLECTION_REPO_PATH ?c w)
    with (simExec environment COLLECTION_REPO_PATH c w).
  rewrite (exec_commit environment _ _ w Hquiet Htidy).
  unfold run, gitCommit. rewrite Hr, Hid. cbn [negb].
  rewrite bool_decide_eq_false_2 by exact Hdiff.
  reflexivity.
Qed.

(** The marker is written as it is searched: after such a commit the tag
    is marked, so that a later turn for it is skipped. *)
Lemma commitChanges_marks (tag : string) (extracted missing : list string)
      (w : world) (r : repo) :
  w_repos w !! COLLECTION_REPO_PATH = Some r ->
  r_identity r = true ->
  worktree COLLECTION_REPO_PATH (w_fs w) <> headTree (r_head r) ->
  plain tag = true ->
  configured (extracted ++ missing) ->
  marked COLLECTION_REPO_PATH (world_of (commitChanges tag extracted missing w)) tag.
Proof.
  intros Hr Hid Hdiff Hplain Hlabels.
  rewrite (commitChanges_commits tag extracted missing w r Hr Hid Hdiff Hplain Hlabels).
  unfold world_of. cbn [fst].
  eexists _, _. split; [|split].
  - unfold setRepo. cbn [w_repos]. apply lookup_insert_eq.
  - left. reflexivity.
  - unfold subject, commitOn. cbn [c_message].
    destruct (MessageFacts.commitMessage_first_line tag extracted missing
                (literal_oneLine tag (plain_literal tag Hplain))) as [rest ->].
    reflexivity.
Qed.

(** C8.  A commit is made only when the working tree differs from the
    last commit.  On any platform: when the status query reports nothing,
    [commitChanges] runs that query, logs that there is nothing to commit
    and returns; it stages nothing, commits nothing, and the world is the
    one the query left.  On the platform in memory, where the status is
    empty exactly when the working tree of the tracking repository is the
    tree of its last commit: in that case [commitChanges] leaves the world
    as it was, and a trace of [commitChanges] with a commit in it is the
    trace of a run whose working tree differed from the last commit. *)
Theorem commit_only_on_change (tag : string) (extracted missing : list string) :
  (forall (W : Type) (P : Platform W) (w w1 : W) (statusOutput : string),
     @exec W P (@COLLECTION_REPO_PATH W P) GitStatusPorcelain w = (w1, Ok statusOutput) ->
     trim statusOutput = "" ->
     @commitChanges W P tag extracted missing w
     = (w1, [EvExec (@COLLECTION_REPO_PATH W P) GitStatusPorcelain;
             EvLog "  No changes to commit"], Ret tt))
  /\ (forall (w : world) (r : repo),
        w_repos w !! COLLECTION_REPO_PATH = Some r ->
        (worktree COLLECTION_REPO_PATH (w_fs w) = headTree (r_head r) ->
         commitChanges tag extracted missing w
         = (w, [EvExec COLLECTION_REPO_PATH GitStatusPorcelain;
                EvLog "  No changes to commit"], Ret tt))
        /\ (forall quoted,
              In (EvExec COLLECTION_REPO_PATH (GitCommit quoted))
                 (trace_of (commitChanges tag extracted missing w)) ->
              worktree COLLECTION_REPO_PATH (w_fs w) <> headTree (r_head r))).
Proof.
  split.
  - intros W P w w1 statusOutput Hs Ht.
    exact (commitChanges_clean tag extracted missing w w1 statusOutput Hs Ht).
  - intros w r Hr.
    assert (Hs : exec COLLECTION_REPO_PATH GitStatusPorcelain w
                 = (w, Ok (statusOutput (worktree COLLECTION_REPO_PATH (w_fs w))
                             (headTree (r_head r))))).
    { change (exec COLLECTION_REPO_PATH GitStatusPorcelain w)
        with (run COLLECTION_REPO_PATH Status w).
      unfold run. rewrite Hr. reflexivity. }
    split.
    + intros Heq. apply (commitChanges_clean tag extracted missing w w _ Hs).
      apply statusOutput_clean, Heq.
    + intros quoted Hin Heq.
      apply statusOutput_clean in Heq.
      rewrite (commitChanges_clean tag extracted missing w w _ Hs Heq) in Hin.
      simpl in Hin. destruct Hin as [E|[E|[]]]; discriminate.
Qed.

(** *** Extraction *)

Definition sourceOf (file : SourceFile) : path :=
  join (@GEMINI_REPO_PATH world sim) (sourcePath file).
Definition targetOf (file : SourceFile) : path :=
  join (@COLLECTION_REPO_PATH world sim) (targetPath file).

(** The world after a file was written. *)
Definition written (w : world) (t : path) (bytes : list byte) : world :=
  {| w_fs := <[t := File (recode bytes)]> (madeDirs (dirname t) (w_fs w));
     w_repos := w_repos w |}.

Definition withDirs (w : world) (d : path) : world :=
  {| w_fs := madeDirs d (w_fs w); w_repos := w_repos w |}.

Lemma dirname_length (p : path) : length (dirname p) = Nat.pred (length p).
Proof.
  unfold dirname. induction p as [|a p IH]; [reflexivity|].
  destruct p as [|b p]; [reflexivity|]. simpl removelast in *. simpl length in *. lia.
Qed.

Lemma target_not_above (t : path) : t <> [] -> ~ In t (ancestors (dirname t)).
Proof.
  intros Ht Hin. apply ancestors_length in Hin. rewrite dirname_length in Hin.
  destruct t; [congruence|simpl in Hin; lia].
Qed.

(** The four calls of one turn, on the platform in memory. *)
Lemma access_file (w : world) (p : path) (bytes : list byte) :
  w_fs w !! p = Some (File bytes) ->
  @access world sim p w = (w, [EvAccess p], Ret tt).
Proof.
  intros E. unfold access, lift. simpl fs_access. unfold simAccess. rewrite E.
  destruct p; reflexivity.
Qed.

Lemma access_not_file (w : world) (p : path) :
  (forall bytes, w_fs w !! p <> Some (File bytes)) ->
  exists o, @access world sim p w = (w, [EvAccess p], o)
            /\ (o = Ret tt \/ exists e, o = Throw e).
Proof.
  intros _. unfold access, lift. simpl fs_access. unfold simAccess.
  destruct p; [eauto|]. destruct (w_fs w !! _); eauto.
Qed.

Lemma readFile_file (w : world) (p : path) (bytes : list byte) :
  w_fs w !! p = Some (File bytes) ->
  @readFile world sim p w = (w, [EvReadFile p], Ret (decode bytes)).
Proof.
  intros E. unfold readFile, lift. simpl fs_readFile. unfold simReadFile. rewrite E.
  reflexivity.
Qed.

Lemma readFile_not_file (w : world) (p : path) :
  (forall bytes, w_fs w !! p <> Some (File bytes)) ->
  exists e, @readFile world sim p w = (w, [EvReadFile p], Throw e).
Proof.
  intros Hn. unfold readFile, lift. simpl fs_readFile. unfold simReadFile.
  destruct (w_fs w !! p) as [[bytes|]|] eqn:E.
  - exfalso. exact (Hn bytes eq_refl).
  - eauto.
  - destruct p; eauto.
Qed.

Lemma mkdir_made (w : world) (d : path) :
  canMake d (w_fs w) = true ->
  @mkdir world sim d w = (withDirs w d, [EvMkdir d], Ret tt).
Proof.
  intros E. unfold mkdir, lift. simpl fs_mkdir. unfold simMkdir.
  unfold canMake in E. apply negb_true_iff in E. rewrite E. reflexivity.
Qed.

Lemma mkdir_refused (w : world) (d : path) :
  canMake d (w_fs w) = false ->
  exists e, @mkdir world sim d w = (w, [EvMkdir d], Throw e).
Proof.
  intros E. unfold mkdir, lift. simpl fs_mkdir. unfold simMkdir.
  unfold canMake in E. apply negb_false_iff in E. rewrite E. eauto.
Qed.

Lemma writeFile_written (w : world) (t : path) (content : text) :
  t <> [] -> isDir (w_fs w !! t) = false -> parentIsDir t (w_fs w) = true ->
  @writeFile world sim t content w
  = ({| w_fs := <[t := File (encode content)]> (w_fs w); w_repos := w_repos w |},
     [EvWriteFile t content], Ret tt).
Proof.
  intros Ht Hd Hp. unfold writeFile, lift. simpl fs_writeFile. unfold simWriteFile.
  destruct t; [congruence|]. rewrite Hd, Hp. reflexivity.
Qed.

Lemma writeFile_refused (w : world) (t : path) (content : text) :
  isDir (w_fs w !! t) = true ->
  exists e, @writeFile world sim t content w
            = (w, [EvWriteFile t content], Throw e).
Proof.
  intros Hd. unfold writeFile, lift. simpl fs_writeFile. unfold simWriteFile.
  destruct t; [eauto|]. rewrite Hd. eauto.
Qed.

(** One file on the platform in memory: it is written, or it is reported
    missing and at most directories were made. *)
Lemma extractFile_sim (file : SourceFile) (acc : list string * list string) (w : world) :
  targetOf file <> [] ->
  (exists bytes,
     w_fs w !! sourceOf file = Some (File bytes) /\
     canWrite (targetOf file) (w_fs w) = true /\
     @extractFile world sim file acc w
     = (written w (targetOf file) bytes,
        [EvAccess (sourceOf file); EvReadFile (sourceOf file);
         EvMkdir (dirname (targetOf file));
         EvWriteFile (targetOf file) (decode bytes)],
        Ret (fst acc ++ [name file], snd acc)))
  \/ ((forall bytes, w_fs w !! sourceOf file = Some (File bytes) ->
                     canWrite (targetOf file) (w_fs w) = false) /\
      exists w' tr,
        @extractFile world sim file acc w
        = (w', tr, Ret (fst acc, snd acc ++ [name file])) /\
        (w' = w \/
         canMake (dirname (targetOf file)) (w_fs w) = true /\
         w' = withDirs w (dirname (targetOf file)))).
Proof.
  intros Ht.
  unfold extractFile. fold (sourceOf file). fold (targetOf file).
  unfold try_, bind, ret.
  destruct (w_fs w !! sourceOf file) as [[bytes|]|] eqn:Es.
  - (* a file *)
    rewrite (access_file w _ bytes Es). cbv beta iota.
    rewrite (readFile_file w _ bytes Es). cbv beta iota.
    destruct (canMake (dirname (targetOf file)) (w_fs w)) eqn:Em.
    + rewrite (mkdir_made w _ Em). cbv beta iota.
      destruct (isDir (w_fs w !! targetOf file)) eqn:Ed.
      * right. split.
        -- intros bytes' _. unfold canWrite. rewrite Ed, andb_false_r. reflexivity.
        -- destruct (writeFile_refused (withDirs w (dirname (targetOf file)))
                       (targetOf file) (decode bytes)) as [e ->].
           { unfold withDirs. cbn [w_fs].
             rewrite (madeDirs_other _ _ _ (target_not_above _ Ht)). exact Ed. }
           do 2 eexists. split; [reflexivity|]. right. split; reflexivity.
      * left. exists bytes. split; [reflexivity|]. split.
        -- unfold canWrite. rewrite Em, Ed. reflexivity.
        -- rewrite writeFile_written; [reflexivity|exact Ht| |].
           ++ unfold withDirs. cbn [w_fs].
              rewrite (madeDirs_other _ _ _ (target_not_above _ Ht)). exact Ed.
           ++ unfold withDirs, parentIsDir. cbn [w_fs].
              destruct (dirname (targetOf file)) as [|d0 d] eqn:Ed0; [reflexivity|].
              rewrite madeDirs_made; [reflexivity|].
              apply ancestors_self. discriminate.
    + right. split.
      * intros bytes' _. unfold canWrite. rewrite Em. reflexivity.
      * destruct (mkdir_refused w _ Em) as [e ->].
        do 2 eexists. split; [reflexivity|]. left. reflexivity.
  - (* a directory *)
    right. split; [intros bytes' E; discriminate|].
    destruct (access_not_file w (sourceOf file)) as (o & -> & [->|[e ->]]).
    { intros bytes' E. congruence. }
    + cbv beta iota.
      destruct (readFile_not_file w (sourceOf file)) as [e ->].
      { intros bytes' E. congruence. }
      do 2 eexists. split; [reflexivity|]. left. reflexivity.
    + do 2 eexists. split; [reflexivity|]. left. reflexivity.
  - (* nothing *)
    right. split; [intros bytes' E; discriminate|].
    destruct (access_not_file w (sourceOf file)) as (o & -> & [->|[e ->]]).
    { intros bytes' E. congruence. }
    + cbv beta iota.
      destruct (readFile_not_file w (sourceOf file)) as [e ->].
      { intros bytes' E. congruence. }
      do 2 eexists. split; [reflexivity|]. left. reflexivity.
    + do 2 eexists. split; [reflexivity|]. left. reflexivity.
Qed.
(** What one turn did to the world: [ok] tells whether the file was
    written. *)
Definition turned (file : SourceFile) (w w' : world) (ok : bool) : Prop :=
  if ok then
    exists bytes,
      w_fs w !! sourceOf file = Some (File bytes) /\
      canWrite (targetOf file) (w_fs w) = true /\
      w' = written w (targetOf file) bytes
  else
    (forall bytes, w_fs w !! sourceOf file = Some (File bytes) ->
                   canWrite (targetOf file) (w_fs w) = false) /\
    (w' = w \/
     canMake (dirname (targetOf file)) (w_fs w) = true /\
     w' = withDirs w (dirname (targetOf file))).

Definition dealt (file : SourceFile) (acc : list string * list string) (ok : bool)
  : list string * list string :=
  if ok then (fst acc ++ [name file], snd acc) else (fst acc, snd acc ++ [name file]).

Lemma extractFile_turned (file : SourceFile) (acc : list string * list string) (w : world) :
  targetOf file <> [] ->
  exists ok w' tr,
    @extractFile world sim file acc w = (w', tr, Ret (dealt file acc ok)) /\
    turned file w w' ok.
Proof.
  intros Ht. destruct (extractFile_sim file acc w Ht)
    as [(bytes & Es & Hc & E)|(Hn & w' & tr & E & Hw)].
  - exists true. do 2 eexists. split; [exact E|]. exists bytes. auto.
  - exists false, w', tr. split; [exact E|]. split; assumption.
Qed.

(** What a turn leaves alone. *)
Lemma turned_file_stays (file : SourceFile) (w w' : world) (ok : bool) (p : path) :
  turned file w w' ok -> p <> targetOf file -> isFile (w_fs w !! p) = true ->
  w_fs w' !! p = w_fs w !! p.
Proof.
  intros Ht Hp Hf.
  assert (Hm : canMake (dirname (targetOf file)) (w_fs w) = true ->
               madeDirs (dirname (targetOf file)) (w_fs w) !! p = w_fs w !! p).
  { intros Hc. apply madeDirs_other. intros Hin.
    rewrite (proj1 (canMake_spec _ _) Hc p Hin) in Hf. discriminate. }
  destruct ok.
  - destruct Ht as (bytes & _ & Hc & ->). unfold written. cbn [w_fs].
    rewrite lookup_insert_ne by congruence. apply Hm.
    unfold canWrite in Hc. apply andb_true_iff in Hc. tauto.
  - destruct Ht as (_ & [->|[Hc ->]]); [reflexivity|]. apply Hm, Hc.
Qed.

Lemma turned_far (file : SourceFile) (w w' : world) (ok : bool) (p : path) :
  turned file w w' ok -> p <> targetOf file ->
  ~ In p (ancestors (dirname (targetOf file))) ->
  w_fs w' !! p = w_fs w !! p.
Proof.
  intros Ht Hp Hn. destruct ok.
  - destruct Ht as (bytes & _ & _ & ->). unfold written. cbn [w_fs].
    rewrite lookup_insert_ne by congruence. apply madeDirs_other, Hn.
  - destruct Ht as (_ & [->|[_ ->]]); [reflexivity|]. apply madeDirs_other, Hn.
Qed.

Lemma turned_no_new_file (file : SourceFile) (w w' : world) (ok : bool) (p : path) :
  turned file w w' ok -> p <> targetOf file -> isFile (w_fs w !! p) = false ->
  isFile (w_fs w' !! p) = false.
Proof.
  intros Ht Hp Hf.
  assert (Hm : isFile (madeDirs (dirname (targetOf file)) (w_fs w) !! p) = false).
  { unfold madeDirs. rewrite insertDirs_lookup. destruct (decide _); [reflexivity|exact Hf]. }
  destruct ok.
  - destruct Ht as (bytes & _ & _ & ->). unfold written. cbn [w_fs].
    rewrite lookup_insert_ne by congruence. exact Hm.
  - destruct Ht as (_ & [->|[_ ->]]); [exact Hf|exact Hm].
Qed.

Lemma turned_dir_stays (file : SourceFile) (w w' : world) (ok : bool) (p : path) :
  turned file w w' ok -> p <> targetOf file -> w_fs w !! p = Some Dir ->
  w_fs w' !! p = Some Dir.
Proof.
  intros Ht Hp Hd.
  assert (Hm : madeDirs (dirname (targetOf file)) (w_fs w) !! p = Some Dir).
  { unfold madeDirs. rewrite insertDirs_lookup. destruct (decide _); [reflexivity|exact Hd]. }
  destruct ok.
  - destruct Ht as (bytes & _ & _ & ->). unfold written. cbn [w_fs].
    rewrite lookup_insert_ne by congruence. exact Hm.
  - destruct Ht as (_ & [->|[_ ->]]); [exact Hd|exact Hm].
Qed.

(** What a turn that wrote the file leaves behind. *)
Lemma turned_written (file : SourceFile) (w w' : world) (bytes : list byte) :
  turned file w w' true -> w_fs w !! sourceOf file = Some (File bytes) ->
  dirname (targetOf file) <> [] ->
  w_fs w' !! targetOf file = Some (File (recode bytes)) /\
  w_fs w' !! dirname (targetOf file) = Some Dir.
Proof.
  intros (bytes' & Es & _ & ->) Hs Hd. rewrite Hs in Es. inversion Es; subst bytes'.
  unfold written. cbn [w_fs]. split.
  - apply lookup_insert_eq.
  - rewrite lookup_insert_ne.
    + apply madeDirs_made, ancestors_self, Hd.
    + intros E. apply (f_equal (@length string)) in E.
      rewrite dirname_length in E.
      destruct (targetOf file); [exact (Hd eq_refl)|simpl in E; lia].
Qed.
(** The two configured files. *)
Definition corePrompts : SourceFile :=
  {| sourcePath := "packages/core/src/core/prompts.ts";
     targetPath := "prompts/prompts.ts";
     name := "Core prompts" |}.

Definition toolRegistry : SourceFile :=
  {| sourcePath := "packages/core/src/tools/tool-registry.ts";
     targetPath := "tools/tool-registry.ts";
     name := "Tool registry" |}.

Lemma targetOf_corePrompts :
  targetOf corePrompts
  = @COLLECTION_REPO_PATH world sim ++ ["prompts"; "prompts.ts"].
Proof. apply walk_down. absent. Qed.

Lemma targetOf_toolRegistry :
  targetOf toolRegistry
  = @COLLECTION_REPO_PATH world sim ++ ["tools"; "tool-registry.ts"].
Proof. apply walk_down. absent. Qed.

Lemma sourceOf_toolRegistry :
  sourceOf toolRegistry
  = @GEMINI_REPO_PATH world sim
    ++ ["packages"; "core"; "src"; "tools"; "tool-registry.ts"].
Proof. apply walk_down. absent. Qed.

Lemma dirname_two (c : path) (a b : string) : dirname (c ++ [a; b]) = c ++ [a].
Proof.
  unfold dirname. rewrite removelast_app by discriminate. reflexivity.
Qed.

Lemma last_two (c : path) (a b : string) : List.last (c ++ [a; b]) "" = b.
Proof.
  change (c ++ [a; b]) with (c ++ [a] ++ [b]). rewrite List.app_assoc. apply last_last.
Qed.

Lemma last_five (c : path) (a1 a2 a3 a4 b : string) :
  List.last (c ++ [a1; a2; a3; a4; b]) "" = b.
Proof.
  change (c ++ [a1; a2; a3; a4; b]) with (c ++ [a1; a2; a3; a4] ++ [b]).
  rewrite List.app_assoc. apply last_last.
Qed.

(** The places the two turns work at keep apart, wherever the two
    repositories are. *)
Lemma targets_apart : targetOf corePrompts <> targetOf toolRegistry.
Proof.
  rewrite targetOf_corePrompts, targetOf_toolRegistry. intros E.
  apply app_inv_head in E. discriminate.
Qed.

Lemma source_not_target : sourceOf toolRegistry <> targetOf corePrompts.
Proof.
  rewrite sourceOf_toolRegistry, targetOf_corePrompts. intros E.
  apply (f_equal (fun p => List.last p "")) in E.
  rewrite last_five, last_two in E. discriminate.
Qed.

Lemma above_one_not_other (f g : SourceFile) (q : path) :
  length (targetOf f) = length (targetOf g) ->
  In q (ancestors (dirname (targetOf g))) -> q <> targetOf f.
Proof.
  intros Hl Hq ->. apply ancestors_length in Hq.
  rewrite dirname_length, <- Hl in Hq.
  destruct (targetOf f); simpl in Hq; lia.
Qed.

Lemma targets_same_length : length (targetOf corePrompts) = length (targetOf toolRegistry).
Proof. rewrite targetOf_corePrompts, targetOf_toolRegistry, !length_app. reflexivity. Qed.

Lemma target_nonempty (file : SourceFile) :
  In file SOURCE_FILES -> targetOf file <> [] /\ dirname (targetOf file) <> [].
Proof.
  intros Hin. change SOURCE_FILES with [corePrompts; toolRegistry] in Hin.
  destruct Hin as [<-|[<-|[]]].
  - rewrite targetOf_corePrompts, dirname_two.
    split; intros E; apply app_eq_nil in E; destruct E; discriminate.
  - rewrite targetOf_toolRegistry, dirname_two.
    split; intros E; apply app_eq_nil in E; destruct E; discriminate.
Qed.

(** The two turns of [extractSources]. *)
Lemma extractSources_turned (w : world) :
  exists ok1 ok2 w1 w2 tr,
    turned corePrompts w w1 ok1 /\
    turned toolRegistry w1 w2 ok2 /\
    @extractSources world sim w
    = (w2, tr, Ret (dealt toolRegistry (dealt corePrompts ([], []) ok1) ok2)).
Proof.
  destruct (extractFile_turned corePrompts ([], []) w)
    as (ok1 & w1 & t1 & E1 & H1).
  { apply target_nonempty. left. reflexivity. }
  destruct (extractFile_turned toolRegistry (dealt corePrompts ([], []) ok1) w1)
    as (ok2 & w2 & t2 & E2 & H2).
  { apply target_nonempty. right. left. reflexivity. }
  exists ok1, ok2, w1, w2, (t1 ++ t2 ++ []).
  split; [exact H1|]. split; [exact H2|].
  unfold extractSources.
  change SOURCE_FILES with [corePrompts; toolRegistry].
  cbn [extractFiles]. unfold bind. rewrite E1, E2. reflexivity.
Qed.
(** A destination that cannot be written cannot be written after another
    file's turn either. *)
Lemma turned_still_unwritable (w w1 : world) (ok : bool) :
  turned corePrompts w w1 ok ->
  canWrite (targetOf toolRegistry) (w_fs w) = false ->
  canWrite (targetOf toolRegistry) (w_fs w1) = false.
Proof.
  intros H1 Hn. unfold canWrite in *. apply andb_false_iff in Hn.
  apply andb_false_iff. destruct Hn as [Hn|Hn].
  - left. unfold canMake in *. apply negb_false_iff in Hn. apply negb_false_iff.
    apply existsb_exists in Hn. destruct Hn as (q & Hq & Hf).
    apply existsb_exists. exists q. split; [exact Hq|].
    rewrite (turned_file_stays _ _ _ _ _ H1); [exact Hf| |exact Hf].
    apply (above_one_not_other corePrompts toolRegistry);
      [apply targets_same_length|exact Hq].
  - right. apply negb_false_iff in Hn. apply negb_false_iff.
    destruct (w_fs w !! targetOf toolRegistry) as [[c|]|] eqn:E; try discriminate.
    rewrite (turned_dir_stays _ _ _ _ _ H1); [reflexivity| |exact E].
    intros Eq. apply targets_apart. symmetry. exact Eq.
Qed.

(** A destination that can be written can be written after another file's
    turn too. *)
Lemma turned_still_writable (w w1 : world) (ok : bool) :
  turned corePrompts w w1 ok ->
  canWrite (targetOf toolRegistry) (w_fs w) = true ->
  canWrite (targetOf toolRegistry) (w_fs w1) = true.
Proof.
  intros H1 Hc. unfold canWrite in *. apply andb_true_iff in Hc.
  destruct Hc as [Hmake Hdir]. apply andb_true_iff. split.
  - apply canMake_spec. intros q Hq.
    apply (turned_no_new_file _ _ _ _ _ H1).
    + apply (above_one_not_other corePrompts toolRegistry);
        [apply targets_same_length|exact Hq].
    + apply (proj1 (canMake_spec _ _) Hmake), Hq.
  - rewrite (turned_far _ _ _ _ _ H1); [exact Hdir| |].
    + intros Eq. apply targets_apart. symmetry. exact Eq.
    + intros Hq.
      apply (above_one_not_other toolRegistry corePrompts) in Hq; [congruence|].
      symmetry. apply targets_same_length.
Qed.

(** C4, as the code has it.  Take a configured file whose source path is
    a regular file of the checked-out tree, holding [bytes].
    [extractSources] returns, and:
    - when the destination can be written, that is when no regular file
      stands where the directory of the destination, or a directory above
      it, has to be, and the destination is not itself a directory, the
      label of the file is among the extracted ones, the destination file
      exists afterwards, its parent directory exists, and the content of
      the destination is [recode bytes], the bytes of the source decoded
      as UTF-8 and encoded again, which is [bytes] itself when [bytes] is
      well-formed UTF-8;
    - when the destination cannot be written, the label of the file is
      among the missing ones and not among the extracted ones. *)
Theorem extracted_content (w : world) (file : SourceFile) (bytes : list byte) :
  In file SOURCE_FILES ->
  w_fs w !! sourceOf file = Some (File bytes) ->
  exists w' tr extracted missing,
    @extractSources world sim w = (w', tr, Ret (extracted, missing)) /\
    (canWrite (targetOf file) (w_fs w) = true ->
     In (name file) extracted /\
     w_fs w' !! targetOf file = Some (File (recode bytes)) /\
     w_fs w' !! dirname (targetOf file) = Some Dir /\
     (wellFormed bytes = true -> w_fs w' !! targetOf file = Some (File bytes))) /\
    (canWrite (targetOf file) (w_fs w) = false ->
     In (name file) missing /\ ~ In (name file) extracted).
Proof.
  intros Hin Hs.
  destruct (extractSources_turned w) as (ok1 & ok2 & w1 & w2 & tr & H1 & H2 & E).
  exists w2, tr, (fst (dealt toolRegistry (dealt corePrompts ([], []) ok1) ok2)),
    (snd (dealt toolRegistry (dealt corePrompts ([], []) ok1) ok2)).
  split; [rewrite E; destruct (dealt _ _ _); reflexivity|].
  assert (Hwf : forall fs : gmap path node,
            fs !! targetOf file = Some (File (recode bytes)) ->
            wellFormed bytes = true -> fs !! targetOf file = Some (File bytes)).
  { intros fs Hl Hw. rewrite Hl, (recode_wellFormed bytes Hw). reflexivity. }
  change SOURCE_FILES with [corePrompts; toolRegistry] in Hin.
  destruct Hin as [<-|[<-|[]]].
  - (* the first file: written in the first turn, kept by the second *)
    split.
    + intros Hc.
      assert (ok1 = true) as ->.
      { destruct ok1; [reflexivity|]. destruct H1 as (Hn & _).
        rewrite (Hn bytes Hs) in Hc. discriminate. }
      destruct (turned_written _ _ _ bytes H1 Hs) as [Ht Hd].
      { apply target_nonempty. left. reflexivity. }
      assert (Ht2 : w_fs w2 !! targetOf corePrompts = Some (File (recode bytes))).
      { rewrite <- Ht. apply (turned_file_stays _ _ _ _ _ H2).
        - apply targets_apart.
        - rewrite Ht. reflexivity. }
      split; [destruct ok2; simpl; tauto|].
      split; [exact Ht2|]. split; [|apply Hwf, Ht2].
      apply (turned_dir_stays _ _ _ _ _ H2); [|exact Hd].
      intros Eq. apply (f_equal (@length string)) in Eq.
      rewrite dirname_length, targets_same_length in Eq.
      rewrite targetOf_toolRegistry, length_app in Eq. simpl in Eq. lia.
    + intros Hc.
      assert (ok1 = false) as ->.
      { destruct ok1; [|reflexivity]. destruct H1 as (b & _ & Hw & _). congruence. }
      destruct ok2; simpl; intuition discriminate.
  - (* the second file: its source and its destination outlive the first turn *)
    assert (Hs1 : w_fs w1 !! sourceOf toolRegistry = Some (File bytes)).
    { rewrite <- Hs. apply (turned_file_stays _ _ _ _ _ H1).
      - apply source_not_target.
      - rewrite Hs. reflexivity. }
    split.
    + intros Hc. apply (turned_still_writable _ _ _ H1) in Hc.
      assert (ok2 = true) as ->.
      { destruct ok2; [reflexivity|]. destruct H2 as (Hn & _).
        rewrite (Hn bytes Hs1) in Hc. discriminate. }
      destruct (turned_written _ _ _ bytes H2 Hs1) as [Ht Hd].
      { apply target_nonempty. right. left. reflexivity. }
      split; [destruct ok1; simpl; tauto|].
      split; [exact Ht|]. split; [exact Hd|apply Hwf, Ht].
    + intros Hc. apply (turned_still_unwritable _ _ _ H1) in Hc.
      assert (ok2 = false) as ->.
      { destruct ok2; [|reflexivity]. destruct H2 as (b & _ & Hw & _). congruence. }
      destruct ok1; simpl; intuition discriminate.
Qed.

End OnPlatform.

(** *** The theorems at work *)

Abbreviation here := (platform noEnvironment).

(** The first run collects both releases, in two commits. *)
Lemma worldDone_history :
  w_repos worldDone !! trackingRoot = Some (tracking [collected2; collected1; initial]).
Proof. vm_compute. reflexivity. Qed.

Lemma worldDone_prompts :
  w_fs worldDone !! (trackingRoot ++ ["prompts"; "prompts.ts"])%list
  = Some (File (bytesOf "prompt, second version")).
Proof. vm_compute. reflexivity. Qed.








Lemma ledger_fails_open_witness :
  @exec world here (@COLLECTION_REPO_PATH world here)
     (GitLogGrep (ledgerPattern "v0.1.0")) worldFresh
  = (worldFresh, Err "fatal: your current branch does not have any commits yet")
  /\ @isVersionProcessed world here "v0.1.0" worldFresh
     = (worldFresh,
        [EvExec (@COLLECTION_REPO_PATH world here) (GitLogGrep (ledgerPattern "v0.1.0"))],
        Ret false).
Proof.
  assert (Hq : @exec world here (@COLLECTION_REPO_PATH world here)
                 (GitLogGrep (ledgerPattern "v0.1.0")) worldFresh
               = (worldFresh, Err "fatal: your current branch does not have any commits yet"))
    by reflexivity.
  split; [exact Hq|].
  exact (proj1 (@ledger_fails_open world here "v0.1.0" 2%nat 0%nat worldFresh worldFresh _ Hq)).
Defined.

(** What [git tag --sort=creatordate] prints in the external repository. *)
Definition tagList : string := "v0.1.0" +:+ nl +:+ "nightly" +:+ nl +:+ "v0.2.0" +:+ nl.

Lemma tagList_enumerated :
  @exec world here (@GEMINI_REPO_PATH world here) GitTagSorted world0
  = (world0, Ok tagList).
Proof. reflexivity. Qed.

(** Both releases were extracted, the second is not committed yet. *)
Definition worldPending : world :=
  {| w_fs := w_fs worldDone;
     w_repos := {[ geminiRoot := gemini; trackingRoot := tracking [collected1; initial] ]} |}.

Lemma commit_only_on_change_witness :
  (@exec world here (@COLLECTION_REPO_PATH world here) GitStatusPorcelain worldDone
   = (worldDone, Ok "")
   /\ trim "" = ""
   /\ w_repos worldDone !! (@COLLECTION_REPO_PATH world here)
      = Some (tracking [collected2; collected1; initial])
   /\ worktree (@COLLECTION_REPO_PATH world here) (w_fs worldDone)
      = headTree [collected2; collected1; initial]
   /\ @commitChanges world here "v0.2.0" ["Core prompts"; "Tool registry"] [] worldDone
      = (worldDone, [EvExec (@COLLECTION_REPO_PATH world here) GitStatusPorcelain;
                     EvLog "  No changes to commit"], Ret tt))
  /\ (w_repos worldPending !! (@COLLECTION_REPO_PATH world here)
      = Some (tracking [collected1; initial])
      /\ In (EvExec (@COLLECTION_REPO_PATH world here)
               (GitCommit (escapeQuotes
                             (commitMessage "v0.2.0" ["Core prompts"; "Tool registry"] []))))
            (trace_of (@commitChanges world here "v0.2.0"
                         ["Core prompts"; "Tool registry"] [] worldPending))
      /\ worktree (@COLLECTION_REPO_PATH world here) (w_fs worldPending)
         <> headTree [collected1; initial]).
Proof.
  pose proof (commit_only_on_change noEnvironment "v0.2.0"
                ["Core prompts"; "Tool registry"] []) as [Hany Hsim].
  split.
  - assert (Hs : @exec world here (@COLLECTION_REPO_PATH world here)
                   GitStatusPorcelain worldDone = (worldDone, Ok "")) by reflexivity.
    assert (Hr : w_repos worldDone !! (@COLLECTION_REPO_PATH world here)
                 = Some (tracking [collected2; collected1; initial])) by reflexivity.
    assert (Ht : worktree (@COLLECTION_REPO_PATH world here) (w_fs worldDone)
                 = headTree [collected2; collected1; initial]) by same.
    split; [exact Hs|]. split; [reflexivity|]. split; [exact Hr|]. split; [exact Ht|].
    pose proof (Hany world here worldDone worldDone "" Hs eq_refl) as E1.
    pose proof (proj1 (Hsim worldDone _ Hr) Ht) as E2.
    exact E2.
  - assert (Hr : w_repos worldPending !! (@COLLECTION_REPO_PATH world here)
                 = Some (tracking [collected1; initial])) by reflexivity.
    assert (Hin : In (EvExec (@COLLECTION_REPO_PATH world here)
                        (GitCommit (escapeQuotes
                           (commitMessage "v0.2.0" ["Core prompts"; "Tool registry"] []))))
                     (trace_of (@commitChanges world here "v0.2.0"
                                  ["Core prompts"; "Tool registry"] [] worldPending))).
    { vm_compute. right. right. left. reflexivity. }
    split; [exact Hr|]. split; [exact Hin|].
    exact (proj2 (Hsim worldPending _ Hr) _ Hin).
Defined.





Lemma failures_are_contained_witness :
  @processTag world here 2 0 "v0.1.0" worldEdited
  = (worldEdited,
     [EvLog (processingLine 2 0 "v0.1.0");
      EvExec (@COLLECTION_REPO_PATH world here) (GitLogGrep (ledgerPattern "v0.1.0"));
      EvExec (@GEMINI_REPO_PATH world here) (GitCheckout "v0.1.0");
      EvError "  ✗ Error processing v0.1.0:"
        (Some "error: Your local changes would be overwritten by checkout");
      EvLog ""], Ret tt)
  /\ exists logs w2 loop w3 r,
       queried loop = [ledgerPattern "v0.1.0"; ledgerPattern "v0.2.0"] /\
       @exec world here (@GEMINI_REPO_PATH world here) (GitCheckout "main") w2 = (w3, r) /\
       @script world here ["node"; "collect.ts"] worldEdited
       = (w3, [EvLog banner; EvExec (@GEMINI_REPO_PATH world here) GitTagSorted]
              ++ logs ++ loop
              ++ EvExec (@GEMINI_REPO_PATH world here) (GitCheckout "main") :: finale r,
          finalOutcome r).
Proof.
  pose proof (@failures_are_contained world here ["node"; "collect.ts"] worldEdited)
    as (_ & _ & Hturn & _ & Hrun).
  split.
  - apply (Hturn 2%nat 0%nat "v0.1.0" worldEdited worldEdited worldEdited (Ok "")
             "error: Your local changes would be overwritten by checkout");
      reflexivity.
  - destruct (Hrun worldEdited tagList ["v0.1.0"; "v0.2.0"] eq_refl eq_refl)
      as (logs & w2 & loop & w3 & r & _ & _ & Hq & Hm & E).
    exists logs, w2, loop, w3, r. split; [exact Hq|]. split; [exact Hm|exact E].
Defined.

(** The prompts of the external repository are in Latin-1: the byte
    [0xE9] of [café] is no UTF-8. *)
Definition latin : list byte := [Byte.x63; Byte.x61; Byte.x66; Byte.xe9].

Definition worldLatin : world :=
  {| w_fs := <[ (geminiRoot ++ promptsSource)%list := File latin ]> files;
     w_repos := w_repos world0 |}.

(** A regular file named [prompts] is in the tracking repository, where
    the directory of the first destination has to be. *)
Definition worldBlocked : world :=
  {| w_fs := <[ (trackingRoot ++ ["prompts"])%list := File (bytesOf "notes") ]> files;
     w_repos := w_repos world0 |}.

(** C4, as the claim states it, fails twice.  A source that is not UTF-8
    is not copied byte by byte: the byte [0xE9] comes out as the three bytes
    of U+FFFD.  And a source that can be read is not copied at all when its
    destination cannot be written: the file is reported missing. *)
Lemma extracted_content_counterexample :
  (w_fs worldLatin !! sourceOf noEnvironment corePrompts = Some (File latin)
   /\ w_fs (world_of (@extractSources world here worldLatin))
        !! targetOf noEnvironment corePrompts
      = Some (File [Byte.x63; Byte.x61; Byte.x66; Byte.xef; Byte.xbf; Byte.xbd])
   /\ w_fs (world_of (@extractSources world here worldLatin))
        !! targetOf noEnvironment corePrompts
      <> Some (File latin))
  /\ (w_fs worldBlocked !! sourceOf noEnvironment corePrompts
      = Some (File (bytesOf "prompt, third version"))
      /\ w_fs (world_of (@extractSources world here worldBlocked))
           !! targetOf noEnvironment corePrompts = None
      /\ outcome_of (@extractSources world here worldBlocked)
         = Ret (["Tool registry"], ["Core prompts"])).
Proof.
  split; [split; [reflexivity|split; [vm_compute; reflexivity|]]|].
  - vm_compute. discriminate.
  - split; [reflexivity|]. split; vm_compute; reflexivity.
Qed.

Lemma extracted_content_witness :
  In corePrompts SOURCE_FILES
  /\ w_fs world0 !! sourceOf noEnvironment corePrompts
     = Some (File (bytesOf "prompt, third version"))
  /\ canWrite (targetOf noEnvironment corePrompts) (w_fs world0) = true
  /\ wellFormed (bytesOf "prompt, third version") = true
  /\ exists w' tr extracted missing,
       @extractSources world here world0 = (w', tr, Ret (extracted, missing)) /\
       In "Core prompts" extracted /\
       w_fs w' !! targetOf noEnvironment corePrompts
       = Some (File (bytesOf "prompt, third version")) /\
       w_fs w' !! dirname (targetOf noEnvironment corePrompts) = Some Dir.
Proof.
  assert (Hin : In corePrompts SOURCE_FILES) by (left; reflexivity).
  assert (Hs : w_fs world0 !! sourceOf noEnvironment corePrompts
               = Some (File (bytesOf "prompt, third version"))) by reflexivity.
  assert (Hc : canWrite (targetOf noEnvironment corePrompts) (w_fs world0) = true)
    by reflexivity.
  assert (Hw : wellFormed (bytesOf "prompt, third version") = true) by reflexivity.
  split; [exact Hin|]. split; [exact Hs|]. split; [exact Hc|]. split; [exact Hw|].
  destruct (extracted_content noEnvironment world0 corePrompts _ Hin Hs)
    as (w' & tr & extracted & missing & E & Hcontent & _).
  exists w', tr, extracted, missing. split; [exact E|].
  destruct (Hcontent Hc) as (Hl & _ & Hd & Hsame).
  split; [exact Hl|]. split; [exact (Hsame Hw)|exact Hd].
Defined.

(** C2.  The option [--limit=0].  The argument is read as the number 0,
    which the script takes for no limit: on the world where nothing was
    collected yet the run reaches both enumerated tags, more than the
    [min 0 2] tags a limit of zero allows. *)
Theorem limit_zero_runs_all :
  limit ["node"; "collect.ts"; "--limit=0"] = Some 0%Z
  /\ queried (trace_of (@script world here ["node"; "collect.ts"; "--limit=0"] world0))
     = [ledgerPattern "v0.1.0"; ledgerPattern "v0.2.0"]
  /\ (Nat.min 0 2 < length (queried (trace_of
        (@script world here ["node"; "collect.ts"; "--limit=0"] world0))))%nat.
Proof.
  split; [reflexivity|]. split; [vm_compute; reflexivity|].
  vm_compute. lia.
Qed.

End SimFacts.
(** ** The options of the command line *)

Module OptionFacts.
Import JsString JsArray JsStringFacts JsArrayFacts Collect CollectFacts Sim SimFacts.

(** No argument of [args] gives the option: none starts with the flag.
    (The script reads an option from the first argument that does.) *)
Definition unset (flag : string) (args : list string) : Prop :=
  Forall (fun arg => startsWith arg flag = false) args.

(** The value ends at the second equals sign of the argument. *)
Lemma argValue_cut (flag v rest : string) (pre post : list string) :
  unset (flag +:+ "=") pre ->
  ~ In "="%char (chars flag) -> ~ In "="%char (chars v) ->
  argValue (pre ++ (flag +:+ "=" +:+ v +:+ "=" +:+ rest) :: post) (flag +:+ "=") = Some v.
Proof.
  intros Hpre Hflag Hv. unfold argValue.
  assert (Hx : startsWith (flag +:+ "=" +:+ v +:+ "=" +:+ rest) (flag +:+ "=") = true).
  { rewrite <- app_assoc. apply startsWith_app. }
  rewrite (findIndex_first _ pre _ post Hpre Hx).
  destruct (Z.eqb_spec (Z.of_nat (length pre)) (-1)) as [E|_]; [lia|].
  cbn [negb]. rewrite at_middle.
  change (flag +:+ "=" +:+ v +:+ "=" +:+ rest)
    with (flag +:+ String "="%char (v +:+ String "="%char rest)).
  rewrite (split_app _ _ _ Hflag), (split_app _ _ _ Hv). reflexivity.
Qed.

(** A negative [end] drops elements from the end. *)
Lemma slice0_neg {A} (a : list A) (n : Z) :
  (n < 0)%Z -> slice a 0 n = firstn (Z.to_nat (Z.of_nat (length a) + n)) a.
Proof.
  intros Hn. unfold slice, clamp. cbv zeta. simpl (0 <? 0)%Z. cbv iota.
  destruct (Z.ltb_spec n 0); [|lia].
  rewrite (Z.min_l 0) by lia. change (Z.to_nat 0) with 0%nat.
  rewrite skipn_O, Z.sub_0_r.
  destruct (Z.le_gt_cases 0 (Z.of_nat (length a) + n)).
  - rewrite Z.max_l by lia. reflexivity.
  - rewrite Z.max_r by lia. replace (Z.to_nat (Z.of_nat (length a) + n)) with 0%nat by lia.
    reflexivity.
Qed.

Lemma limit_value (pre post : list string) (v : string) :
  unset "--limit=" pre -> ~ In "="%char (chars v) ->
  limit (pre ++ ("--limit=" +:+ v) :: post) = parseInt v.
Proof.
  intros Hpre Hv.
  assert (Hl : ~ In "="%char (chars "--limit")) by absent.
  pose proof (argValue_first "--limit" v pre post Hpre Hl Hv) as E.
  change ("--limit" +:+ "=") with "--limit=" in E.
  unfold limit.
  change ("--limit=" +:+ v) with ("--limit" +:+ "=" +:+ v).
  rewrite E. reflexivity.
Qed.

(** X13.  The value of an option is the text between the first and the second
    equals sign of the first argument that starts with its flag: what
    follows a second equals sign is dropped, and so is every later
    argument with the same flag. *)
Theorem option_value_cut (pre post : list string) (v rest : string) :
  ~ In "="%char (chars v) ->
  (unset "--start-from=" pre ->
   startFromVersion (pre ++ ("--start-from=" +:+ v +:+ "=" +:+ rest) :: post) = Some v
   /\ startFromVersion (pre ++ ("--start-from=" +:+ v) :: post) = Some v)
  /\ (unset "--limit=" pre ->
      limit (pre ++ ("--limit=" +:+ v +:+ "=" +:+ rest) :: post) = parseInt v
      /\ limit (pre ++ ("--limit=" +:+ v) :: post) = parseInt v).
Proof.
  intros Hv.
  assert (Hs : ~ In "="%char (chars "--start-from")) by absent.
  assert (Hl : ~ In "="%char (chars "--limit")) by absent.
  split; intros Hpre.
  - split.
    + exact (argValue_cut "--start-from" v rest pre post Hpre Hs Hv).
    + exact (argValue_first "--start-from" v pre post Hpre Hs Hv).
  - unfold limit. split.
    + pose proof (argValue_cut "--limit" v rest pre post Hpre Hl Hv) as E.
      change ("--limit" +:+ "=") with "--limit=" in E.
      change ("--limit=" +:+ v +:+ "=" +:+ rest) with ("--limit" +:+ "=" +:+ v +:+ "=" +:+ rest).
      rewrite E. reflexivity.
    + exact (limit_value pre post v Hpre Hv).
Qed.

Lemma option_value_cut_witness :
  ~ In "="%char (chars "2")
  /\ unset "--limit=" ["node"; "collect.ts"]
  /\ limit ["node"; "collect.ts"; "--limit=2=5"; "--limit=7"] = Some 2%Z
  /\ unset "--start-from=" ["node"; "collect.ts"]
  /\ startFromVersion ["node"; "collect.ts"; "--start-from=2=5"; "--limit=7"] = Some "2".
Proof.
  assert (Hv : ~ In "="%char (chars "2")) by absent.
  assert (Hl : unset "--limit=" ["node"; "collect.ts"]) by (repeat constructor).
  assert (Hs : unset "--start-from=" ["node"; "collect.ts"]) by (repeat constructor).
  split; [exact Hv|]. split; [exact Hl|].
  destruct (option_value_cut ["node"; "collect.ts"] ["--limit=7"] "2" "5" Hv) as [H1 H2].
  split; [exact (proj1 (H2 Hl))|]. split; [exact Hs|exact (proj1 (H1 Hs))].
Defined.

Section Options.
Context {W : Type} `{Platform W}.

(** X14.  [--start-from=] with nothing after the equals sign selects nothing:
    the empty string is falsy, so the version is not looked up among the
    tags and the run reaches the tags it reaches without the option. *)
Theorem empty_start_from_ignored (argv pre post : list string) (w w1 : W) (stdout : string) :
  argv = pre ++ "--start-from=" :: post ->
  unset "--start-from=" pre ->
  exec GEMINI_REPO_PATH GitTagSorted w = (w1, Ok stdout) ->
  startFromVersion argv = Some ""
  /\ queried (trace_of (script argv w))
     = map ledgerPattern (limited (limit argv) (tagsOf stdout)).
Proof.
  intros -> Hpre Ht.
  assert (Hs : ~ In "="%char (chars "--start-from")) by absent.
  assert (Hv : startFromVersion (pre ++ "--start-from=" :: post) = Some "").
  { exact (argValue_first "--start-from" "" pre post Hpre Hs (fun x => x)). }
  split; [exact Hv|].
  assert (Hf : fromStart (startFromVersion (pre ++ "--start-from=" :: post)) (tagsOf stdout)
               = Some (tagsOf stdout)) by (rewrite Hv; reflexivity).
  exact (script_queried _ w w1 stdout _ Ht Hf).
Qed.

(** X15.  A limit that [parseInt] cannot read is [NaN], which is falsy: the
    list of tags is not cut.  (The value is taken in ASCII.) *)
Theorem limit_not_a_number_ignored (argv pre post : list string) (v : string)
        (w w1 : W) (stdout : string) (tags0 : list string) :
  argv = pre ++ ("--limit=" +:+ v) :: post ->
  unset "--limit=" pre ->
  ~ In "="%char (chars v) ->
  ascii7 v ->
  parseInt v = None ->
  exec GEMINI_REPO_PATH GitTagSorted w = (w1, Ok stdout) ->
  fromStart (startFromVersion argv) (tagsOf stdout) = Some tags0 ->
  queried (trace_of (script argv w)) = map ledgerPattern tags0.
Proof.
  intros Ha Hpre Hv _ Hp Ht Hs.
  rewrite (script_queried argv w w1 stdout tags0 Ht Hs).
  assert (Hl : limit argv = None).
  { rewrite Ha, (limit_value pre post v Hpre Hv). exact Hp. }
  rewrite Hl. reflexivity.
Qed.

(** X16.  A negative limit drops tags from the end: [tags.slice(0, -k)] keeps
    all but the last [k] of the tags selected so far, and none when there
    are [k] or fewer. *)
Theorem negative_limit_drops_last (argv : list string) (n : Z) (w w1 : W)
        (stdout : string) (tags0 : list string) :
  limit argv = Some n -> (n < 0)%Z ->
  exec GEMINI_REPO_PATH GitTagSorted w = (w1, Ok stdout) ->
  fromStart (startFromVersion argv) (tagsOf stdout) = Some tags0 ->
  queried (trace_of (script argv w))
  = map ledgerPattern (firstn (length tags0 - Z.to_nat (- n)) tags0).
Proof.
  intros Hl Hn Ht Hs.
  rewrite (script_queried argv w w1 stdout tags0 Ht Hs), Hl.
  unfold limited, truthyNumber. destruct (Z.eqb_spec n 0) as [E|_]; [lia|].
  cbn [negb]. change (default 0%Z (Some n)) with n.
  rewrite (slice0_neg _ _ Hn).
  replace (Z.to_nat (Z.of_nat (length tags0) + n)) with (length tags0 - Z.to_nat (- n))%nat
    by lia.
  reflexivity.
Qed.

End Options.

Lemma empty_start_from_ignored_witness :
  unset "--start-from=" ["node"; "collect.ts"]
  /\ @exec world here (@GEMINI_REPO_PATH world here) GitTagSorted world0 = (world0, Ok tagList)
  /\ startFromVersion ["node"; "collect.ts"; "--start-from="] = Some ""
  /\ queried (trace_of (@script world here ["node"; "collect.ts"; "--start-from="] world0))
     = [ledgerPattern "v0.1.0"; ledgerPattern "v0.2.0"].
Proof.
  assert (Hs : unset "--start-from=" ["node"; "collect.ts"]) by (repeat constructor).
  split; [exact Hs|]. split; [exact tagList_enumerated|].
  exact (@empty_start_from_ignored world here ["node"; "collect.ts"; "--start-from="]
           ["node"; "collect.ts"] [] world0 world0 tagList eq_refl Hs tagList_enumerated).
Defined.

Lemma limit_not_a_number_ignored_witness :
  unset "--limit=" ["node"; "collect.ts"]
  /\ ~ In "="%char (chars "all")
  /\ ascii7 "all"
  /\ parseInt "all" = None
  /\ queried (trace_of (@script world here ["node"; "collect.ts"; "--limit=all"] world0))
     = [ledgerPattern "v0.1.0"; ledgerPattern "v0.2.0"].
Proof.
  assert (Hs : unset "--limit=" ["node"; "collect.ts"]) by (repeat constructor).
  assert (Hv : ~ In "="%char (chars "all")) by absent.
  assert (Ha : ascii7 "all") by (repeat constructor).
  split; [exact Hs|]. split; [exact Hv|]. split; [exact Ha|]. split; [reflexivity|].
  exact (@limit_not_a_number_ignored world here ["node"; "collect.ts"; "--limit=all"]
           ["node"; "collect.ts"] [] "all" world0 world0 tagList ["v0.1.0"; "v0.2.0"]
           eq_refl Hs Hv Ha eq_refl tagList_enumerated eq_refl).
Defined.

Lemma limit_keeps_prefix_witness :
  limit ["node"; "collect.ts"; "--limit=1"] = Some 1%Z
  /\ (0 < 1)%Z
  /\ queried (trace_of (@script world here ["node"; "collect.ts"; "--limit=1"] world0))
     = [ledgerPattern "v0.1.0"].
Proof.
  split; [reflexivity|]. split; [lia|].
  exact (proj1 (@limit_keeps_prefix world here ["node"; "collect.ts"; "--limit=1"] 1%Z
                  world0 world0 tagList ["v0.1.0"; "v0.2.0"] eq_refl eq_refl
                  tagList_enumerated eq_refl)).
Defined.

Lemma negative_limit_drops_last_witness :
  limit ["node"; "collect.ts"; "--limit=-1"] = Some (-1)%Z
  /\ (-1 < 0)%Z
  /\ queried (trace_of (@script world here ["node"; "collect.ts"; "--limit=-1"] world0))
     = [ledgerPattern "v0.1.0"].
Proof.
  split; [reflexivity|]. split; [lia|].
  exact (@negative_limit_drops_last world here ["node"; "collect.ts"; "--limit=-1"] (-1)%Z
           world0 world0 tagList ["v0.1.0"; "v0.2.0"] eq_refl eq_refl
           tagList_enumerated eq_refl).
Defined.

End OptionFacts.

(** ** The enumeration of the tags *)

Module TagFacts.
Import JsString JsArray JsStringFacts JsArrayFacts Collect MessageFacts CollectFacts.
Import Sim SimFacts OptionFacts.

Lemma chars_inj (s t : string) : chars s = chars t -> s = t.
Proof.
  intros E. rewrite <- (string_of_list_ascii_of_string s), <- (string_of_list_ascii_of_string t).
  rewrite E. reflexivity.
Qed.

Lemma rev_rev (s : string) : String.rev (String.rev s) = s.
Proof. apply chars_inj. rewrite !chars_rev. apply rev_involutive. Qed.

(** No field of [split] holds the separator. *)
Lemma split_fields (sep : ascii) (s : string) :
  Forall (fun l => ~ In sep (chars l)) (split sep s).
Proof.
  induction s as [|c r IH]; simpl.
  - constructor; [intros []|constructor].
  - destruct (Ascii.eqb_spec c sep) as [->|Hc].
    + constructor; [intros []|exact IH].
    + destruct (split sep r) as [|h t]; [repeat constructor; simpl; intuition|].
      inversion IH as [|? ? Hh Ht]; subst.
      constructor; [simpl; intuition|exact Ht].
Qed.

Lemma filter_is_sublist {A} (p : A -> bool) (l : list A) : sublist (List.filter p l) l.
Proof.
  induction l as [|x l IH]; simpl; [constructor|].
  destruct (p x); constructor; exact IH.
Qed.

(** A string that starts with a character that is not white space loses
    nothing at its start. *)
Lemma trimStart_head (s : string) (c : ascii) (r : list ascii) :
  chars s = c :: r -> isWhite c = false -> trimStart s = s.
Proof.
  destruct s as [|d s]; [discriminate|]. simpl. intros E Hc.
  inversion E; subst. rewrite Hc. reflexivity.
Qed.

(** The name of a reference: not empty, and without white space (git
    allows neither a space nor a control character in it); the names are
    taken in ASCII. *)
Definition refName (s : string) : Prop :=
  s <> "" /\ Forall (fun c => isWhite c = false) (chars s) /\ ascii7 s.

Lemma refName_oneLine (s : string) : refName s -> oneLine s.
Proof.
  intros (_ & Hs & _) Hin. rewrite List.Forall_forall in Hs. apply Hs in Hin. discriminate.
Qed.

(** [trim] takes the last line feed of a listing of names, and nothing
    else; [split] then gives the names back. *)
Lemma trim_unlines (init : list string) (last : string) :
  Forall refName init -> refName last ->
  trim (unlines (init ++ [last])) = unlines init +:+ last.
Proof.
  intros Hinit (Hne & Hlast & _).
  assert (Hu : unlines (init ++ [last]) = (unlines init +:+ last) +:+ nl).
  { rewrite unlines_app. simpl. rewrite app_assoc. reflexivity. }
  rewrite Hu. unfold trim.
  assert (Hhead : exists c r, chars (unlines init +:+ last) = c :: r /\ isWhite c = false).
  { destruct init as [|a init].
    - simpl. destruct last as [|c r]; [congruence|].
      exists c, (chars r). split; [reflexivity|]. inversion Hlast; assumption.
    - inversion Hinit as [|? ? (Ha1 & Ha2 & _) _]; subst.
      destruct a as [|c r]; [congruence|].
      simpl. eexists c, _. split; [reflexivity|]. inversion Ha2; assumption. }
  destruct Hhead as (c & r & Hc & Hw).
  rewrite (trimStart_head ((unlines init +:+ last) +:+ nl) c (r ++ [LF])).
  2: { rewrite chars_app, Hc. reflexivity. }
  2: exact Hw.
  unfold trimEnd.
  assert (Hr : String.rev ((unlines init +:+ last) +:+ nl)
               = String LF (String.rev (unlines init +:+ last))).
  { apply chars_inj. simpl. rewrite !chars_rev, chars_app. simpl.
    rewrite rev_app_distr. reflexivity. }
  rewrite Hr. simpl trimStart.
  assert (Htail : exists d q, chars (String.rev (unlines init +:+ last)) = d :: q
                              /\ isWhite d = false).
  { rewrite chars_rev, chars_app, rev_app_distr.
    destruct (exists_last (l := chars last)) as (q & d & Hq).
    { destruct last; [congruence|discriminate]. }
    rewrite Hq, rev_app_distr. simpl. eexists d, _. split; [reflexivity|].
    rewrite Hq in Hlast. rewrite List.Forall_forall in Hlast.
    apply Hlast. apply in_or_app. right. left. reflexivity. }
  destruct Htail as (d & q & Hd & Hwd).
  rewrite (trimStart_head _ d q Hd Hwd). apply rev_rev.
Qed.

Lemma split_listing (init : list string) (last : string) :
  Forall oneLine init -> oneLine last ->
  split LF (unlines init +:+ last) = init ++ [last].
Proof.
  intros Hinit Hlast. induction Hinit as [|a init Ha _ IH]; simpl.
  - apply split_none, Hlast.
  - rewrite !app_assoc.
    change (a +:+ nl +:+ unlines init +:+ last)
      with (a +:+ String LF (unlines init +:+ last)).
    rewrite (split_app _ _ _ Ha), IH. reflexivity.
Qed.

(** What [getAllTags] makes of a listing. *)
Lemma tagsOf_listing (names : list string) :
  Forall refName names ->
  tagsOf (unlines names) = List.filter (fun tag => startsWith tag "v0.") names.
Proof.
  intros Hn. unfold tagsOf.
  destruct names as [|first names] using rev_ind; [reflexivity|]. clear IHnames.
  apply Forall_app in Hn. destruct Hn as [Hinit Hlast].
  inversion Hlast as [|? ? Hl _]; subst.
  rewrite (trim_unlines _ _ Hinit Hl), split_listing; [reflexivity| |].
  - clear -Hinit. induction Hinit; constructor; auto using refName_oneLine.
  - apply refName_oneLine, Hl.
Qed.

Section Tags.
Context {W : Type} `{Platform W}.

(** X10.  Whatever git prints, the tags [getAllTags] returns are lines of the
    trimmed output, in the order of the output, each starting with [v0.];
    and every such line is returned.  A tag of another major version is
    never returned. *)
Theorem tags_are_v0_lines (w w' : W) (tr : list event) (tags : list string) :
  getAllTags w = (w', tr, Ret tags) ->
  exists stdout,
    exec GEMINI_REPO_PATH GitTagSorted w = (w', Ok stdout) /\
    tr = [EvExec GEMINI_REPO_PATH GitTagSorted] /\
    sublist tags (split LF (trim stdout)) /\
    Forall (fun tag => startsWith tag "v0." = true /\ ~ In LF (chars tag)) tags /\
    (forall line, In line (split LF (trim stdout)) ->
                  startsWith line "v0." = true -> In line tags).
Proof.
  destruct (exec GEMINI_REPO_PATH GitTagSorted w) as [w1 r] eqn:E.
  rewrite (getAllTags_eq w w1 r E). destruct r as [stdout|e]; [|discriminate].
  intros Hg. inversion Hg; subst. exists stdout.
  split; [reflexivity|]. split; [reflexivity|]. unfold tagsOf.
  split; [apply filter_is_sublist|]. split.
  - apply List.Forall_forall. intros tag Hin. apply filter_In in Hin.
    destruct Hin as [Hin Hv]. split; [exact Hv|].
    pose proof (split_fields LF (trim stdout)) as Hf.
    rewrite List.Forall_forall in Hf. apply Hf, Hin.
  - intros line Hin Hv. apply filter_In. split; assumption.
Qed.

(** X11.  When git lists the names of the tags one per line, [getAllTags]
    returns exactly the names that start with [v0.], in the order of the
    listing; for an empty listing it returns no tag. *)
Theorem tags_of_listing (names : list string) (w w1 : W) :
  Forall refName names ->
  exec GEMINI_REPO_PATH GitTagSorted w = (w1, Ok (unlines names)) ->
  getAllTags w
  = (w1, [EvExec GEMINI_REPO_PATH GitTagSorted],
     Ret (List.filter (fun tag => startsWith tag "v0.") names)).
Proof.
  intros Hn E. rewrite (getAllTags_eq w w1 _ E), (tagsOf_listing names Hn). reflexivity.
Qed.

Lemma limited_nil (l : option Z) : limited l ([] : list string) = [].
Proof.
  unfold limited. destruct (truthyNumber l); [|reflexivity].
  unfold slice. cbv zeta. rewrite skipn_nil, firstn_nil. reflexivity.
Qed.

(** X12.  With no [v0.] tag there is nothing to collect.  Without a starting
    version the run asks the ledger nothing and checks nothing out but
    [main]; with one it ends with exit code 1, the version not being among
    the tags. *)
Theorem nothing_to_collect (argv : list string) (w w1 : W) (tr : list event) :
  getAllTags w = (w1, tr, Ret []) ->
  (truthyString (startFromVersion argv) = false ->
   exists logs w2 r,
     forallb isLog logs = true /\
     exec GEMINI_REPO_PATH (GitCheckout "main") w1 = (w2, r) /\
     script argv w
     = (w2, [EvLog banner; EvExec GEMINI_REPO_PATH GitTagSorted] ++ logs
            ++ EvExec GEMINI_REPO_PATH (GitCheckout "main") :: finale r,
        finalOutcome r))
  /\ (truthyString (startFromVersion argv) = true ->
      script argv w
      = (w1, [EvLog banner; EvExec GEMINI_REPO_PATH GitTagSorted;
              EvLog ("Found 0 v0.* tags" +:+ nl);
              EvError (notFound (startFromVersion argv)) None], Exit 1)).
Proof.
  destruct (exec GEMINI_REPO_PATH GitTagSorted w) as [w0 r0] eqn:E.
  rewrite (getAllTags_eq w w0 r0 E). destruct r0 as [stdout|e]; [|discriminate].
  intros Hg. inversion Hg as [[Hw Htr Htags]]. subst w0. split; intros Hv.
  - assert (Hs : fromStart (startFromVersion argv) (tagsOf stdout) = Some []).
    { unfold fromStart. rewrite Hv, Htags. reflexivity. }
    destruct (script_runs argv w w1 stdout [] E Hs)
      as (logs & w2 & loop & w3 & r & Hlogs & Hloop & _ & Hm & Hrun).
    rewrite limited_nil in Hloop. simpl in Hloop. unfold ret in Hloop.
    inversion Hloop; subst w2 loop.
    exists logs, w3, r. split; [exact Hlogs|]. split; [exact Hm|].
    rewrite Hrun. reflexivity.
  - assert (Hs : fromStart (startFromVersion argv) (tagsOf stdout) = None).
    { unfold fromStart. rewrite Hv, Htags. reflexivity. }
    rewrite (script_start_not_found argv w w1 stdout E Hs), Htags. reflexivity.
Qed.

End Tags.

Lemma tags_are_v0_lines_witness :
  @getAllTags world here world0
  = (world0, [EvExec (@GEMINI_REPO_PATH world here) GitTagSorted], Ret ["v0.1.0"; "v0.2.0"])
  /\ exists stdout,
       @exec world here (@GEMINI_REPO_PATH world here) GitTagSorted world0
       = (world0, Ok stdout) /\
       sublist ["v0.1.0"; "v0.2.0"] (split LF (trim stdout)) /\
       Forall (fun tag => startsWith tag "v0." = true /\ ~ In LF (chars tag))
              ["v0.1.0"; "v0.2.0"].
Proof.
  assert (Hg : @getAllTags world here world0
               = (world0, [EvExec (@GEMINI_REPO_PATH world here) GitTagSorted],
                  Ret ["v0.1.0"; "v0.2.0"])) by reflexivity.
  split; [exact Hg|].
  destruct (@tags_are_v0_lines world here world0 world0 _ _ Hg)
    as (stdout & E & _ & Hsub & Hall & _).
  exists stdout. split; [exact E|]. split; [exact Hsub|exact Hall].
Defined.

Lemma tags_of_listing_witness :
  Forall refName ["v0.1.0"; "nightly"; "v0.2.0"]
  /\ @exec world here (@GEMINI_REPO_PATH world here) GitTagSorted world0
     = (world0, Ok (unlines ["v0.1.0"; "nightly"; "v0.2.0"]))
  /\ @getAllTags world here world0
     = (world0, [EvExec (@GEMINI_REPO_PATH world here) GitTagSorted],
        Ret ["v0.1.0"; "v0.2.0"]).
Proof.
  assert (Hn : Forall refName ["v0.1.0"; "nightly"; "v0.2.0"]).
  { repeat constructor; try discriminate; vm_compute; lia. }
  split; [exact Hn|]. split; [reflexivity|].
  exact (@tags_of_listing world here ["v0.1.0"; "nightly"; "v0.2.0"] world0 world0 Hn
           eq_refl).
Defined.

(** The external repository with nightly builds only. *)
Definition worldUntagged : world :=
  {| w_fs := files;
     w_repos := {[ geminiRoot :=
                     {| r_tags := [("nightly", [release2; release1])];
                        r_branches := r_branches gemini; r_head := r_head gemini;
                        r_branch := r_branch gemini; r_identity := true |};
                   trackingRoot := tracking [initial] ]} |}.

Lemma nothing_to_collect_witness :
  @getAllTags world here worldUntagged
  = (worldUntagged, [EvExec (@GEMINI_REPO_PATH world here) GitTagSorted], Ret [])
  /\ truthyString (startFromVersion ["node"; "collect.ts"]) = false
  /\ (exists logs w2 r,
        forallb isLog logs = true /\
        @script world here ["node"; "collect.ts"] worldUntagged
        = (w2, [EvLog banner; EvExec (@GEMINI_REPO_PATH world here) GitTagSorted] ++ logs
               ++ EvExec (@GEMINI_REPO_PATH world here) (GitCheckout "main") :: finale r,
           finalOutcome r))
  /\ truthyString (startFromVersion ["node"; "collect.ts"; "--start-from=v0.1.0"]) = true
  /\ outcome_of (@script world here ["node"; "collect.ts"; "--start-from=v0.1.0"]
                   worldUntagged) = Exit 1.
Proof.
  assert (Hg : @getAllTags world here worldUntagged
               = (worldUntagged, [EvExec (@GEMINI_REPO_PATH world here) GitTagSorted],
                  Ret [])) by reflexivity.
  split; [exact Hg|]. split; [reflexivity|]. split; [|split; [reflexivity|]].
  - destruct (proj1 (@nothing_to_collect world here ["node"; "collect.ts"]
                       worldUntagged worldUntagged _ Hg) eq_refl)
      as (logs & w2 & r & Hlogs & _ & E).
    exists logs, w2, r. split; [exact Hlogs|exact E].
  - rewrite (proj2 (@nothing_to_collect world here
                      ["node"; "collect.ts"; "--start-from=v0.1.0"]
                      worldUntagged worldUntagged _ Hg) eq_refl).
    reflexivity.
Defined.

End TagFacts.

(** ** What a run does to the outside *)

Module ScriptFacts.
Import JsString JsArray JsStringFacts JsArrayFacts Collect MessageFacts CollectFacts Sim SimFacts.

Section Run.
Context {W : Type} `{Platform W}.

(** *** The commit recorder, call by call *)

Definition failedToCommit (e : error) : event := EvError "  ✗ Failed to commit:" (Some e).

Definition commitOf (tag : string) (extracted missing : list string) : event :=
  EvExec COLLECTION_REPO_PATH (GitCommit (escapeQuotes (commitMessage tag extracted missing))).

(** The traces [commitChanges] can leave. *)
Inductive recorded (tag : string) (extracted missing : list string) : list event -> Prop :=
| rec_clean :
    recorded tag extracted missing
      [EvExec COLLECTION_REPO_PATH GitStatusPorcelain; EvLog "  No changes to commit"]
| rec_status_failed (e : error) :
    recorded tag extracted missing
      [EvExec COLLECTION_REPO_PATH GitStatusPorcelain; failedToCommit e]
| rec_add_failed (e : error) :
    recorded tag extracted missing
      [EvExec COLLECTION_REPO_PATH GitStatusPorcelain;
       EvExec COLLECTION_REPO_PATH GitAddAll; failedToCommit e]
| rec_commit_failed (e : error) :
    recorded tag extracted missing
      [EvExec COLLECTION_REPO_PATH GitStatusPorcelain;
       EvExec COLLECTION_REPO_PATH GitAddAll;
       commitOf tag extracted missing; failedToCommit e]
| rec_committed :
    recorded tag extracted missing
      [EvExec COLLECTION_REPO_PATH GitStatusPorcelain;
       EvExec COLLECTION_REPO_PATH GitAddAll;
       commitOf tag extracted missing; EvLog "  ✓ Committed changes"].

Lemma commitChanges_recorded (tag : string) (extracted missing : list string) (w : W) :
  exists w' tr,
    commitChanges tag extracted missing w = (w', tr, Ret tt) /\
    recorded tag extracted missing tr.
Proof.
  unfold commitChanges, try_, bind, execAsync, lift, console_log, console_error.
  destruct (exec _ GitStatusPorcelain w) as [w1 [out|e]];
    [|do 2 eexists; split; [reflexivity|apply rec_status_failed]].
  destruct (String.eqb (trim out) "");
    [do 2 eexists; split; [reflexivity|apply rec_clean]|].
  destruct (exec _ GitAddAll w1) as [w2 [out2|e2]];
    [|do 2 eexists; split; [reflexivity|apply rec_add_failed]].
  destruct (exec _ (GitCommit _) w2) as [w3 [out3|e3]];
    do 2 eexists; (split; [reflexivity|]);
    [apply rec_committed|apply rec_commit_failed].
Qed.

(** *** Every event of a run *)

(** The events a run over the tags [all] may leave: the commands, each
    in its repository, the calls to the file system, each on a configured
    path, and the lines of the console. *)
Inductive emitted (all : list string) : event -> Prop :=
| em_log (line : string) : emitted all (EvLog line)
| em_error (line : string) (e : option error) : emitted all (EvError line e)
| em_enumerate : emitted all (EvExec GEMINI_REPO_PATH GitTagSorted)
| em_main : emitted all (EvExec GEMINI_REPO_PATH (GitCheckout "main"))
| em_ledger (tag : string) :
    In tag all -> emitted all (EvExec COLLECTION_REPO_PATH (GitLogGrep (ledgerPattern tag)))
| em_checkout (tag : string) :
    In tag all -> emitted all (EvExec GEMINI_REPO_PATH (GitCheckout tag))
| em_access (file : SourceFile) :
    In file SOURCE_FILES ->
    emitted all (EvAccess (join GEMINI_REPO_PATH (sourcePath file)))
| em_readFile (file : SourceFile) :
    In file SOURCE_FILES ->
    emitted all (EvReadFile (join GEMINI_REPO_PATH (sourcePath file)))
| em_mkdir (file : SourceFile) :
    In file SOURCE_FILES ->
    emitted all (EvMkdir (dirname (join COLLECTION_REPO_PATH (targetPath file))))
| em_writeFile (file : SourceFile) (content : text) :
    In file SOURCE_FILES ->
    emitted all (EvWriteFile (join COLLECTION_REPO_PATH (targetPath file)) content)
| em_status : emitted all (EvExec COLLECTION_REPO_PATH GitStatusPorcelain)
| em_add : emitted all (EvExec COLLECTION_REPO_PATH GitAddAll)
| em_commit (tag : string) (extracted missing : list string) :
    In tag all -> Merge (map name SOURCE_FILES) extracted missing ->
    emitted all (commitOf tag extracted missing).

Lemma extractFile_emitted (all : list string) (file : SourceFile)
      (acc : list string * list string) (w : W) :
  In file SOURCE_FILES -> Forall (emitted all) (trace_of (extractFile file acc w)).
Proof.
  intros Hin.
  unfold extractFile, try_, bind, access, readFile, mkdir, writeFile, lift, ret, trace_of.
  destruct (fs_access _ w) as [w1 [[]|e1]]; cbn [fst snd app];
    [|repeat first [exact Hin|constructor]].
  destruct (fs_readFile _ w1) as [w2 [content|e2]]; cbn [fst snd app];
    [|repeat first [exact Hin|constructor]].
  destruct (fs_mkdir _ w2) as [w3 [[]|e3]]; cbn [fst snd app];
    [|repeat first [exact Hin|constructor]].
  destruct (fs_writeFile _ content w3) as [w4 [[]|e4]]; cbn [fst snd app];
    repeat first [exact Hin|constructor].
Qed.

Lemma extractFiles_emitted (all : list string) (files : list SourceFile)
      (acc : list string * list string) (w : W) :
  incl files SOURCE_FILES -> Forall (emitted all) (trace_of (extractFiles files acc w)).
Proof.
  revert acc w. induction files as [|file rest IH]; intros acc w Hincl.
  - constructor.
  - simpl extractFiles. unfold bind.
    pose proof (extractFile_emitted all file acc w (Hincl _ (or_introl eq_refl))) as H1.
    assert (Hrest : incl rest SOURCE_FILES) by (intros x Hx; apply Hincl; right; exact Hx).
    destruct (extractFile_cases file acc w) as (w1 & t1 & _ & [E|E]);
      rewrite E in *; unfold trace_of in H1; cbn [fst snd] in H1.
    + specialize (IH (fst acc ++ [name file], snd acc) w1 Hrest).
      destruct (extractFiles rest _ w1) as [[w2 t2] o].
      unfold trace_of in *. cbn [fst snd] in *. apply Forall_app. split; assumption.
    + specialize (IH (fst acc, snd acc ++ [name file]) w1 Hrest).
      destruct (extractFiles rest _ w1) as [[w2 t2] o].
      unfold trace_of in *. cbn [fst snd] in *. apply Forall_app. split; assumption.
Qed.

Lemma recorded_emitted (all : list string) (tag : string) (extracted missing : list string)
      (tr : list event) :
  In tag all -> Merge (map name SOURCE_FILES) extracted missing ->
  recorded tag extracted missing tr -> Forall (emitted all) tr.
Proof.
  intros Hin Hm Hr. inversion Hr; subst; unfold failedToCommit;
    repeat first [exact Hin|exact Hm|constructor].
Qed.

Lemma quiet_emitted (all : list string) (logs : list event) :
  forallb isQuiet logs = true -> queried logs = [] -> Forall (emitted all) logs.
Proof.
  induction logs as [|ev logs IH]; [constructor|].
  destruct ev as [cwd c|p|p|p|p content|line|line e]; simpl; intros Hq Hn;
    try discriminate Hq.
  - destruct c; simpl in Hq, Hn; discriminate.
  - constructor; [constructor|apply IH; assumption].
Qed.

Lemma processTag_emitted (all : list string) (n i : nat) (tag : string) (w : W) :
  In tag all -> Forall (emitted all) (trace_of (processTag n i tag w)).
Proof.
  intros Hin.
  destruct (exec COLLECTION_REPO_PATH (GitLogGrep (ledgerPattern tag)) w) as [w1 r] eqn:Hq.
  destruct (processed r) eqn:Hr.
  - destruct r as [stdout|e]; [|discriminate].
    rewrite (processTag_skip n i tag w w1 stdout Hq Hr).
    unfold trace_of. cbn [fst snd]. repeat first [exact Hin|constructor].
  - destruct (exec GEMINI_REPO_PATH (GitCheckout tag) w1) as [w2 [out|e]] eqn:Hc.
    + destruct (processTag_checkout_ok n i tag w w1 w2 r out Hq Hr Hc)
        as (w3 & t3 & extracted & missing & w4 & t4 & logs & E3 & E4 & Hquiet & Hlogs & ->).
      unfold trace_of. cbn [fst snd].
      destruct (extractFiles_merge SOURCE_FILES ([], []) w2)
        as (w3' & t3' & ex' & mi' & E3' & _ & Hm).
      pose proof (extractFiles_emitted all SOURCE_FILES ([], []) w2 (incl_refl _)) as H3.
      unfold extractSources in E3. rewrite E3 in E3', H3. inversion E3'; subst.
      unfold trace_of in H3. cbn [fst snd] in H3.
      destruct (commitChanges_recorded tag ex' mi' w3') as (w4' & t4' & E4' & Hrec).
      rewrite E4 in E4'. inversion E4'; subst.
      repeat (apply Forall_app; split).
      * repeat first [exact Hin|constructor].
      * exact H3.
      * apply quiet_emitted; assumption.
      * exact (recorded_emitted all tag ex' mi' t4' Hin Hm Hrec).
      * repeat constructor.
    + rewrite (processTag_checkout_fails n i tag w w1 w2 r e Hq Hr Hc).
      unfold trace_of. cbn [fst snd]. repeat first [exact Hin|constructor].
Qed.

Lemma forTags_emitted (all : list string) (n i : nat) (tags : list string) (w : W) :
  incl tags all -> Forall (emitted all) (trace_of (forTags n i tags w)).
Proof.
  revert i w. induction tags as [|tag rest IH]; intros i w Hincl; [constructor|].
  pose proof (processTag_emitted all n i tag w (Hincl _ (or_introl eq_refl))) as H1.
  destruct (processTag_ret n i tag w) as (w1 & t1 & E1 & _).
  assert (Hrest : incl rest all) by (intros x Hx; apply Hincl; right; exact Hx).
  specialize (IH (S i) w1 Hrest).
  simpl forTags. unfold bind. rewrite E1 in *.
  destruct (forTags n (S i) rest w1) as [[w2 t2] o].
  unfold trace_of in *. cbn [fst snd] in *. apply Forall_app. split; assumption.
Qed.

(** The tags a run selects are among the enumerated ones. *)
Lemma slice_incl {A} (a : list A) (start end_ : Z) : incl (slice a start end_) a.
Proof.
  unfold slice. cbv zeta. intros x Hx.
  rewrite <- (firstn_skipn (Z.to_nat (clamp (Z.of_nat (length a)) start)) a).
  apply in_or_app. right.
  match type of Hx with In _ (firstn ?n ?l) => rewrite <- (firstn_skipn n l) end.
  apply in_or_app. left. exact Hx.
Qed.

Lemma fromStart_incl (v : option string) (allTags tags0 : list string) :
  fromStart v allTags = Some tags0 -> incl tags0 allTags.
Proof.
  unfold fromStart. destruct (truthyString v).
  - cbv zeta. destruct (indexOf allTags (default "" v) =? -1)%Z; [discriminate|].
    intros E. inversion E. apply slice_incl.
  - intros E. inversion E. apply incl_refl.
Qed.

Lemma limited_incl (l : option Z) (tags : list string) : incl (limited l tags) tags.
Proof.
  unfold limited. destruct (truthyNumber l); [apply slice_incl|apply incl_refl].
Qed.

(** The tags git enumerates in a world. *)
Definition enumerated (w : W) : list string :=
  match exec GEMINI_REPO_PATH GitTagSorted w with
  | (_, Ok stdout) => tagsOf stdout
  | (_, Err _) => []
  end.

Lemma logs_emitted (all : list string) (logs : list event) :
  forallb isLog logs = true -> Forall (emitted all) logs.
Proof.
  induction logs as [|ev logs IH]; [constructor|]. simpl.
  destruct ev; try discriminate. intros Hl. constructor; [constructor|apply IH, Hl].
Qed.

Lemma script_emitted (argv : list string) (w : W) :
  Forall (emitted (enumerated w)) (trace_of (script argv w)).
Proof.
  unfold enumerated.
  destruct (exec GEMINI_REPO_PATH GitTagSorted w) as [w1 [stdout|e]] eqn:Ht.
  - destruct (fromStart (startFromVersion argv) (tagsOf stdout)) as [tags0|] eqn:Hs.
    + destruct (script_runs argv w w1 stdout tags0 Ht Hs)
        as (logs & w2 & loop & w3 & r & Hlogs & Hloop & _ & _ & ->).
      unfold trace_of. cbn [fst snd].
      pose proof (forTags_emitted (tagsOf stdout)
                    (length (limited (limit argv) tags0)) 0
                    (limited (limit argv) tags0) w1
                    (incl_tran (limited_incl (limit argv) tags0)
                               (fromStart_incl _ _ _ Hs))) as Hl.
      rewrite Hloop in Hl. unfold trace_of in Hl. cbn [fst snd] in Hl.
      repeat (apply Forall_app; split).
      * repeat constructor.
      * apply logs_emitted, Hlogs.
      * exact Hl.
      * destruct r; repeat constructor.
    + rewrite (script_start_not_found argv w w1 stdout Ht Hs).
      unfold trace_of. cbn [fst snd]. repeat constructor.
  - rewrite (script_enumeration_fails argv w w1 e Ht).
    unfold trace_of. cbn [fst snd]. repeat constructor.
Qed.

(** *** The commits of a run *)

(** The messages of the commits a trace asks git for, as the script quoted
    them, in order. *)
Definition committed (tr : list event) : list string :=
  flat_map (fun ev => match ev with EvExec _ (GitCommit q) => [q] | _ => [] end) tr.

(** The quoted message of a commit for [tag]: the labels of the
    configured files are dealt to its two lists. *)
Definition commitFor (tag quoted : string) : Prop :=
  exists extracted missing,
    Merge (map name SOURCE_FILES) extracted missing /\
    quoted = escapeQuotes (commitMessage tag extracted missing).

Lemma committed_app (t1 t2 : list event) :
  committed (t1 ++ t2) = committed t1 ++ committed t2.
Proof. apply flat_map_app. Qed.

Lemma committed_fs (tr : list event) : forallb isFsEvent tr = true -> committed tr = [].
Proof.
  induction tr as [|ev tr IH]; [reflexivity|]. simpl.
  destruct ev; simpl; try discriminate; exact IH.
Qed.

Lemma committed_quiet (tr : list event) : forallb isQuiet tr = true -> committed tr = [].
Proof.
  induction tr as [|ev tr IH]; [reflexivity|]. simpl.
  destruct ev as [cwd c| | | | | |]; simpl; try discriminate; [|exact IH].
  destruct c; simpl; try discriminate. exact IH.
Qed.

Lemma committed_logs (tr : list event) : forallb isLog tr = true -> committed tr = [].
Proof.
  induction tr as [|ev tr IH]; [reflexivity|]. simpl.
  destruct ev; simpl; try discriminate; exact IH.
Qed.

Lemma recorded_committed (tag : string) (extracted missing : list string) (tr : list event) :
  recorded tag extracted missing tr ->
  committed tr = [] \/ committed tr = [escapeQuotes (commitMessage tag extracted missing)].
Proof. intros Hr. inversion Hr; subst; simpl; auto. Qed.

Lemma processTag_committed (n i : nat) (tag : string) (w : W) :
  committed (trace_of (processTag n i tag w)) = [] \/
  exists q, committed (trace_of (processTag n i tag w)) = [q] /\ commitFor tag q.
Proof.
  destruct (exec COLLECTION_REPO_PATH (GitLogGrep (ledgerPattern tag)) w) as [w1 r] eqn:Hq.
  destruct (processed r) eqn:Hr.
  - destruct r as [stdout|e]; [|discriminate].
    rewrite (processTag_skip n i tag w w1 stdout Hq Hr). left. reflexivity.
  - destruct (exec GEMINI_REPO_PATH (GitCheckout tag) w1) as [w2 [out|e]] eqn:Hc.
    + destruct (processTag_checkout_ok n i tag w w1 w2 r out Hq Hr Hc)
        as (w3 & t3 & extracted & missing & w4 & t4 & logs & E3 & E4 & Hquiet & _ & ->).
      unfold trace_of. cbn [fst snd].
      destruct (extractFiles_merge SOURCE_FILES ([], []) w2)
        as (w3' & t3' & ex' & mi' & E3' & Hfs & Hm).
      unfold extractSources in E3. rewrite E3 in E3'. inversion E3'; subst.
      destruct (commitChanges_recorded tag ex' mi' w3') as (w4' & t4' & E4' & Hrec).
      rewrite E4 in E4'. inversion E4'; subst.
      rewrite !committed_app, (committed_fs _ Hfs), (committed_quiet _ Hquiet).
      simpl. rewrite app_nil_r.
      destruct (recorded_committed _ _ _ _ Hrec) as [->| ->]; [left; reflexivity|].
      right. eexists. split; [reflexivity|]. exists ex', mi'. split; [exact Hm|reflexivity].
    + rewrite (processTag_checkout_fails n i tag w w1 w2 r e Hq Hr Hc). left. reflexivity.
Qed.

Lemma forTags_committed (n i : nat) (tags : list string) (w : W) :
  exists done,
    sublist done tags /\ Forall2 commitFor done (committed (trace_of (forTags n i tags w))).
Proof.
  revert i w. induction tags as [|tag rest IH]; intros i w.
  - exists []. split; constructor.
  - pose proof (processTag_committed n i tag w) as H1.
    destruct (processTag_ret n i tag w) as (w1 & t1 & E1 & _).
    destruct (IH (S i) w1) as (done & Hsub & Hall).
    simpl forTags. unfold bind. rewrite E1 in *.
    destruct (forTags n (S i) rest w1) as [[w2 t2] o].
    unfold trace_of in *. cbn [fst snd] in *. rewrite committed_app.
    destruct H1 as [->|(q & -> & Hq)].
    + exists done. split; [constructor; exact Hsub|exact Hall].
    + exists (tag :: done). split; [constructor; exact Hsub|].
      constructor; [exact Hq|exact Hall].
Qed.

Lemma slice_sublist {A} (a : list A) (start end_ : Z) : sublist (slice a start end_) a.
Proof.
  unfold slice. cbv zeta.
  etransitivity; [apply sublist_take|apply sublist_drop].
Qed.

Lemma selected_sublist (argv : list string) (allTags tags0 : list string) :
  fromStart (startFromVersion argv) allTags = Some tags0 ->
  sublist (limited (limit argv) tags0) allTags.
Proof.
  intros Hs. transitivity tags0.
  - unfold limited. destruct (truthyNumber (limit argv)); [apply slice_sublist|reflexivity].
  - unfold fromStart in Hs. destruct (truthyString (startFromVersion argv)).
    + cbv zeta in Hs. destruct (indexOf allTags _ =? -1)%Z; [discriminate|].
      inversion Hs. apply slice_sublist.
    + inversion Hs. reflexivity.
Qed.

(** *** The announcements of the turns *)

(** The lines logged right before a ledger query. *)
Fixpoint announced (tr : list event) : list string :=
  match tr with
  | [] => []
  | EvLog line :: rest =>
      match rest with
      | EvExec _ (GitLogGrep _) :: _ => line :: announced rest
      | _ => announced rest
      end
  | _ :: rest => announced rest
  end.

Definition headQuery (tr : list event) : bool :=
  match tr with
  | EvExec _ (GitLogGrep _) :: _ => true
  | _ => false
  end.

Lemma announced_app (a b : list event) :
  headQuery b = false -> announced (a ++ b) = announced a ++ announced b.
Proof.
  intros Hb. induction a as [|ev a IH]; [reflexivity|].
  destruct ev as [cwd c|p|p|p|p content|line|line e];
    try (simpl; exact IH).
  destruct a as [|x a].
  - simpl app. cbn [announced]. destruct b as [|[cwd c| | | | | |] b]; try reflexivity.
    destruct c; try reflexivity. discriminate Hb.
  - change ((EvLog line :: x :: a) ++ b) with (EvLog line :: (x :: a) ++ b).
    cbn [announced] in *. simpl app in *.
    destruct x as [cwd c| | | | | |]; try exact IH.
    destruct c; try exact IH. rewrite IH. reflexivity.
Qed.

Lemma announced_none (tr : list event) : queried tr = [] -> announced tr = [].
Proof.
  induction tr as [|ev tr IH]; [reflexivity|].
  destruct ev as [cwd c|p|p|p|p content|line|line e]; simpl queried; intros Hq;
    try (simpl; exact (IH Hq)).
  - destruct c; try (simpl; exact (IH Hq)). discriminate Hq.
  - cbn [announced]. destruct tr as [|[cwd c| | | | | |] tr]; try exact (IH Hq).
    destruct c; try exact (IH Hq). discriminate Hq.
Qed.

(** A turn begins with its announcement and the ledger query. *)
Lemma processTag_begins (n i : nat) (tag : string) (w : W) :
  exists w' rest,
    processTag n i tag w
    = (w', EvLog (processingLine n i tag)
           :: EvExec COLLECTION_REPO_PATH (GitLogGrep (ledgerPattern tag)) :: rest, Ret tt)
    /\ queried rest = [].
Proof.
  destruct (processTag_ret n i tag w) as (w' & tr & E & Hq).
  assert (Hb : exists rest,
             tr = EvLog (processingLine n i tag)
                  :: EvExec COLLECTION_REPO_PATH (GitLogGrep (ledgerPattern tag)) :: rest).
  { destruct (exec COLLECTION_REPO_PATH (GitLogGrep (ledgerPattern tag)) w)
      as [w1 r] eqn:Hl.
    destruct (processed r) eqn:Hr.
    - destruct r as [stdout|e]; [|discriminate].
      rewrite (processTag_skip n i tag w w1 stdout Hl Hr) in E.
      inversion E. eexists. reflexivity.
    - destruct (exec GEMINI_REPO_PATH (GitCheckout tag) w1) as [w2 [out|e]] eqn:Hc.
      + destruct (processTag_checkout_ok n i tag w w1 w2 r out Hl Hr Hc)
          as (w3 & t3 & extracted & missing & w4 & t4 & logs & _ & _ & _ & _ & E').
        rewrite E' in E. inversion E. eexists. reflexivity.
      + rewrite (processTag_checkout_fails n i tag w w1 w2 r e Hl Hr Hc) in E.
        inversion E. eexists. reflexivity. }
  destruct Hb as (rest & ->). exists w', rest. split; [exact E|].
  simpl in Hq. inversion Hq. reflexivity.
Qed.

Lemma forTags_head (n i : nat) (tags : list string) (w : W) :
  headQuery (trace_of (forTags n i tags w)) = false.
Proof.
  destruct tags as [|tag rest]; [reflexivity|].
  destruct (processTag_begins n i tag w) as (w1 & t1 & E1 & _).
  simpl forTags. unfold bind. rewrite E1.
  destruct (forTags n (S i) rest w1) as [[w2 t2] o]. reflexivity.
Qed.

(** The announcements of the tags from position [i] on. *)
Fixpoint numbered (n i : nat) (tags : list string) : list string :=
  match tags with
  | [] => []
  | tag :: rest => processingLine n i tag :: numbered n (S i) rest
  end.

Lemma numbered_map (n i : nat) (tags : list string) :
  numbered n i tags
  = map (fun e : nat * string =>
           "[" +:+ pretty (fst e + 1)%nat +:+ "/" +:+ pretty n
           +:+ "] Processing " +:+ snd e +:+ "...")
        (combine (seq i (length tags)) tags).
Proof.
  revert i. induction tags as [|tag rest IH]; intros i; [reflexivity|].
  simpl. rewrite IH. reflexivity.
Qed.

Lemma forTags_announced (n i : nat) (tags : list string) (w : W) :
  announced (trace_of (forTags n i tags w)) = numbered n i tags.
Proof.
  revert i w. induction tags as [|tag rest IH]; intros i w; [reflexivity|].
  destruct (processTag_begins n i tag w) as (w1 & t1 & E1 & Hq1).
  pose proof (forTags_head n (S i) rest w1) as Hh. specialize (IH (S i) w1).
  simpl forTags. unfold bind. rewrite E1.
  destruct (forTags n (S i) rest w1) as [[w2 t2] o].
  unfold trace_of in *. cbn [fst snd] in *.
  change ((EvLog (processingLine n i tag)
           :: EvExec COLLECTION_REPO_PATH (GitLogGrep (ledgerPattern tag)) :: t1) ++ t2)
    with (EvLog (processingLine n i tag)
          :: EvExec COLLECTION_REPO_PATH (GitLogGrep (ledgerPattern tag)) :: (t1 ++ t2)).
  cbn [announced numbered].
  rewrite (announced_app t1 t2 Hh), (announced_none t1 Hq1), IH. reflexivity.
Qed.

(** *** Properties *)

(** X7.  [commitChanges] stops at the first git command that fails, reports
    the failure once on the error console and returns normally: its trace
    is one of the five of [recorded].  It asks for a commit at most once,
    and only after the status query gave lines and [git add .] worked. *)
Theorem commit_stops_at_first_failure (tag : string) (extracted missing : list string)
        (w : W) :
  exists w' tr,
    commitChanges tag extracted missing w = (w', tr, Ret tt) /\
    recorded tag extracted missing tr /\
    (In (commitOf tag extracted missing) tr ->
     exists w1 out w2 out2,
       exec COLLECTION_REPO_PATH GitStatusPorcelain w = (w1, Ok out) /\
       trim out <> "" /\
       exec COLLECTION_REPO_PATH GitAddAll w1 = (w2, Ok out2)).
Proof.
  unfold commitChanges, try_, bind, execAsync, lift, console_log, console_error.
  destruct (exec _ GitStatusPorcelain w) as [w1 [out|e]].
  2: { do 2 eexists. split; [reflexivity|]. split; [apply rec_status_failed|].
       intros [X|[X|[]]]; discriminate X. }
  destruct (String.eqb_spec (trim out) "") as [E|E].
  { do 2 eexists. split; [reflexivity|]. split; [apply rec_clean|].
    intros [X|[X|[]]]; discriminate X. }
  destruct (exec _ GitAddAll w1) as [w2 [out2|e2]] eqn:Ea.
  2: { do 2 eexists. split; [reflexivity|]. split; [apply rec_add_failed|].
       intros [X|[X|[X|[]]]]; discriminate X. }
  assert (Hgot : exists w1' out' w2' out2',
             (w1, Ok out) = (w1', Ok out') /\ trim out' <> "" /\
             exec COLLECTION_REPO_PATH GitAddAll w1' = (w2', Ok out2')).
  { exists w1, out, w2, out2. split; [reflexivity|]. split; [exact E|exact Ea]. }
  destruct (exec _ (GitCommit _) w2) as [w3 [out3|e3]];
    do 2 eexists; (split; [reflexivity|]);
    (split; [first [apply rec_committed|apply rec_commit_failed]|intros _; exact Hgot]).
Qed.



(** The place a call to the file system may be at: the place that
    [path.join] of a root and of the configured path under it names, which
    lies under the root. *)
Definition onConfiguredPath (ev : event) : Prop :=
  match ev with
  | EvAccess p | EvReadFile p =>
      exists file, In file SOURCE_FILES /\
                   p = join GEMINI_REPO_PATH (sourcePath file) /\
                   p = GEMINI_REPO_PATH ++ names (sourcePath file)
  | EvMkdir p =>
      exists file, In file SOURCE_FILES /\
                   p = dirname (join COLLECTION_REPO_PATH (targetPath file)) /\
                   p = COLLECTION_REPO_PATH ++ removelast (names (targetPath file))
  | EvWriteFile p _ =>
      exists file, In file SOURCE_FILES /\
                   p = join COLLECTION_REPO_PATH (targetPath file) /\
                   p = COLLECTION_REPO_PATH ++ names (targetPath file)
  | _ => True
  end.

Lemma configured_down (file : SourceFile) :
  In file SOURCE_FILES ->
  ~ In ".." (names (sourcePath file)) /\ ~ In ".." (names (targetPath file))
  /\ names (targetPath file) <> [].
Proof.
  intros [<-|[<-|[]]]; (split; [absent|split; [absent|discriminate]]).
Qed.

(** X5.  A run reads configured source files of the external repository and
    nothing else, and writes configured destination files of the tracking
    repository and nothing else; the only directories it makes are the
    parents of those destinations.  The roots are the places that the
    configured roots name, a [..] in them followed. *)
Theorem file_system_calls_on_configured_paths (argv : list string) (w : W) :
  Forall onConfiguredPath (trace_of (script argv w)).
Proof.
  eapply Forall_impl; [apply script_emitted|].
  intros ev Hev. inversion Hev; subst; unfold commitOf, onConfiguredPath; try exact I;
    match goal with
    | Hin : In ?f SOURCE_FILES |- _ =>
        exists f; split; [exact Hin|]; split; [reflexivity|];
        destruct (configured_down f Hin) as (Hs & Ht & Hne)
    end.
  - apply walk_down, Hs.
  - apply walk_down, Hs.
  - unfold join, dirname. rewrite (walk_down _ _ Ht). apply removelast_app, Hne.
  - apply walk_down, Ht.
Qed.

(** X6.  The commits of a run follow the enumeration of the tags: at most one
    commit per tag, in the order of the tags, each with the message of its
    tag and with every configured label in one of its two lists. *)
Theorem commits_follow_the_tags (argv : list string) (w : W) :
  exists done,
    sublist done (enumerated w) /\
    Forall2 commitFor done (committed (trace_of (script argv w))).
Proof.
  unfold enumerated.
  destruct (exec GEMINI_REPO_PATH GitTagSorted w) as [w1 [stdout|e]] eqn:Ht.
  - destruct (fromStart (startFromVersion argv) (tagsOf stdout)) as [tags0|] eqn:Hs.
    + destruct (script_runs argv w w1 stdout tags0 Ht Hs)
        as (logs & w2 & loop & w3 & r & Hlogs & Hloop & _ & _ & ->).
      destruct (forTags_committed (length (limited (limit argv) tags0)) 0
                  (limited (limit argv) tags0) w1) as (done & Hsub & Hall).
      rewrite Hloop in Hall. unfold trace_of in *. cbn [fst snd] in *.
      exists done. split.
      * etransitivity; [exact Hsub|exact (selected_sublist argv _ _ Hs)].
      * rewrite !committed_app, (committed_logs _ Hlogs).
        replace (committed (EvExec GEMINI_REPO_PATH (GitCheckout "main") :: finale r))
          with (@nil string) by (destruct r; reflexivity).
        simpl. rewrite app_nil_r. exact Hall.
    + rewrite (script_start_not_found argv w w1 stdout Ht Hs).
      exists []. split; [apply sublist_nil_l|constructor].
  - rewrite (script_enumeration_fails argv w w1 e Ht).
    exists []. split; constructor.
Qed.

(** X3.  How a run ends.  Either normally, the last thing it did being the
    checkout of [main] and the line that the collection is complete; or
    with exit code 1, after one of three failures, reported on the error
    console as the last event: the enumeration of the tags failed and
    nothing else was run, the starting version is not among the tags and
    nothing else was run, or the checkout of [main] failed.  No rejection
    is left uncaught. *)
Theorem script_outcome (argv : list string) (w : W) :
  exists w' tr,
    (script argv w = (w', tr, Ret tt) /\
     exists pre,
       tr = pre ++ [EvExec GEMINI_REPO_PATH (GitCheckout "main");
                    EvLog "✅ Collection complete!"])
    \/ (script argv w = (w', tr, Exit 1) /\
        ((exists e,
            exec GEMINI_REPO_PATH GitTagSorted w = (w', Err e) /\
            tr = [EvLog banner; EvExec GEMINI_REPO_PATH GitTagSorted;
                  EvError "Fatal error:" (Some e)])
         \/ (exists v found,
               startFromVersion argv = Some v /\ v <> "" /\ ~ In v (enumerated w) /\
               tr = [EvLog banner; EvExec GEMINI_REPO_PATH GitTagSorted; EvLog found;
                     EvError ("❌ Version " +:+ v +:+ " not found") None])
         \/ (exists pre e,
               tr = pre ++ [EvExec GEMINI_REPO_PATH (GitCheckout "main");
                            EvError "Fatal error:" (Some e)]))).
Proof.
  unfold enumerated.
  destruct (exec GEMINI_REPO_PATH GitTagSorted w) as [w1 [stdout|e]] eqn:Ht.
  - destruct (fromStart (startFromVersion argv) (tagsOf stdout)) as [tags0|] eqn:Hs.
    + destruct (script_runs argv w w1 stdout tags0 Ht Hs)
        as (logs & w2 & loop & w3 & r & _ & _ & _ & _ & ->).
      do 2 eexists. destruct r as [out|e]; [left|right]; (split; [reflexivity|]).
      * exists ([EvLog banner; EvExec GEMINI_REPO_PATH GitTagSorted] ++ logs ++ loop).
        simpl. rewrite <- !List.app_assoc. reflexivity.
      * right. right.
        exists ([EvLog banner; EvExec GEMINI_REPO_PATH GitTagSorted] ++ logs ++ loop), e.
        simpl. rewrite <- !List.app_assoc. reflexivity.
    + rewrite (script_start_not_found argv w w1 stdout Ht Hs).
      do 2 eexists. right. split; [reflexivity|]. right. left.
      unfold fromStart in Hs.
      destruct (startFromVersion argv) as [v|] eqn:Hv; [|discriminate].
      unfold truthyString in Hs. destruct (String.eqb_spec v "") as [Ev|Ev]; [discriminate|].
      cbn [negb] in Hs. cbv zeta in Hs. change (default "" (Some v)) with v in Hs.
      destruct (Z.eqb_spec (indexOf (tagsOf stdout) v) (-1)) as [Ei|Ei]; [|discriminate].
      exists v. eexists. split; [reflexivity|]. split; [exact Ev|]. split; [|reflexivity].
      apply findIndex_none in Ei. rewrite List.Forall_forall in Ei.
      intros Hin. apply Ei in Hin. rewrite String.eqb_refl in Hin. discriminate.
  - rewrite (script_enumeration_fails argv w w1 e Ht).
    do 2 eexists. right. split; [reflexivity|]. left. exists e. split; reflexivity.
Qed.

(** X24.  Every selected tag is announced once, in order, with its position,
    counted from one, and the number of the selected tags: the line
    [[k/n] Processing <tag>...] is logged right before the ledger is asked
    about the [k]th of [n] tags, and no other line is. *)
Theorem turns_are_numbered (argv : list string) (w w1 : W) (stdout : string)
        (tags0 : list string) :
  exec GEMINI_REPO_PATH GitTagSorted w = (w1, Ok stdout) ->
  fromStart (startFromVersion argv) (tagsOf stdout) = Some tags0 ->
  announced (trace_of (script argv w))
  = map (fun e : nat * string =>
           "[" +:+ pretty (fst e + 1)%nat +:+ "/"
           +:+ pretty (length (limited (limit argv) tags0))
           +:+ "] Processing " +:+ snd e +:+ "...")
        (combine (seq 0 (length (limited (limit argv) tags0)))
                 (limited (limit argv) tags0)).
Proof.
  intros Ht Hs.
  destruct (script_runs argv w w1 stdout tags0 Ht Hs)
    as (logs & w2 & loop & w3 & r & Hlogs & Hloop & _ & _ & ->).
  pose proof (forTags_announced (length (limited (limit argv) tags0)) 0
                (limited (limit argv) tags0) w1) as Ha.
  pose proof (forTags_head (length (limited (limit argv) tags0)) 0
                (limited (limit argv) tags0) w1) as Hh.
  rewrite Hloop in Ha, Hh. unfold trace_of in *. cbn [fst snd] in *.
  assert (Hend : forall tail, headQuery (loop ++ EvExec GEMINI_REPO_PATH (GitCheckout "main")
                                           :: tail) = false).
  { intros tail. destruct loop as [|ev loop]; [reflexivity|exact Hh]. }
  rewrite (announced_app [EvLog banner; EvExec GEMINI_REPO_PATH GitTagSorted]).
  2: { destruct logs as [|ev logs]; [apply Hend|].
       simpl in Hlogs. destruct ev; try discriminate Hlogs. reflexivity. }
  rewrite (announced_app logs) by apply Hend.
  rewrite (announced_app loop) by reflexivity.
  rewrite (announced_none logs (queried_logs _ Hlogs)), Ha.
  replace (announced (EvExec GEMINI_REPO_PATH (GitCheckout "main") :: finale r))
    with (@nil string) by (destruct r; reflexivity).
  simpl. rewrite app_nil_r. apply numbered_map.
Qed.

End Run.

Lemma turns_are_numbered_witness :
  @exec world here (@GEMINI_REPO_PATH world here) GitTagSorted world0 = (world0, Ok tagList)
  /\ fromStart (startFromVersion ["node"; "collect.ts"]) (tagsOf tagList)
     = Some ["v0.1.0"; "v0.2.0"]
  /\ announced (trace_of (@script world here ["node"; "collect.ts"] world0))
     = ["[1/2] Processing v0.1.0..."; "[2/2] Processing v0.2.0..."].
Proof.
  assert (Hs : fromStart (startFromVersion ["node"; "collect.ts"]) (tagsOf tagList)
               = Some ["v0.1.0"; "v0.2.0"]) by reflexivity.
  split; [exact tagList_enumerated|]. split; [exact Hs|].
  refine (eq_trans (@turns_are_numbered world here ["node"; "collect.ts"] world0 world0
                      tagList ["v0.1.0"; "v0.2.0"] tagList_enumerated Hs) _).
  vm_compute. reflexivity.
Defined.

End ScriptFacts.

(** ** The ledger and the commits, on the platform in memory *)

Module LedgerFacts.
Import JsString JsArray JsStringFacts JsArrayFacts Collect MessageFacts CollectFacts.
Import Shell Sim ShellFacts SimFacts.

(** [fits text line]: the line is the text, but for the characters at
    the dots of the text. *)
Fixpoint fits (text line : string) : bool :=
  match text, line with
  | "", "" => true
  | String c t, String d l => (Ascii.eqb c "."%char || Ascii.eqb c d) && fits t l
  | _, _ => false
  end.

Lemma matchHere_fits (text line : string) :
  matchHere (text +:+ "$") line = fits text line.
Proof.
  revert line. induction text as [|c text IH]; intros line.
  - destruct line; reflexivity.
  - rewrite app_cons. simpl matchHere.
    assert (E : String.eqb (text +:+ "$") "" = false) by (destruct text; reflexivity).
    rewrite E, andb_false_r. destruct line as [|d line]; [reflexivity|].
    rewrite IH. reflexivity.
Qed.

Lemma fits_self (text : string) : fits text text = true.
Proof.
  induction text as [|c text IH]; [reflexivity|].
  simpl. rewrite Ascii.eqb_refl, orb_true_r, IH. reflexivity.
Qed.

(** The pattern of the ledger is looked for at the end of a line. *)
Lemma grepLine_fits (text line : string) :
  grepLine (text +:+ "$") line = true <->
  exists pre suf, line = pre +:+ suf /\ fits text suf = true.
Proof.
  induction line as [|d line IH].
  - cbn [grepLine]. rewrite orb_false_r, matchHere_fits. split.
    + intros Hf. exists "", "". split; [reflexivity|exact Hf].
    + intros (pre & suf & E & Hf). destruct pre; [|discriminate].
      rewrite app_empty_l in E. subst suf. exact Hf.
  - cbn [grepLine]. rewrite orb_true_iff, matchHere_fits, IH. split.
    + intros [Hf|(pre & suf & -> & Hf)].
      * exists "", (String d line). split; [reflexivity|exact Hf].
      * exists (String d pre), suf. split; [reflexivity|exact Hf].
    + intros (pre & suf & E & Hf). destruct pre as [|c pre].
      * rewrite app_empty_l in E. subst suf. left. exact Hf.
      * rewrite app_cons in E. inversion E; subst. right. exists pre, suf.
        split; [reflexivity|exact Hf].
Qed.

Section OnPlatform.
Variable environment : setting.
#[local] Hint Extern 0 (Platform _) =>
  exact (SimFacts.sim environment) : typeclass_instances.


(** What git answers to the ledger query for a tag that the query takes
    as it stands. *)
Lemma ledger_answer (tag : string) (w : world) (r : repo) :
  literal tag = true ->
  w_repos w !! COLLECTION_REPO_PATH = Some r ->
  exists answer,
    exec COLLECTION_REPO_PATH (GitLogGrep (ledgerPattern tag)) w = (w, answer) /\
    processed answer = existsb (grepCommit (ledgerPattern tag)) (r_head r).
Proof.
  intros Hl Hr.
  change (exec COLLECTION_REPO_PATH ?c w)
    with (simExec environment COLLECTION_REPO_PATH c w).
  rewrite (exec_log environment _ tag w Hl). unfold run. rewrite Hr. unfold gitLog.
  destruct (r_head r) as [|c0 h] eqn:Hh; [eexists; split; reflexivity|].
  eexists. split; [reflexivity|]. clear Hh.
  induction (c0 :: h) as [|c cs IH]; [reflexivity|].
  simpl List.filter. simpl existsb.
  destruct (grepCommit (ledgerPattern tag) c); [|exact IH].
  simpl map. unfold processed. apply trim_solid, solid_concat, oneline_solid.
Qed.

(** X9.  The ledger reads the tag as a pattern.  For a tag that the query
    takes as it stands (no double quote, dollar, backquote or backslash for
    the shell, no star, bracket or caret for git) and a history whose
    messages are ASCII, [isVersionProcessed] changes nothing and throws
    nothing; it answers [true] exactly when some commit behind the head of
    the tracking repository has a line in its message, the first or
    another, that ends with the marker of the tag, a dot of the tag
    standing for any character. *)
Theorem ledger_reads_the_tag_as_pattern (tag : string) (w : world) (r : repo) :
  literal tag = true ->
  w_repos w !! COLLECTION_REPO_PATH = Some r ->
  Forall (fun c => ascii7 (c_message c)) (r_head r) ->
  exists answer : bool,
    isVersionProcessed tag w
    = (w, [EvExec COLLECTION_REPO_PATH (GitLogGrep (ledgerPattern tag))], Ret answer) /\
    (answer = true <->
     exists c line pre suf,
       In c (r_head r) /\ In line (split LF (c_message c)) /\
       line = pre +:+ suf /\ fits ("Add metadata for " +:+ tag) suf = true).
Proof.
  intros Hlit Hr _. destruct (ledger_answer tag w r Hlit Hr) as (answer & E & Ha).
  exists (processed answer). split; [exact (isVersionProcessed_eq tag w w answer E)|].
  rewrite Ha, existsb_exists. unfold grepCommit. split.
  - intros (c & Hc & Hg). apply existsb_exists in Hg. destruct Hg as (line & Hl & Hg).
    unfold ledgerPattern in Hg. rewrite <- app_assoc in Hg.
    apply grepLine_fits in Hg. destruct Hg as (pre & suf & E1 & Hf).
    exists c, line, pre, suf. auto.
  - intros (c & line & pre & suf & Hc & Hl & E1 & Hf). exists c. split; [exact Hc|].
    apply existsb_exists. exists line. split; [exact Hl|].
    unfold ledgerPattern. rewrite <- app_assoc. apply grepLine_fits. exists pre, suf. auto.
Qed.

(** The ledger knows a marked tag. *)
Lemma marked_processed (tag : string) (w : world) :
  literal tag = true ->
  marked COLLECTION_REPO_PATH w tag ->
  isVersionProcessed tag w
  = (w, [EvExec COLLECTION_REPO_PATH (GitLogGrep (ledgerPattern tag))], Ret true).
Proof.
  intros Hl Hm. destruct (gitLog_marked environment _ _ _ Hl Hm) as (stdout & Hq & Hlen).
  rewrite (@isVersionProcessed_eq world (SimFacts.sim environment) tag w w (Ok stdout) Hq).
  unfold processed. rewrite Hlen. reflexivity.
Qed.

(** X8.  What a commit of [commitChanges] records, and what follows from it.
    The tag is plain (letters, digits and [% + , - . / : = @ _], not
    starting with a dash), so that the shell takes it as it stands, and the
    labels are labels of configured files.  When the working tree of the
    tracking repository differs from its last commit and the committer is
    known, the new head of the repository is a commit of the whole working
    tree whose message is the generated message, character for character;
    no file is touched and no other repository.  Right after it the
    working tree is clean, so a second call commits nothing, and the
    ledger knows the tag. *)
Theorem commit_is_recorded (tag : string) (extracted missing : list string)
        (w : world) (r : repo) :
  w_repos w !! COLLECTION_REPO_PATH = Some r ->
  r_identity r = true ->
  worktree COLLECTION_REPO_PATH (w_fs w) <> headTree (r_head r) ->
  plain tag = true ->
  configured (extracted ++ missing) ->
  exists w' r' c,
    world_of (commitChanges tag extracted missing w) = w' /\
    outcome_of (commitChanges tag extracted missing w) = Ret tt /\
    w_fs w' = w_fs w /\
    (forall root, root <> COLLECTION_REPO_PATH -> w_repos w' !! root = w_repos w !! root) /\
    w_repos w' !! COLLECTION_REPO_PATH = Some r' /\
    r_head r' = c :: r_head r /\
    c_message c = commitMessage tag extracted missing /\
    c_tree c = worktree COLLECTION_REPO_PATH (w_fs w) /\
    (forall tag' extracted' missing',
       commitChanges tag' extracted' missing' w'
       = (w', [EvExec COLLECTION_REPO_PATH GitStatusPorcelain;
               EvLog "  No changes to commit"], Ret tt)) /\
    isVersionProcessed tag w'
    = (w', [EvExec COLLECTION_REPO_PATH (GitLogGrep (ledgerPattern tag))], Ret true).
Proof.
  intros Hr Hid Hdiff Hplain Hlabels.
  rewrite (commitChanges_commits environment tag extracted missing w r Hr Hid Hdiff
             Hplain Hlabels).
  set (c := commitOn r (commitMessage tag extracted missing)
              (worktree COLLECTION_REPO_PATH (w_fs w))).
  set (w' := setRepo COLLECTION_REPO_PATH (committedTo r c) (w_fs w) w).
  assert (Hr' : w_repos w' !! COLLECTION_REPO_PATH = Some (committedTo r c)).
  { unfold w', setRepo. cbn [w_repos]. apply lookup_insert_eq. }
  exists w', (committedTo r c), c.
  split; [reflexivity|]. split; [reflexivity|]. split; [reflexivity|].
  split. { intros root Hroot. unfold w', setRepo. cbn [w_repos].
           apply lookup_insert_ne. congruence. }
  split; [exact Hr'|]. split; [reflexivity|]. split; [reflexivity|].
  split; [reflexivity|]. split.
  - intros tag' extracted' missing'.
    apply (commitChanges_clean tag' extracted' missing' w' w'
             (statusOutput (worktree COLLECTION_REPO_PATH (w_fs w'))
                           (headTree (r_head (committedTo r c))))).
    + change (exec COLLECTION_REPO_PATH GitStatusPorcelain w')
        with (run COLLECTION_REPO_PATH Status w').
      unfold run. rewrite Hr'. reflexivity.
    + apply statusOutput_clean. reflexivity.
  - apply marked_processed; [exact (plain_literal tag Hplain)|].
    exists (committedTo r c), c.
    split; [exact Hr'|]. split; [left; reflexivity|].
    unfold subject. cbn [c_message c commitOn].
    destruct (commitMessage_first_line tag extracted missing
                (literal_oneLine tag (plain_literal tag Hplain))) as [rest ->].
    reflexivity.
Qed.

End OnPlatform.

(** The tracking repository after the release candidate [v0.1.0-rc.1]
    was collected. *)
Definition candidate : commit :=
  {| c_hash := 1;
     c_message := commitMessage "v0.1.0-rc.1" ["Core prompts"] ["Tool registry"];
     c_tree := {[ ["README.md"] := bytesOf "# Gemini CLI Prompt Collection";
                  ["prompts"; "prompts.ts"] := bytesOf "prompt, first version" ]} |}.

Definition worldCandidate : world :=
  {| w_fs := w_fs world0;
     w_repos := {[ geminiRoot := gemini; trackingRoot := tracking [candidate; initial] ]} |}.

(** The tag [v0.1.0.rc.1] was never collected, and the ledger takes it for
    [v0.1.0-rc.1]. *)
Lemma ledger_reads_the_tag_as_pattern_witness :
  literal "v0.1.0.rc.1" = true
  /\ w_repos worldCandidate !! (@COLLECTION_REPO_PATH world here)
     = Some (tracking [candidate; initial])
  /\ Forall (fun c => ascii7 (c_message c)) [candidate; initial]
  /\ @isVersionProcessed world here "v0.1.0.rc.1" worldCandidate
     = (worldCandidate,
        [EvExec (@COLLECTION_REPO_PATH world here)
           (GitLogGrep (ledgerPattern "v0.1.0.rc.1"))], Ret true).
Proof.
  assert (Hr : w_repos worldCandidate !! (@COLLECTION_REPO_PATH world here)
               = Some (tracking [candidate; initial])) by reflexivity.
  assert (Ha : Forall (fun c => ascii7 (c_message c)) [candidate; initial]).
  { repeat constructor; vm_compute; lia. }
  split; [reflexivity|]. split; [exact Hr|]. split; [exact Ha|].
  destruct (ledger_reads_the_tag_as_pattern noEnvironment "v0.1.0.rc.1" worldCandidate _
              eq_refl Hr Ha)
    as (answer & E & Hiff).
  assert (Hyes : answer = true).
  { apply Hiff. exists candidate, "Add metadata for v0.1.0-rc.1", "",
      "Add metadata for v0.1.0-rc.1".
    split; [left; reflexivity|]. split; [left; reflexivity|]. split; reflexivity. }
  rewrite Hyes in E. exact E.
Defined.

Lemma commit_is_recorded_witness :
  w_repos worldPending !! (@COLLECTION_REPO_PATH world here)
  = Some (tracking [collected1; initial])
  /\ worktree (@COLLECTION_REPO_PATH world here) (w_fs worldPending)
     <> headTree [collected1; initial]
  /\ plain "v0.2.0" = true
  /\ configured (["Core prompts"; "Tool registry"] ++ [])
  /\ exists w' r' c,
       world_of (@commitChanges world here "v0.2.0" ["Core prompts"; "Tool registry"] []
                   worldPending) = w' /\
       w_repos w' !! (@COLLECTION_REPO_PATH world here) = Some r' /\
       r_head r' = [c; collected1; initial] /\
       c_message c = commitMessage "v0.2.0" ["Core prompts"; "Tool registry"] [] /\
       @isVersionProcessed world here "v0.2.0" w'
       = (w', [EvExec (@COLLECTION_REPO_PATH world here)
                 (GitLogGrep (ledgerPattern "v0.2.0"))], Ret true).
Proof.
  assert (Hr : w_repos worldPending !! (@COLLECTION_REPO_PATH world here)
               = Some (tracking [collected1; initial])) by reflexivity.
  assert (Hd : worktree (@COLLECTION_REPO_PATH world here) (w_fs worldPending)
               <> headTree [collected1; initial]).
  { intros E. apply (f_equal (fun t : tree => t !! ["tools"; "tool-registry.ts"])) in E.
    vm_compute in E. discriminate E. }
  assert (Hc : configured (["Core prompts"; "Tool registry"] ++ [])).
  { constructor; [left; reflexivity|].
    constructor; [right; left; reflexivity|constructor]. }
  split; [exact Hr|]. split; [exact Hd|]. split; [reflexivity|]. split; [exact Hc|].
  destruct (commit_is_recorded noEnvironment "v0.2.0" ["Core prompts"; "Tool registry"] []
              worldPending _ Hr eq_refl Hd eq_refl Hc)
    as (w' & r' & c & Ew & _ & _ & _ & Hr' & Hh & Hm & _ & _ & Hp).
  exists w', r', c. split; [exact Ew|]. split; [exact Hr'|]. split; [exact Hh|].
  split; [exact Hm|exact Hp].
Defined.

End LedgerFacts.

(** ** The extraction, on the platform in memory *)

Module ExtractionFacts.
Import JsString JsArray JsStringFacts JsArrayFacts Collect MessageFacts CollectFacts.
Import Utf8 Utf8Facts Sim SimFacts.

Section OnPlatform.
Variable environment : setting.
#[local] Hint Extern 0 (Platform _) =>
  exact (SimFacts.sim environment) : typeclass_instances.

Local Abbreviation source := (sourceOf environment).
Local Abbreviation target := (targetOf environment).
Local Abbreviation turn := (turned environment).

(** A turn leaves the repositories alone. *)
Lemma turned_repos (file : SourceFile) (w w' : world) (ok : bool) :
  turn file w w' ok -> w_repos w' = w_repos w.
Proof.
  destruct ok.
  - intros (bytes & _ & _ & ->). reflexivity.
  - intros (_ & [->|[_ ->]]); reflexivity.
Qed.


(** A turn that did not write leaves the destination as it was. *)
Lemma turned_false_target (file : SourceFile) (w w' : world) :
  turn file w w' false -> target file <> [] ->
  w_fs w' !! target file = w_fs w !! target file.
Proof.
  intros (_ & [->|[_ ->]]) Ht; [reflexivity|].
  unfold withDirs. cbn [w_fs]. apply madeDirs_other, target_not_above, Ht.
Qed.

(** Where there was nothing, a turn leaves nothing or a directory above
    its destination. *)
Lemma turned_none (file : SourceFile) (w w' : world) (ok : bool) (p : path) :
  turn file w w' ok -> p <> target file -> w_fs w !! p = None ->
  w_fs w' !! p = None \/
  (w_fs w' !! p = Some Dir /\ In p (ancestors (dirname (target file)))).
Proof.
  intros Ht Hp Hn.
  assert (Hm : madeDirs (dirname (target file)) (w_fs w) !! p = None \/
               (madeDirs (dirname (target file)) (w_fs w) !! p = Some Dir /\
                In p (ancestors (dirname (target file))))).
  { unfold madeDirs. rewrite insertDirs_lookup. destruct (decide _) as [Hin|_].
    - right. split; [reflexivity|]. apply list_elem_of_In, Hin.
    - left. exact Hn. }
  destruct ok.
  - destruct Ht as (bytes & _ & _ & ->). unfold written. cbn [w_fs].
    rewrite lookup_insert_ne by congruence. exact Hm.
  - destruct Ht as (_ & [->|[_ ->]]); [left; exact Hn|exact Hm].
Qed.

Lemma source_is_no_file_after (w w1 : world) (ok : bool) :
  turn corePrompts w w1 ok ->
  (forall bytes, w_fs w !! source toolRegistry <> Some (File bytes)) ->
  forall bytes, w_fs w1 !! source toolRegistry <> Some (File bytes).
Proof.
  intros H1 Hs bytes E.
  assert (Hf : isFile (w_fs w !! source toolRegistry) = false).
  { destruct (w_fs w !! source toolRegistry) as [[b|]|] eqn:E0; try reflexivity.
    exfalso. exact (Hs b eq_refl). }
  pose proof (turned_no_new_file environment _ _ _ _ _ H1
                (source_not_target environment) Hf) as Hf1.
  rewrite E in Hf1. discriminate.
Qed.

(** A readable source with a destination that can be written: the file
    is extracted and its destination holds the copy. *)
Lemma extracted_written (w : world) (file : SourceFile) (bytes : list byte) :
  In file SOURCE_FILES ->
  w_fs w !! source file = Some (File bytes) ->
  canWrite (target file) (w_fs w) = true ->
  exists w' tr extracted missing,
    extractSources w = (w', tr, Ret (extracted, missing)) /\
    In (name file) extracted /\
    w_fs w' !! target file = Some (File (recode bytes)) /\
    w_repos w' = w_repos w /\
    configured (extracted ++ missing).
Proof.
  intros Hin Hs Hc.
  destruct (extractSources_turned environment w)
    as (ok1 & ok2 & w1 & w2 & tr & H1 & H2 & E).
  exists w2, tr, (fst (dealt toolRegistry (dealt corePrompts ([], []) ok1) ok2)),
    (snd (dealt toolRegistry (dealt corePrompts ([], []) ok1) ok2)).
  split; [rewrite E; destruct (dealt _ _ _); reflexivity|].
  assert (Hrepos : w_repos w2 = w_repos w).
  { rewrite (turned_repos _ _ _ _ H2). apply (turned_repos _ _ _ _ H1). }
  assert (Hplain : configured
                     (fst (dealt toolRegistry (dealt corePrompts ([], []) ok1) ok2)
                      ++ snd (dealt toolRegistry (dealt corePrompts ([], []) ok1) ok2))).
  { destruct ok1, ok2; (constructor; [simpl; tauto|constructor; [simpl; tauto|constructor]]). }
  change SOURCE_FILES with [corePrompts; toolRegistry] in Hin.
  destruct Hin as [<-|[<-|[]]].
  - assert (ok1 = true) as ->.
    { destruct ok1; [reflexivity|]. destruct H1 as (Hn & _).
      rewrite (Hn bytes Hs) in Hc. discriminate. }
    destruct (turned_written environment _ _ _ bytes H1 Hs) as [Ht _].
    { apply (target_nonempty environment). left. reflexivity. }
    split; [destruct ok2; simpl; tauto|]. split; [|split; [exact Hrepos|exact Hplain]].
    rewrite <- Ht. apply (turned_file_stays environment _ _ _ _ _ H2).
    + apply targets_apart.
    + rewrite Ht. reflexivity.
  - assert (Hs1 : w_fs w1 !! source toolRegistry = Some (File bytes)).
    { rewrite <- Hs. apply (turned_file_stays environment _ _ _ _ _ H1).
      - apply source_not_target.
      - rewrite Hs. reflexivity. }
    apply (turned_still_writable environment _ _ _ H1) in Hc.
    assert (ok2 = true) as ->.
    { destruct ok2; [reflexivity|]. destruct H2 as (Hn & _).
      rewrite (Hn bytes Hs1) in Hc. discriminate. }
    destruct (turned_written environment _ _ _ bytes H2 Hs1) as [Ht _].
    { apply (target_nonempty environment). right. left. reflexivity. }
    split; [destruct ok1; simpl; tauto|].
    split; [exact Ht|split; [exact Hrepos|exact Hplain]].
Qed.

(** X19.  A source that is no regular file: the file is reported missing and
    its destination keeps what it held, the copy of an earlier tag
    included. *)
Theorem absent_source_keeps_destination (w : world) (file : SourceFile) :
  In file SOURCE_FILES ->
  (forall bytes, w_fs w !! source file <> Some (File bytes)) ->
  exists w' tr extracted missing,
    extractSources w = (w', tr, Ret (extracted, missing)) /\
    In (name file) missing /\ ~ In (name file) extracted /\
    w_fs w' !! target file = w_fs w !! target file.
Proof.
  intros Hin Hs.
  destruct (extractSources_turned environment w)
    as (ok1 & ok2 & w1 & w2 & tr & H1 & H2 & E).
  exists w2, tr, (fst (dealt toolRegistry (dealt corePrompts ([], []) ok1) ok2)),
    (snd (dealt toolRegistry (dealt corePrompts ([], []) ok1) ok2)).
  split; [rewrite E; destruct (dealt _ _ _); reflexivity|].
  change SOURCE_FILES with [corePrompts; toolRegistry] in Hin.
  destruct Hin as [<-|[<-|[]]].
  - assert (ok1 = false) as ->.
    { destruct ok1; [|reflexivity]. destruct H1 as (b & Hb & _). exfalso. exact (Hs b Hb). }
    split; [destruct ok2; simpl; tauto|].
    split; [destruct ok2; absent|].
    rewrite (turned_far environment _ _ _ _ _ H2).
    + apply (turned_false_target _ _ _ H1), (target_nonempty environment). left. reflexivity.
    + apply targets_apart.
    + intros Hq.
      apply (above_one_not_other environment corePrompts toolRegistry) in Hq;
        [congruence|apply targets_same_length].
  - pose proof (source_is_no_file_after _ _ _ H1 Hs) as Hs1.
    assert (ok2 = false) as ->.
    { destruct ok2; [|reflexivity]. destruct H2 as (b & Hb & _). exfalso. exact (Hs1 b Hb). }
    split; [destruct ok1; simpl; tauto|].
    split; [destruct ok1; absent|].
    rewrite (turned_false_target _ _ _ H2).
    + apply (turned_far environment _ _ _ _ _ H1).
      * intros Eq. apply (targets_apart environment). symmetry. exact Eq.
      * intros Hq.
        apply (above_one_not_other environment toolRegistry corePrompts) in Hq;
          [congruence|symmetry; apply targets_same_length].
    + apply (target_nonempty environment). right. left. reflexivity.
Qed.

(** X20.  What [extractSources] leaves alone.  It touches no repository.  At
    a path that is no configured destination, a regular file keeps its
    content and a directory stays; where there was nothing there is
    nothing afterwards, or a directory that was made above a destination.
    Nothing is ever removed. *)
Theorem extraction_keeps_the_rest (w : world) (p : path) :
  (forall file, In file SOURCE_FILES -> p <> target file) ->
  w_repos (world_of (extractSources w)) = w_repos w /\
  (forall bytes, w_fs w !! p = Some (File bytes) ->
                 w_fs (world_of (extractSources w)) !! p = Some (File bytes)) /\
  (w_fs w !! p = Some Dir -> w_fs (world_of (extractSources w)) !! p = Some Dir) /\
  (w_fs w !! p = None ->
   w_fs (world_of (extractSources w)) !! p = None \/
   (w_fs (world_of (extractSources w)) !! p = Some Dir /\
    exists file, In file SOURCE_FILES /\ In p (ancestors (dirname (target file))))).
Proof.
  intros Hp.
  destruct (extractSources_turned environment w)
    as (ok1 & ok2 & w1 & w2 & tr & H1 & H2 & E).
  rewrite E. unfold world_of. cbn [fst].
  assert (Hp1 : p <> target corePrompts) by (apply Hp; left; reflexivity).
  assert (Hp2 : p <> target toolRegistry) by (apply Hp; right; left; reflexivity).
  split; [|split; [|split]].
  - rewrite (turned_repos _ _ _ _ H2). apply (turned_repos _ _ _ _ H1).
  - intros bytes Hb.
    assert (Hb1 : w_fs w1 !! p = Some (File bytes)).
    { rewrite <- Hb. apply (turned_file_stays environment _ _ _ _ _ H1 Hp1).
      rewrite Hb. reflexivity. }
    rewrite <- Hb1. apply (turned_file_stays environment _ _ _ _ _ H2 Hp2).
    rewrite Hb1. reflexivity.
  - intros Hd. apply (turned_dir_stays environment _ _ _ _ _ H2 Hp2).
    apply (turned_dir_stays environment _ _ _ _ _ H1 Hp1), Hd.
  - intros Hn. destruct (turned_none _ _ _ _ _ H1 Hp1 Hn) as [Hn1|[Hd1 Hin1]].
    + destruct (turned_none _ _ _ _ _ H2 Hp2 Hn1) as [Hn2|[Hd2 Hin2]].
      * left. exact Hn2.
      * right. split; [exact Hd2|]. exists toolRegistry.
        split; [right; left; reflexivity|exact Hin2].
    + right. split.
      * apply (turned_dir_stays environment _ _ _ _ _ H2 Hp2), Hd1.
      * exists corePrompts. split; [left; reflexivity|exact Hin1].
Qed.

(** *** Twice is once *)

(** What one turn of the loop of [extractSources] makes of the world, and
    whether it wrote the file. *)
Definition after (file : SourceFile) (w : world) : world * bool :=
  match w_fs w !! source file with
  | Some (File bytes) =>
      if canMake (dirname (target file)) (w_fs w) then
        if isDir (w_fs w !! target file) then (withDirs w (dirname (target file)), false)
        else (written w (target file) bytes, true)
      else (w, false)
  | _ => (w, false)
  end.

Lemma extractFile_after (file : SourceFile) (acc : list string * list string) (w : world) :
  target file <> [] ->
  exists tr,
    extractFile file acc w
    = (fst (after file w), tr, Ret (dealt file acc (snd (after file w)))).
Proof.
  intros Ht. unfold after, extractFile.
  fold (source file). fold (target file). unfold try_, bind, ret.
  destruct (w_fs w !! source file) as [[bytes|]|] eqn:Es.
  - rewrite (access_file environment w _ bytes Es). cbv beta iota.
    rewrite (readFile_file environment w _ bytes Es). cbv beta iota.
    destruct (canMake (dirname (target file)) (w_fs w)) eqn:Em.
    + rewrite (mkdir_made environment w _ Em). cbv beta iota.
      destruct (isDir (w_fs w !! target file)) eqn:Ed.
      * destruct (writeFile_refused environment (withDirs w (dirname (target file)))
                    (target file) (decode bytes)) as [e ->].
        { unfold withDirs. cbn [w_fs].
          rewrite (madeDirs_other _ _ _ (target_not_above _ Ht)). exact Ed. }
        eexists. reflexivity.
      * rewrite writeFile_written; [eexists; reflexivity|exact Ht| |].
        -- unfold withDirs. cbn [w_fs].
           rewrite (madeDirs_other _ _ _ (target_not_above _ Ht)). exact Ed.
        -- unfold withDirs, parentIsDir. cbn [w_fs].
           destruct (dirname (target file)) as [|d0 d] eqn:Ed0; [reflexivity|].
           rewrite madeDirs_made; [reflexivity|].
           apply ancestors_self. discriminate.
    + destruct (mkdir_refused environment w _ Em) as [e ->]. eexists. reflexivity.
  - destruct (access_not_file environment w (source file)) as (o & -> & [->|[e ->]]).
    { intros bytes' E. congruence. }
    + cbv beta iota.
      destruct (readFile_not_file environment w (source file)) as [e ->].
      { intros bytes' E. congruence. }
      eexists. reflexivity.
    + eexists. reflexivity.
  - destruct (access_not_file environment w (source file)) as (o & -> & [->|[e ->]]).
    { intros bytes' E. congruence. }
    + cbv beta iota.
      destruct (readFile_not_file environment w (source file)) as [e ->].
      { intros bytes' E. congruence. }
      eexists. reflexivity.
    + eexists. reflexivity.
Qed.

Lemma after_turned (file : SourceFile) (w : world) :
  turn file w (fst (after file w)) (snd (after file w)).
Proof.
  unfold after, turned, canWrite.
  destruct (w_fs w !! source file) as [[bytes|]|] eqn:Es; cbn [fst snd].
  - destruct (canMake _ _) eqn:Em; cbn [fst snd].
    + destruct (isDir _) eqn:Ed; cbn [fst snd].
      * split; [intros; reflexivity|]. right. split; reflexivity.
      * exists bytes. repeat split.
    + split; [intros; reflexivity|]. left. reflexivity.
  - split; [intros bytes E; discriminate|]. left. reflexivity.
  - split; [intros bytes E; discriminate|]. left. reflexivity.
Qed.

Lemma extractSources_after (w : world) :
  world_of (extractSources w)
  = fst (after toolRegistry (fst (after corePrompts w)))
  /\ outcome_of (extractSources w)
     = Ret (dealt toolRegistry (dealt corePrompts ([], []) (snd (after corePrompts w)))
              (snd (after toolRegistry (fst (after corePrompts w))))).
Proof.
  destruct (extractFile_after corePrompts ([], []) w) as (t1 & E1).
  { apply (target_nonempty environment). left. reflexivity. }
  destruct (extractFile_after toolRegistry
              (dealt corePrompts ([], []) (snd (after corePrompts w)))
              (fst (after corePrompts w))) as (t2 & E2).
  { apply (target_nonempty environment). right. left. reflexivity. }
  unfold extractSources. change SOURCE_FILES with [corePrompts; toolRegistry].
  cbn [extractFiles]. unfold bind. rewrite E1, E2. split; reflexivity.
Qed.

Lemma world_eq (w w' : world) : w_fs w = w_fs w' -> w_repos w = w_repos w' -> w = w'.
Proof. destruct w, w'. simpl. intros -> ->. reflexivity. Qed.

Lemma madeDirs_fixed (d : path) (fs : gmap path node) :
  (forall q, In q (ancestors d) -> fs !! q = Some Dir) -> madeDirs d fs = fs.
Proof.
  intros Hd. apply map_eq. intros p. unfold madeDirs. rewrite insertDirs_lookup.
  destruct (decide (p ∈ ancestors d)) as [Hin|_]; [|reflexivity].
  symmetry. apply Hd. apply list_elem_of_In. exact Hin.
Qed.

Lemma withDirs_fixed (w : world) (d : path) :
  (forall q, In q (ancestors d) -> w_fs w !! q = Some Dir) <-> withDirs w d = w.
Proof.
  split.
  - intros Hd. apply world_eq; [|reflexivity]. apply madeDirs_fixed, Hd.
  - intros E q Hq. rewrite <- E. apply madeDirs_made, Hq.
Qed.

Lemma written_fixed (w : world) (t : path) (bytes : list byte) :
  t <> [] ->
  (w_fs w !! t = Some (File (recode bytes)) /\
   forall q, In q (ancestors (dirname t)) -> w_fs w !! q = Some Dir)
  <-> written w t bytes = w.
Proof.
  intros Ht. split.
  - intros [Hf Hd]. apply world_eq; [|reflexivity]. unfold written. cbn [w_fs].
    rewrite (madeDirs_fixed _ _ Hd). apply insert_id, Hf.
  - intros E. split.
    + rewrite <- E. unfold written. cbn [w_fs]. apply lookup_insert_eq.
    + intros q Hq. rewrite <- E. unfold written. cbn [w_fs].
      rewrite lookup_insert_ne.
      * apply madeDirs_made, Hq.
      * intros Eq. subst q. exact (target_not_above t Ht Hq).
Qed.

(** [settled file w ok]: a turn for [file] finds the world as a turn
    would leave it. *)
Definition settled (file : SourceFile) (w : world) (ok : bool) : Prop :=
  after file w = (w, ok).

Lemma after_written (file : SourceFile) (w : world) (bytes : list byte) :
  w_fs w !! source file = Some (File bytes) ->
  canMake (dirname (target file)) (w_fs w) = true ->
  isDir (w_fs w !! target file) = false ->
  after file w = (written w (target file) bytes, true).
Proof. intros Es Em Ed. unfold after. rewrite Es, Em, Ed. reflexivity. Qed.

Lemma after_dirs (file : SourceFile) (w : world) (bytes : list byte) :
  w_fs w !! source file = Some (File bytes) ->
  canMake (dirname (target file)) (w_fs w) = true ->
  isDir (w_fs w !! target file) = true ->
  after file w = (withDirs w (dirname (target file)), false).
Proof. intros Es Em Ed. unfold after. rewrite Es, Em, Ed. reflexivity. Qed.

Lemma after_blocked (file : SourceFile) (w : world) (bytes : list byte) :
  w_fs w !! source file = Some (File bytes) ->
  canMake (dirname (target file)) (w_fs w) = false ->
  after file w = (w, false).
Proof. intros Es Em. unfold after. rewrite Es, Em. reflexivity. Qed.

Lemma after_absent (file : SourceFile) (w : world) :
  isFile (w_fs w !! source file) = false -> after file w = (w, false).
Proof.
  intros Es. unfold after.
  destruct (w_fs w !! source file) as [[bytes|]|]; [discriminate|reflexivity|reflexivity].
Qed.

(** The cases of a turn. *)
Lemma after_cases (file : SourceFile) (w : world) :
  (exists bytes,
     w_fs w !! source file = Some (File bytes) /\
     canMake (dirname (target file)) (w_fs w) = true /\
     isDir (w_fs w !! target file) = false /\
     after file w = (written w (target file) bytes, true))
  \/ (exists bytes,
        w_fs w !! source file = Some (File bytes) /\
        canMake (dirname (target file)) (w_fs w) = true /\
        isDir (w_fs w !! target file) = true /\
        after file w = (withDirs w (dirname (target file)), false))
  \/ (exists bytes,
        w_fs w !! source file = Some (File bytes) /\
        canMake (dirname (target file)) (w_fs w) = false /\
        after file w = (w, false))
  \/ (isFile (w_fs w !! source file) = false /\ after file w = (w, false)).
Proof.
  destruct (w_fs w !! source file) as [[bytes|]|] eqn:Es.
  - destruct (canMake (dirname (target file)) (w_fs w)) eqn:Em.
    + destruct (isDir (w_fs w !! target file)) eqn:Ed.
      * right. left. exists bytes. repeat split; try assumption.
        apply (after_dirs _ _ bytes); assumption.
      * left. exists bytes. repeat split; try assumption.
        apply (after_written _ _ bytes); assumption.
    + right. right. left. exists bytes. repeat split; try assumption.
      apply (after_blocked _ _ bytes); assumption.
  - right. right. right. split; [reflexivity|]. apply after_absent. rewrite Es. reflexivity.
  - right. right. right. split; [reflexivity|]. apply after_absent. rewrite Es. reflexivity.
Qed.

(** The directories above a destination, once made, allow to make them
    again. *)
Lemma canMake_dirs (d : path) (fs : gmap path node) :
  (forall q, In q (ancestors d) -> fs !! q = Some Dir) -> canMake d fs = true.
Proof. intros Hd. apply canMake_spec. intros q Hq. rewrite (Hd q Hq). reflexivity. Qed.

(** A turn settles its file. *)
Lemma after_settles (file : SourceFile) (w : world) :
  source file <> target file -> target file <> [] ->
  settled file (fst (after file w)) (snd (after file w)).
Proof.
  intros Hst Ht. unfold settled.
  destruct (after_cases file w)
    as [(bytes & Es & Em & Ed & ->)|[(bytes & Es & Em & Ed & ->)
        |[(bytes & Es & Em & ->)|(Es & ->)]]]; cbn [fst snd].
  - (* written *)
    assert (Hnot : ~ In (source file) (ancestors (dirname (target file)))).
    { intros Hin. pose proof (proj1 (canMake_spec _ _) Em _ Hin) as Hf.
      rewrite Es in Hf. discriminate. }
    assert (Hdirs : forall q, In q (ancestors (dirname (target file))) ->
                              w_fs (written w (target file) bytes) !! q = Some Dir).
    { intros q Hq. unfold written. cbn [w_fs]. rewrite lookup_insert_ne.
      - apply madeDirs_made, Hq.
      - intros Eq. subst q. exact (target_not_above _ Ht Hq). }
    assert (Hfile : w_fs (written w (target file) bytes) !! target file
                    = Some (File (recode bytes))).
    { unfold written. cbn [w_fs]. apply lookup_insert_eq. }
    rewrite (after_written file _ bytes).
    + f_equal. apply written_fixed; [exact Ht|]. split; assumption.
    + unfold written. cbn [w_fs]. rewrite lookup_insert_ne by congruence.
      rewrite (madeDirs_other _ _ _ Hnot). exact Es.
    + apply canMake_dirs, Hdirs.
    + rewrite Hfile. reflexivity.
  - (* the directories were made, the destination is a directory *)
    assert (Hnot : ~ In (source file) (ancestors (dirname (target file)))).
    { intros Hin. pose proof (proj1 (canMake_spec _ _) Em _ Hin) as Hf.
      rewrite Es in Hf. discriminate. }
    assert (Hdirs : forall q, In q (ancestors (dirname (target file))) ->
                              w_fs (withDirs w (dirname (target file))) !! q = Some Dir).
    { intros q Hq. apply madeDirs_made, Hq. }
    rewrite (after_dirs file _ bytes).
    + f_equal. apply withDirs_fixed, Hdirs.
    + unfold withDirs. cbn [w_fs]. rewrite (madeDirs_other _ _ _ Hnot). exact Es.
    + apply canMake_dirs, Hdirs.
    + unfold withDirs. cbn [w_fs].
      rewrite (madeDirs_other _ _ _ (target_not_above _ Ht)). exact Ed.
  - apply (after_blocked file w bytes); assumption.
  - apply after_absent, Es.
Qed.

(** The turn of another file leaves a settled file settled. *)
Lemma settled_kept (file other : SourceFile) (w : world) (ok : bool) :
  target file <> target other ->
  length (target file) = length (target other) ->
  source file <> target other ->
  target file <> [] ->
  settled file w ok -> settled file (fst (after other w)) ok.
Proof.
  intros Htt Hlen Hst Ht Hs. unfold settled in *.
  pose proof (after_turned other w) as Hg.
  set (w' := fst (after other w)) in *.
  set (okg := snd (after other w)) in *.
  assert (Habove : forall q, In q (ancestors (dirname (target file))) -> q <> target other).
  { intros q Hq. apply (above_one_not_other environment other file q); [|exact Hq].
    symmetry. exact Hlen. }
  assert (Hfar : w_fs w' !! target file = w_fs w !! target file).
  { apply (turned_far environment _ _ _ _ _ Hg Htt). intros Hin.
    exact (above_one_not_other environment file other _ Hlen Hin eq_refl). }
  assert (Hdirs : (forall q, In q (ancestors (dirname (target file))) ->
                             w_fs w !! q = Some Dir) ->
                  forall q, In q (ancestors (dirname (target file))) ->
                            w_fs w' !! q = Some Dir).
  { intros Hd q Hq.
    apply (turned_dir_stays environment _ _ _ _ _ Hg (Habove q Hq)), Hd, Hq. }
  assert (Hsrc : forall bytes, w_fs w !! source file = Some (File bytes) ->
                               w_fs w' !! source file = Some (File bytes)).
  { intros bytes Es. rewrite <- Es.
    apply (turned_file_stays environment _ _ _ _ _ Hg Hst). rewrite Es. reflexivity. }
  destruct (after_cases file w)
    as [(bytes & Es & Em & Ed & E)|[(bytes & Es & Em & Ed & E)
        |[(bytes & Es & Em & E)|(Es & E)]]];
    rewrite E in Hs; apply pair_equal_spec in Hs; destruct Hs as [Hw Hok]; subst ok.
  - apply (written_fixed w (target file) bytes Ht) in Hw. destruct Hw as [Hf Hd].
    rewrite (after_written file w' bytes).
    + f_equal. apply written_fixed; [exact Ht|].
      split; [rewrite Hfar; exact Hf|exact (Hdirs Hd)].
    + exact (Hsrc bytes Es).
    + apply canMake_dirs, Hdirs, Hd.
    + rewrite Hfar. exact Ed.
  - pose proof (proj2 (withDirs_fixed _ _) Hw) as Hd.
    rewrite (after_dirs file w' bytes).
    + f_equal. apply withDirs_fixed, Hdirs, Hd.
    + exact (Hsrc bytes Es).
    + apply canMake_dirs, Hdirs, Hd.
    + rewrite Hfar. exact Ed.
  - apply (after_blocked file w' bytes); [exact (Hsrc bytes Es)|].
    destruct (canMake (dirname (target file)) (w_fs w')) eqn:Em'; [|reflexivity].
    unfold canMake in Em. apply negb_false_iff in Em.
    apply existsb_exists in Em. destruct Em as (q & Hq & Hf).
    pose proof (proj1 (canMake_spec _ _) Em' q Hq) as Hf'.
    rewrite (turned_file_stays environment _ _ _ _ _ Hg (Habove q Hq) Hf) in Hf'.
    congruence.
  - apply after_absent.
    exact (turned_no_new_file environment _ _ _ _ _ Hg Hst Es).
Qed.

Lemma last_but_one (c : path) (a b : string) :
  List.last (removelast (c ++ [a; b])) "" = a.
Proof.
  rewrite removelast_app by discriminate. simpl removelast.
  apply last_last.
Qed.

Lemma source_of_prompts_apart :
  source corePrompts <> target corePrompts /\ source corePrompts <> target toolRegistry.
Proof.
  assert (Es : source corePrompts
               = @GEMINI_REPO_PATH world (SimFacts.sim environment)
                 ++ ["packages"; "core"; "src"; "core"; "prompts.ts"])
    by (apply walk_down; absent).
  split; intros E; rewrite Es in E.
  - rewrite targetOf_corePrompts in E.
    apply (f_equal (fun p => List.last (removelast p) "")) in E.
    change (GEMINI_REPO_PATH ++ ["packages"; "core"; "src"; "core"; "prompts.ts"])
      with (GEMINI_REPO_PATH ++ ["packages"; "core"; "src"] ++ ["core"; "prompts.ts"]) in E.
    rewrite List.app_assoc, !last_but_one in E. discriminate.
  - rewrite targetOf_toolRegistry in E.
    apply (f_equal (fun p => List.last p "")) in E.
    rewrite last_five, last_two in E. discriminate.
Qed.

(** X21.  To extract twice is to extract once: a second call of
    [extractSources], right after the first, leaves the world as the first
    left it and returns the same two lists.  (The tool registry of the
    external repository is not itself the destination of its copy, which
    it is only when the tracking repository is the directory
    [packages/core/src] of the external one.) *)
Theorem extraction_is_idempotent (w : world) :
  source toolRegistry <> target toolRegistry ->
  world_of (extractSources (world_of (extractSources w))) = world_of (extractSources w)
  /\ outcome_of (extractSources (world_of (extractSources w)))
     = outcome_of (extractSources w).
Proof.
  intros Hst.
  destruct (extractSources_after w) as [Ew Eo].
  destruct (extractSources_after (world_of (extractSources w))) as [Ew' Eo'].
  rewrite Ew', Eo', Eo. rewrite Ew. clear Ew Eo Ew' Eo'.
  set (w1 := fst (after corePrompts w)).
  set (ok1 := snd (after corePrompts w)).
  set (w2 := fst (after toolRegistry w1)).
  set (ok2 := snd (after toolRegistry w1)).
  destruct source_of_prompts_apart as [H11 H12].
  assert (Ht1 : target corePrompts <> [])
    by (apply (target_nonempty environment); left; reflexivity).
  assert (Ht2 : target toolRegistry <> [])
    by (apply (target_nonempty environment); right; left; reflexivity).
  assert (S1 : settled corePrompts w2 ok1).
  { apply settled_kept; try assumption.
    - apply targets_apart.
    - apply targets_same_length.
    - apply after_settles; assumption. }
  assert (S2 : settled toolRegistry w2 ok2) by (apply after_settles; assumption).
  unfold settled in S1, S2. rewrite S1. cbn [fst snd]. rewrite S2. split; reflexivity.
Qed.

End OnPlatform.




(** After a full run, the tool registry disappears from the external
    repository. *)
Definition worldStale : world :=
  {| w_fs := delete (geminiRoot ++ registrySource)%list (w_fs worldDone);
     w_repos := w_repos worldDone |}.

Lemma absent_source_keeps_destination_witness :
  In toolRegistry SOURCE_FILES
  /\ w_fs worldStale !! sourceOf noEnvironment toolRegistry = None
  /\ exists w' tr extracted missing,
       @extractSources world here worldStale = (w', tr, Ret (extracted, missing)) /\
       In "Tool registry" missing /\ ~ In "Tool registry" extracted /\
       w_fs w' !! targetOf noEnvironment toolRegistry = Some (File (bytesOf "tools")).
Proof.
  assert (Hin : In toolRegistry SOURCE_FILES) by (right; left; reflexivity).
  assert (Hn : w_fs worldStale !! sourceOf noEnvironment toolRegistry = None)
    by (vm_compute; reflexivity).
  split; [exact Hin|]. split; [exact Hn|].
  destruct (absent_source_keeps_destination noEnvironment worldStale toolRegistry Hin)
    as (w' & tr & extracted & missing & E & Hm & He & Hkept).
  { intros bytes Hb. rewrite Hn in Hb. discriminate Hb. }
  exists w', tr, extracted, missing.
  split; [exact E|]. split; [exact Hm|]. split; [exact He|].
  rewrite Hkept. vm_compute. reflexivity.
Defined.

Lemma triple_eta {A : Type} (r : world * list event * outcome A) :
  r = (world_of r, trace_of r, outcome_of r).
Proof. destruct r as [[a b] c]. reflexivity. Qed.

Lemma extractFile_copies_witness :
  outcome_of (@extractFile world here corePrompts ([], []) world0)
  = Ret (["Core prompts"], [])
  /\ exists w1 w2 w3 content,
       @fs_readFile world here (sourceOf noEnvironment corePrompts) w1 = (w2, Ok content) /\
       @fs_writeFile world here (targetOf noEnvironment corePrompts) content w3
       = (world_of (@extractFile world here corePrompts ([], []) world0), Ok tt).
Proof.
  assert (Ho : outcome_of (@extractFile world here corePrompts ([], []) world0)
               = Ret (["Core prompts"], [])) by (vm_compute; reflexivity).
  split; [exact Ho|].
  pose proof (triple_eta (@extractFile world here corePrompts ([], []) world0)) as E.
  rewrite Ho in E.
  destruct (@extractFile_copies world here corePrompts ([], []) _ world0 _ _ E)
    as (w1 & w2 & w3 & content & _ & Hread & _ & Hwrite & _).
  { discriminate. }
  exists w1, w2, w3, content. split; [exact Hread|exact Hwrite].
Defined.

Lemma extraction_is_idempotent_witness :
  sourceOf noEnvironment toolRegistry <> targetOf noEnvironment toolRegistry
  /\ world_of (@extractSources world here (world_of (@extractSources world here world0)))
     = world_of (@extractSources world here world0)
  /\ outcome_of (@extractSources world here (world_of (@extractSources world here world0)))
     = Ret (["Core prompts"; "Tool registry"], []).
Proof.
  assert (Hst : sourceOf noEnvironment toolRegistry <> targetOf noEnvironment toolRegistry)
    by differ.
  split; [exact Hst|].
  destruct (extraction_is_idempotent noEnvironment world0 Hst) as [Hw Ho].
  split; [exact Hw|]. refine (eq_trans Ho _). vm_compute. reflexivity.
Defined.

Lemma extraction_keeps_the_rest_witness :
  (forall file, In file SOURCE_FILES ->
                (trackingRoot ++ ["README.md"])%list <> targetOf noEnvironment file)
  /\ w_repos (world_of (@extractSources world here world0)) = w_repos world0
  /\ w_fs (world_of (@extractSources world here world0)) !! (trackingRoot ++ ["README.md"])%list
     = Some (File (bytesOf "# Gemini CLI Prompt Collection")).
Proof.
  assert (Hp : forall file, In file SOURCE_FILES ->
                 (trackingRoot ++ ["README.md"])%list <> targetOf noEnvironment file).
  { intros file [<-|[<-|[]]]; intros E; vm_compute in E; discriminate E. }
  split; [exact Hp|].
  destruct (extraction_keeps_the_rest noEnvironment world0 _ Hp) as (Hrepos & Hfile & _).
  split; [exact Hrepos|]. apply Hfile. reflexivity.
Defined.

End ExtractionFacts.

(** ** One turn of the loop, on the platform in memory *)

Module TurnFacts.
Import JsString JsArray JsStringFacts JsArrayFacts Collect MessageFacts CollectFacts.
Import Utf8 Utf8Facts Shell Sim ShellFacts SimFacts ScriptFacts LedgerFacts ExtractionFacts.

(** *** The working tree *)

Lemma stripPrefix_app (root rel : path) : stripPrefix root (root ++ rel) = Some rel.
Proof.
  induction root as [|r root IH]; [reflexivity|].
  simpl. rewrite String.eqb_refl. exact IH.
Qed.

Lemma stripPrefix_Some (root p rel : path) :
  stripPrefix root p = Some rel -> p = root ++ rel.
Proof.
  revert p. induction root as [|r root IH]; intros p; simpl.
  - intros E. inversion E. reflexivity.
  - destruct p as [|s p]; [discriminate|].
    destruct (String.eqb_spec r s) as [->|_]; [|discriminate].
    intros E. rewrite (IH p E). reflexivity.
Qed.

(** The working tree of a repository holds the regular files under its
    root. *)
Lemma worktree_lookup (root : path) (fs : gmap path node) (rel : path)
      (content : list byte) :
  worktree root fs !! rel = Some content <-> fs !! (root ++ rel) = Some (File content).
Proof.
  unfold worktree.
  set (pick := fun e : path * node =>
                 match snd e with
                 | File content =>
                     match stripPrefix root (fst e) with
                     | Some rel => Some (rel, content)
                     | None => None
                     end
                 | Dir => None
                 end).
  assert (Hin : forall c, (rel, c) ∈ omap pick (map_to_list fs)
                          <-> fs !! (root ++ rel) = Some (File c)).
  { intros c. rewrite list_elem_of_omap. split.
    - intros ([p n] & Hp & Hpick). apply elem_of_map_to_list in Hp.
      unfold pick in Hpick. cbn [fst snd] in Hpick.
      destruct n as [c'|]; [|discriminate].
      destruct (stripPrefix root p) as [rel'|] eqn:Es; [|discriminate].
      inversion Hpick; subst. rewrite <- (stripPrefix_Some _ _ _ Es). exact Hp.
    - intros Hl. exists (root ++ rel, File c). split.
      + apply elem_of_map_to_list. exact Hl.
      + unfold pick. cbn [fst snd]. rewrite stripPrefix_app. reflexivity. }
  split.
  - intros Hl. apply Hin. apply elem_of_list_to_map_2. exact Hl.
  - intros Hl. apply elem_of_list_to_map_1'.
    + intros c Hc. apply Hin in Hc. congruence.
    + apply Hin. exact Hl.
Qed.

Section OnPlatform.
Variable environment : setting.
#[local] Hint Extern 0 (Platform _) =>
  exact (SimFacts.sim environment) : typeclass_instances.

(** The destination of a configured file, from the root of the tracking
    repository. *)
Definition relative (file : SourceFile) : path := names (targetPath file).

Lemma target_relative (file : SourceFile) :
  In file SOURCE_FILES ->
  targetOf environment file = COLLECTION_REPO_PATH ++ relative file.
Proof.
  intros Hin. apply walk_down.
  destruct Hin as [<-|[<-|[]]]; absent.
Qed.

(** A checkout in one repository leaves the others alone. *)
Lemma checkout_keeps_others (root other : path) (ref : string) (w w' : world)
      (out : string) :
  simExec environment root (GitCheckout ref) w = (w', Ok out) -> other <> root ->
  w_repos w' !! other = w_repos w !! other.
Proof. apply exec_keeps_others. Qed.

(** X1.  One turn, from the ledger to the commit.  The tag is plain
    (letters, digits and [% + , - . / : = @ _], not starting with a dash),
    so that the shell takes it as it stands in every command line.  It is
    not in the ledger, its checkout works, the tree it checks out holds a
    configured source file, whose destination can be written and is not
    already committed with the same content, and the committer is known.
    Then the turn ends with a new commit at the head of the tracking
    repository: its tree holds, at the destination, the content of the
    source as the script copies it; its message is the message of the tag
    and lists the file as extracted; and from then on the ledger knows the
    tag. *)
Theorem turn_collects_the_tag (n i : nat) (tag : string) (file : SourceFile)
        (bytes : list byte) (w w2 : world) (r : repo) (out : string) :
  In file SOURCE_FILES ->
  GEMINI_REPO_PATH <> COLLECTION_REPO_PATH ->
  w_repos w !! COLLECTION_REPO_PATH = Some r ->
  r_identity r = true ->
  plain tag = true ->
  outcome_of (isVersionProcessed tag w) = Ret false ->
  exec GEMINI_REPO_PATH (GitCheckout tag) w = (w2, Ok out) ->
  w_fs w2 !! sourceOf environment file = Some (File bytes) ->
  canWrite (targetOf environment file) (w_fs w2) = true ->
  headTree (r_head r) !! relative file <> Some (recode bytes) ->
  exists w' tr r' c extracted missing,
    processTag n i tag w = (w', tr, Ret tt) /\
    w_repos w' !! COLLECTION_REPO_PATH = Some r' /\
    r_head r' = c :: r_head r /\
    c_tree c !! relative file = Some (recode bytes) /\
    c_message c = commitMessage tag extracted missing /\
    In (name file) extracted /\
    isVersionProcessed tag w'
    = (w', [EvExec COLLECTION_REPO_PATH (GitLogGrep (ledgerPattern tag))], Ret true).
Proof.
  intros Hin Hroots Hr Hid Hplain Hledger Hc Hs Hw Hnew.
  pose proof (plain_literal tag Hplain) as Hlit.
  destruct (ledger_answer environment tag w r Hlit Hr) as (answer & Eq & _).
  rewrite (@isVersionProcessed_eq world (SimFacts.sim environment) tag w w answer Eq)
    in Hledger.
  unfold outcome_of in Hledger. cbn [snd] in Hledger.
  assert (Hp : processed answer = false) by (inversion Hledger; reflexivity).
  destruct (@processTag_checkout_ok world (SimFacts.sim environment)
              n i tag w w w2 answer out Eq Hp Hc)
    as (w3 & t3 & extracted & missing & w4 & t4 & logs & E3 & E4 & _ & _ & Et).
  destruct (extracted_written environment w2 file bytes Hin Hs Hw)
    as (w3' & t3' & e' & m' & E3' & Hlabel & Hcopy & Hrepos & Hlabels).
  rewrite E3 in E3'. inversion E3'; subst w3' t3' e' m'. clear E3'.
  assert (Hr3 : w_repos w3 !! COLLECTION_REPO_PATH = Some r).
  { rewrite Hrepos, <- Hr.
    apply (checkout_keeps_others GEMINI_REPO_PATH _ tag w w2 out Hc). congruence. }
  assert (Htree : worktree COLLECTION_REPO_PATH (w_fs w3) !! relative file
                  = Some (recode bytes)).
  { apply worktree_lookup. rewrite <- (target_relative file Hin). exact Hcopy. }
  assert (Hdiff : worktree COLLECTION_REPO_PATH (w_fs w3) <> headTree (r_head r)).
  { intros E. rewrite E in Htree. exact (Hnew Htree). }
  rewrite (commitChanges_commits environment tag extracted missing w3 r
             Hr3 Hid Hdiff Hplain Hlabels) in E4.
  inversion E4 as [[Ew4 Et4]]. clear E4.
  set (c := commitOn r (commitMessage tag extracted missing)
              (worktree COLLECTION_REPO_PATH (w_fs w3))) in *.
  assert (Hr4 : w_repos w4 !! COLLECTION_REPO_PATH = Some (committedTo r c)).
  { rewrite <- Ew4. unfold setRepo. cbn [w_repos]. apply lookup_insert_eq. }
  exists w4. eexists. exists (committedTo r c), c, extracted, missing.
  split; [exact Et|]. split; [exact Hr4|]. split; [reflexivity|].
  split; [exact Htree|]. split; [reflexivity|]. split; [exact Hlabel|].
  apply marked_processed; [exact Hlit|]. exists (committedTo r c), c.
  split; [exact Hr4|]. split; [left; reflexivity|].
  unfold subject. cbn [c_message c commitOn].
  destruct (commitMessage_first_line tag extracted missing (literal_oneLine tag Hlit))
    as [rest ->].
  reflexivity.
Qed.


End OnPlatform.

(** The world after the checkout of the first release. *)
Definition worldAt1 : world :=
  fst (@exec world here (@GEMINI_REPO_PATH world here) (GitCheckout "v0.1.0") world0).

Lemma turn_collects_the_tag_witness :
  In corePrompts SOURCE_FILES
  /\ @GEMINI_REPO_PATH world here <> @COLLECTION_REPO_PATH world here
  /\ plain "v0.1.0" = true
  /\ outcome_of (@isVersionProcessed world here "v0.1.0" world0) = Ret false
  /\ @exec world here (@GEMINI_REPO_PATH world here) (GitCheckout "v0.1.0") world0
     = (worldAt1, Ok "")
  /\ w_fs worldAt1 !! sourceOf noEnvironment corePrompts
     = Some (File (bytesOf "prompt, first version"))
  /\ canWrite (targetOf noEnvironment corePrompts) (w_fs worldAt1) = true
  /\ exists w' tr r' c extracted missing,
       @processTag world here 2 0 "v0.1.0" world0 = (w', tr, Ret tt) /\
       w_repos w' !! (@COLLECTION_REPO_PATH world here) = Some r' /\
       r_head r' = [c; initial] /\
       c_tree c !! ["prompts"; "prompts.ts"] = Some (bytesOf "prompt, first version") /\
       c_message c = commitMessage "v0.1.0" extracted missing /\
       In "Core prompts" extracted.
Proof.
  assert (Hin : In corePrompts SOURCE_FILES) by (left; reflexivity).
  assert (Hroots : @GEMINI_REPO_PATH world here <> @COLLECTION_REPO_PATH world here).
  { differ. }
  assert (Hl : outcome_of (@isVersionProcessed world here "v0.1.0" world0) = Ret false)
    by (vm_compute; reflexivity).
  assert (Hout : snd (@exec world here (@GEMINI_REPO_PATH world here)
                        (GitCheckout "v0.1.0") world0) = Ok "") by (vm_compute; reflexivity).
  assert (Hc : @exec world here (@GEMINI_REPO_PATH world here) (GitCheckout "v0.1.0") world0
               = (worldAt1, Ok "")).
  { rewrite <- Hout. apply surjective_pairing. }
  assert (Hs : w_fs worldAt1 !! sourceOf noEnvironment corePrompts
               = Some (File (bytesOf "prompt, first version"))) by (vm_compute; reflexivity).
  assert (Hw : canWrite (targetOf noEnvironment corePrompts) (w_fs worldAt1) = true)
    by (vm_compute; reflexivity).
  assert (Hr : w_repos world0 !! (@COLLECTION_REPO_PATH world here)
               = Some (tracking [initial])) by (vm_compute; reflexivity).
  split; [exact Hin|]. split; [exact Hroots|]. split; [reflexivity|]. split; [exact Hl|].
  split; [exact Hc|]. split; [exact Hs|]. split; [exact Hw|].
  destruct (turn_collects_the_tag noEnvironment 2 0 "v0.1.0" corePrompts
              (bytesOf "prompt, first version") world0 worldAt1 (tracking [initial]) ""
              Hin Hroots Hr eq_refl eq_refl Hl Hc Hs Hw)
    as (w' & tr & r' & c & extracted & missing & E & Hr' & Hh & Ht & Hm & He & _).
  - differ.
  - exists w', tr, r', c, extracted, missing.
    split; [exact E|]. split; [exact Hr'|]. split; [exact Hh|].
    split; [exact Ht|]. split; [exact Hm|exact He].
Defined.




End TurnFacts.

(** ** What the copy of a file holds *)

Module CopyFacts.
Import JsString JsArray JsStringFacts JsArrayFacts Collect MessageFacts CollectFacts.
Import Utf8 Utf8Facts Sim SimFacts ExtractionFacts.

Section Encoded.
Local Open Scope N_scope.

Lemma to_N_byteOf (n : N) : n <= 255 -> Byte.to_N (byteOf n) = n.
Proof.
  intros Hn. unfold byteOf. destruct (Byte.of_N n) as [b|] eqn:E.
  - apply Byte.to_of_N. exact E.
  - apply Byte.of_N_None_iff in E. lia.
Qed.

(** [good c]: the bytes of [c] are one well-formed sequence. *)
Definition good (c : N) : Prop :=
  forall rest, wellFormed (encodeChar c ++ rest) = wellFormed rest.

Lemma good_encode (t : text) : Forall good t -> wellFormed (encode t) = true.
Proof.
  induction 1 as [|c t Hc _ IH]; [reflexivity|].
  rewrite encode_cons, Hc. exact IH.
Qed.

Lemma good_replacement : good REPLACEMENT.
Proof. intros rest. reflexivity. Qed.

Lemma good_ascii (n : N) : inRange 0x00 0x7F n = true -> good n.
Proof.
  intros E rest. rewrite (encode_ascii n E). cbn [app wellFormed].
  apply inRange_spec in E. rewrite to_N_byteOf by lia.
  apply inRange_spec in E. rewrite E. reflexivity.
Qed.

Lemma outside (lo hi n : N) : n < lo \/ hi < n -> inRange lo hi n = false.
Proof.
  intros Hn. unfold inRange. apply andb_false_iff.
  destruct Hn as [Hn|Hn]; [left|right]; apply N.leb_gt; exact Hn.
Qed.

Lemma good_two (n0 n1 : N) :
  inRange 0xC2 0xDF n0 = true -> inRange 0x80 0xBF n1 = true ->
  good (N.lor (N.shiftl (N.land n0 0x1F) 6) (N.land n1 0x3F)).
Proof.
  intros H0 H1 rest. pose proof H0 as R0. pose proof H1 as R1.
  apply inRange_spec in R0. apply inRange_spec in R1.
  rewrite (encode_two n0 n1 R0 R1). cbn [app wellFormed].
  rewrite !to_N_byteOf by lia.
  rewrite (outside 0x00 0x7F n0) by lia. rewrite H0. unfold continuation. rewrite H1.
  reflexivity.
Qed.

Lemma good_three (n0 n1 n2 : N) :
  inRange 0xE0 0xEF n0 = true ->
  inRange (if n0 =? 0xE0 then 0xA0 else 0x80) (if n0 =? 0xED then 0x9F else 0xBF) n1 = true ->
  inRange 0x80 0xBF n2 = true ->
  good (N.lor (N.shiftl (N.lor (N.shiftl (N.land n0 0xF) 6) (N.land n1 0x3F)) 6)
          (N.land n2 0x3F)).
Proof.
  intros H0 H1 H2 rest. pose proof H0 as R0. pose proof H1 as R1. pose proof H2 as R2.
  apply inRange_spec in R0. apply inRange_spec in R1. apply inRange_spec in R2.
  rewrite (encode_three n0 n1 n2 R0 R1 R2). cbn [app wellFormed].
  assert (B1 : n1 <= 255) by (destruct (n0 =? 0xE0), (n0 =? 0xED); lia).
  rewrite !to_N_byteOf by lia.
  rewrite (outside 0x00 0x7F n0) by lia. rewrite (outside 0xC2 0xDF n0) by lia.
  rewrite H0, H1. unfold continuation. rewrite H2. reflexivity.
Qed.

Lemma good_four (n0 n1 n2 n3 : N) :
  inRange 0xF0 0xF4 n0 = true ->
  inRange (if n0 =? 0xF0 then 0x90 else 0x80) (if n0 =? 0xF4 then 0x8F else 0xBF) n1 = true ->
  inRange 0x80 0xBF n2 = true -> inRange 0x80 0xBF n3 = true ->
  good (N.lor (N.shiftl (N.lor (N.shiftl (N.lor (N.shiftl (N.land n0 0x7) 6)
          (N.land n1 0x3F)) 6) (N.land n2 0x3F)) 6) (N.land n3 0x3F)).
Proof.
  intros H0 H1 H2 H3 rest.
  pose proof H0 as R0. pose proof H1 as R1. pose proof H2 as R2. pose proof H3 as R3.
  apply inRange_spec in R0. apply inRange_spec in R1.
  apply inRange_spec in R2. apply inRange_spec in R3.
  rewrite (encode_four n0 n1 n2 n3 R0 R1 R2 R3). cbn [app wellFormed].
  assert (B1 : n1 <= 255) by (destruct (n0 =? 0xF0), (n0 =? 0xF4); lia).
  rewrite !to_N_byteOf by lia.
  rewrite (outside 0x00 0x7F n0) by lia. rewrite (outside 0xC2 0xDF n0) by lia.
  rewrite (outside 0xE0 0xEF n0) by lia.
  rewrite H0, H1. unfold continuation. rewrite H2, H3. reflexivity.
Qed.

(** [completes k cp lo hi]: whatever [k] continuation bytes the decoder
    accepts after the code point [cp], the first within [lo] and [hi], the
    scalar value it gives is good. *)
Fixpoint completes (k : nat) (cp lo hi : N) : Prop :=
  match k with
  | O => good cp
  | S k' =>
      forall n, inRange lo hi n = true ->
                completes k' (N.lor (N.shiftl cp 6) (N.land n 0x3F)) 0x80 0xBF
  end.

Definition sound (s : state) : Prop :=
  match needed s with
  | O => True
  | S _ => completes (needed s) (codePoint s) (lower s) (upper s)
  end.

Lemma lead_sound (n : N) : Forall good (fst (lead n)) /\ sound (snd (lead n)).
Proof.
  unfold lead.
  destruct (inRange 0x00 0x7F n) eqn:E0.
  { split; [repeat constructor; apply good_ascii, E0|exact I]. }
  destruct (inRange 0xC2 0xDF n) eqn:E1.
  { split; [constructor|]. intros n1 H1. apply good_two; assumption. }
  destruct (inRange 0xE0 0xEF n) eqn:E2.
  { split; [constructor|]. intros n1 H1 n2 H2. apply good_three; assumption. }
  destruct (inRange 0xF0 0xF4 n) eqn:E3.
  { split; [constructor|]. intros n1 H1 n2 H2 n3 H3. apply good_four; assumption. }
  split; [repeat constructor; apply good_replacement|exact I].
Qed.

Lemma step_sound (s : state) (n : N) :
  sound s -> Forall good (fst (step s n)) /\ sound (snd (step s n)).
Proof.
  unfold sound, step. destruct (needed s) as [|k] eqn:Ek; [intros _; apply lead_sound|].
  intros Hs. destruct (inRange (lower s) (upper s) n) eqn:E.
  - specialize (Hs n E). destruct k as [|k'].
    + split; [repeat constructor; exact Hs|exact I].
    + split; [constructor|exact Hs].
  - pose proof (lead_sound n) as [Hl Hs']. destruct (lead n) as [out s'].
    split; [constructor; [apply good_replacement|exact Hl]|exact Hs'].
Qed.

Lemma decodeFrom_good (s : state) (bs : list byte) :
  sound s -> Forall good (decodeFrom s bs).
Proof.
  revert s. induction bs as [|b rest IH]; intros s Hs.
  - simpl. destruct (needed s); [constructor|].
    constructor; [apply good_replacement|constructor].
  - simpl. pose proof (step_sound s (Byte.to_N b) Hs) as [Hout Hs'].
    destruct (step s (Byte.to_N b)) as [out s']. apply Forall_app.
    split; [exact Hout|apply IH, Hs'].
Qed.

(** Whatever was read, what is written is well-formed UTF-8. *)
Lemma recode_is_wellFormed (bs : list byte) : wellFormed (recode bs) = true.
Proof. apply good_encode, decodeFrom_good. exact I. Qed.

End Encoded.

Section OnPlatform.
Variable environment : setting.
#[local] Hint Extern 0 (Platform _) =>
  exact (SimFacts.sim environment) : typeclass_instances.

(** X22.  Whatever the bytes of a source, the destination that [extractSources]
    writes holds well-formed UTF-8.  It holds the bytes of the source
    exactly when these are well-formed, and to copy the copy would change
    nothing. *)
Theorem destination_is_well_formed (w : world) (file : SourceFile) (bytes : list byte) :
  In file SOURCE_FILES ->
  w_fs w !! sourceOf environment file = Some (File bytes) ->
  canWrite (targetOf environment file) (w_fs w) = true ->
  exists content,
    w_fs (world_of (extractSources w)) !! targetOf environment file = Some (File content) /\
    wellFormed content = true /\
    recode content = content /\
    (content = bytes <-> wellFormed bytes = true).
Proof.
  intros Hin Hs Hw.
  destruct (extracted_written environment w file bytes Hin Hs Hw)
    as (w' & tr & e & m & E & _ & Hcopy & _).
  exists (recode bytes). rewrite E. unfold world_of. cbn [fst].
  split; [exact Hcopy|]. split; [apply recode_is_wellFormed|].
  split; [apply recode_wellFormed, recode_is_wellFormed|].
  split.
  - intros Eq. rewrite <- Eq. apply recode_is_wellFormed.
  - apply recode_wellFormed.
Qed.

End OnPlatform.

Lemma destination_is_well_formed_witness :
  In corePrompts SOURCE_FILES
  /\ w_fs worldLatin !! sourceOf noEnvironment corePrompts = Some (File latin)
  /\ canWrite (targetOf noEnvironment corePrompts) (w_fs worldLatin) = true
  /\ wellFormed latin = false
  /\ exists content,
       w_fs (world_of (@extractSources world here worldLatin))
         !! targetOf noEnvironment corePrompts = Some (File content) /\
       wellFormed content = true /\ content <> latin.
Proof.
  assert (Hin : In corePrompts SOURCE_FILES) by (left; reflexivity).
  assert (Hs : w_fs worldLatin !! sourceOf noEnvironment corePrompts = Some (File latin))
    by (vm_compute; reflexivity).
  assert (Hw : canWrite (targetOf noEnvironment corePrompts) (w_fs worldLatin) = true)
    by (vm_compute; reflexivity).
  assert (Hl : wellFormed latin = false) by (vm_compute; reflexivity).
  split; [exact Hin|]. split; [exact Hs|]. split; [exact Hw|]. split; [exact Hl|].
  destruct (destination_is_well_formed noEnvironment worldLatin corePrompts latin Hin Hs Hw)
    as (content & Hc & Hwf & _ & Hiff).
  exists content. split; [exact Hc|]. split; [exact Hwf|].
  intros Eq. apply Hiff in Eq. rewrite Hl in Eq. discriminate Eq.
Defined.

End CopyFacts.

(** ** The quoting of the commit message *)

Module QuotingFacts.
Import JsString JsArray JsStringFacts JsArrayFacts Collect MessageFacts CollectFacts.
Import Shell Sim ShellFacts SimFacts.

Lemma escapeQuotes_get (s : string) (i : nat) :
  String.get i (escapeQuotes s) = Some DQUOTE ->
  exists j, i = S j /\ String.get j (escapeQuotes s) = Some BACKSLASH.
Proof.
  revert i. induction s as [|c s IH]; intros i; [destruct i; discriminate|].
  simpl escapeQuotes. destruct (Ascii.eqb_spec c DQUOTE) as [->|Hc].
  - destruct i as [|[|i]]; [discriminate| |].
    + intros _. exists 0%nat. split; reflexivity.
    + simpl. intros Hi. destruct (IH i Hi) as (j & -> & Hj).
      exists (S (S j)). split; [reflexivity|exact Hj].
  - destruct i as [|i].
    + simpl. intros E. inversion E. contradiction.
    + simpl. intros Hi. destruct (IH i Hi) as (j & -> & Hj).
      exists (S j). split; [reflexivity|exact Hj].
Qed.

Lemma escapeQuotes_length (s : string) :
  String.length (escapeQuotes s)
  = (String.length s + count_occ ascii_dec (chars s) DQUOTE)%nat.
Proof.
  induction s as [|c s IH]; [reflexivity|].
  simpl escapeQuotes. simpl chars. simpl count_occ.
  destruct (Ascii.eqb_spec c DQUOTE) as [->|Hc].
  - destruct (ascii_dec DQUOTE DQUOTE) as [_|N]; [|contradiction].
    simpl. rewrite IH. lia.
  - destruct (ascii_dec c DQUOTE) as [E|_]; [contradiction|].
    simpl. rewrite IH. reflexivity.
Qed.

Lemma escapeQuotes_plain (s : string) : ~ In DQUOTE (chars s) -> escapeQuotes s = s.
Proof.
  induction s as [|c s IH]; intros Hn; [reflexivity|]. simpl in Hn.
  simpl escapeQuotes. destruct (Ascii.eqb_spec c DQUOTE) as [->|Hc]; [tauto|].
  rewrite IH by tauto. reflexivity.
Qed.

(** A text without a backslash, a dollar, a backquote or a null
    character. *)
Lemma quiet_text (s : string) :
  ~ In BACKSLASH (chars s) -> ~ In DOLLAR (chars s) -> ~ In BACKQUOTE (chars s) ->
  ~ In NUL (chars s) -> forallb quiet (chars s) = true.
Proof.
  intros Hb Hd Hq Hn. apply forallb_forall. intros c Hc.
  unfold quiet, quotable, escapable.
  destruct (Ascii.eqb_spec c DOLLAR) as [->|_]; [tauto|].
  destruct (Ascii.eqb_spec c BACKQUOTE) as [->|_]; [tauto|].
  destruct (Ascii.eqb_spec c DQUOTE) as [->|_]; [reflexivity|].
  destruct (Ascii.eqb_spec c BACKSLASH) as [->|_]; [tauto|].
  destruct (Ascii.eqb_spec c NUL) as [->|_]; [tauto|reflexivity].
Qed.

(** X23.  [message.replace(/"/g, '\\"')] puts a backslash before every double
    quote and changes nothing else: in the result every double quote
    follows a backslash, so that none of them ends the shell word; the
    result is longer by the number of double quotes; a message without
    one is passed as it is; and when the message holds no backslash, no
    dollar and no backquote (and no null character), the shell cuts the
    command line of the commit into four words, the message, as it was,
    being the last. *)
Theorem escapeQuotes_guards_the_quotes (s : string) :
  (forall i, String.get i (escapeQuotes s) = Some DQUOTE ->
             exists j, i = S j /\ String.get j (escapeQuotes s) = Some BACKSLASH)
  /\ String.length (escapeQuotes s)
     = (String.length s + count_occ ascii_dec (chars s) DQUOTE)%nat
  /\ (~ In DQUOTE (chars s) -> escapeQuotes s = s)
  /\ (~ In BACKSLASH (chars s) -> ~ In DOLLAR (chars s) -> ~ In BACKQUOTE (chars s) ->
      ~ In NUL (chars s) ->
      sh (cmdline (GitCommit (escapeQuotes s))) = Words ["git"; "commit"; "-m"; s]).
Proof.
  split; [apply escapeQuotes_get|]. split; [apply escapeQuotes_length|].
  split; [apply escapeQuotes_plain|].
  intros Hb Hd Hq Hn. apply sh_commit, quiet_text; assumption.
Qed.

(** The message for a tag with a double quote in it. *)
Lemma escapeQuotes_guards_the_quotes_witness :
  sh (cmdline (GitCommit
                 (escapeQuotes (commitMessage ("v0.1" +:+ dquote) ["Core prompts"] []))))
  = Words ["git"; "commit"; "-m"; commitMessage ("v0.1" +:+ dquote) ["Core prompts"] []]
  /\ String.length (escapeQuotes (commitMessage ("v0.1" +:+ dquote) ["Core prompts"] []))
     = S (String.length (commitMessage ("v0.1" +:+ dquote) ["Core prompts"] [])).
Proof.
  destruct (escapeQuotes_guards_the_quotes
              (commitMessage ("v0.1" +:+ dquote) ["Core prompts"] []))
    as (_ & Hlen & _ & Hback).
  split; [apply Hback; absent|].
  rewrite Hlen. vm_compute. reflexivity.
Defined.

End QuotingFacts.
